(** * Antialias.c: single-axis image stretch (ImagingStretch)

    A shallow embedding of [src/libImaging/Antialias.c].

    The C code computes in [float] and [double]; every implicit C
    conversion is written out below over an interface [Arith] of the
    arithmetic the file uses.  Two instances are given:

    - [IEEE.arith]: bit-exact IEEE-754 binary32/binary64 with
      round-to-nearest-even (Stdlib's [SpecFloat]), the arithmetic of an
      SSE build.  It is executable.
    - [Exact.arith]: the real numbers, every operation exact.  This is
      the reading under which the formulas of the specification (written
      over the reals) are compared with the code.

    Integers of type [int] are [Z] with 32-bit two's complement
    wrap-around written out. *)

From Stdlib Require Import ZArith List Bool Lia.
From Stdlib Require String.
From Stdlib Require Import Reals Lra.
From Stdlib Require Floats.SpecFloat.
Import ListNotations.

Local Open Scope Z_scope.

(* ------------------------------------------------------------------ *)
(** * C integers *)

(** [int] arithmetic: the result of an operation reduced to 32 bits,
    two's complement. *)
Definition wrap_int (z : Z) : Z := (z + 2^31) mod 2^32 - 2^31.

Definition int_add (a b : Z) : Z := wrap_int (a + b).
Definition int_mul (a b : Z) : Z := wrap_int (a * b).

Definition INT_MIN : Z := - 2^31.
Definition INT_MAX : Z := 2^31 - 1.

(** The cast [(UINT8) c] of a stored byte. *)
Definition UINT8 (c : Z) : Z := c mod 256.

(** [for (i = lo; i < hi; i++)]: the values [i] takes, in order. *)
Definition Zrange (lo hi : Z) : list Z :=
  map (fun n => lo + Z.of_nat n) (seq 0 (Z.to_nat (hi - lo))).

Definition for_loop {St : Type} (lo hi : Z) (body : Z -> St -> St) (s : St) : St :=
  fold_left (fun st i => body i st) (Zrange lo hi) s.

(* ------------------------------------------------------------------ *)
(** * The arithmetic of [float] and [double] *)

Class Arith := {
  float : Type;
  double : Type;
  (** conversions *)
  f_of_int : Z -> float;          (* int -> float *)
  d_of_int : Z -> double;         (* int -> double *)
  f2d : float -> double;          (* float -> double, exact *)
  d2f : double -> float;          (* double -> float, rounds *)
  f_to_int : float -> Z;          (* (int) x *)
  d_to_int : double -> Z;         (* (int) x *)
  (** constants that are not integers *)
  d_half : double;                (* 0.5 *)
  M_PI : double;
  (** float operations *)
  fadd : float -> float -> float;
  fsub : float -> float -> float;
  fmul : float -> float -> float;
  fdiv : float -> float -> float;
  fneg : float -> float;
  (** double operations *)
  dadd : double -> double -> double;
  dsub : double -> double -> double;
  dmul : double -> double -> double;
  ddiv : double -> double -> double;
  dneg : double -> double;
  deq : double -> double -> bool;
  dlt : double -> double -> bool;
  dle : double -> double -> bool;
  (** math.h *)
  floor : double -> double;
  ceil : double -> double;
  sin : double -> double
}.

(* ------------------------------------------------------------------ *)
(** * Resampling filters (Antialias.c, lines 20-81) *)

Section Filters.
Context {A : Arith}.

Record struct_filter := {
  filter : float -> float;
  support : float
}.

Definition sinc_filter (x : float) : float :=
  if deq (f2d x) (d_of_int 0) then d2f (d_of_int 1)
  else
    let x := d2f (dmul (f2d x) M_PI) in
    d2f (ddiv (sin (f2d x)) (f2d x)).

Definition antialias_filter (x : float) : float :=
  if dle (dneg (d_of_int 3)) (f2d x) && dlt (f2d x) (d_of_int 3)
  then fmul (sinc_filter x) (sinc_filter (fdiv x (f_of_int 3)))
  else d2f (d_of_int 0).

Definition ANTIALIAS : struct_filter :=
  {| filter := antialias_filter; support := d2f (d_of_int 3) |}.

Definition nearest_filter (x : float) : float :=
  if dle (dneg d_half) (f2d x) && dlt (f2d x) d_half
  then d2f (d_of_int 1)
  else d2f (d_of_int 0).

Definition NEAREST : struct_filter :=
  {| filter := nearest_filter; support := d2f d_half |}.

Definition bilinear_filter (x : float) : float :=
  let x := if dlt (f2d x) (d_of_int 0) then fneg x else x in
  if dlt (f2d x) (d_of_int 1)
  then d2f (dsub (d_of_int 1) (f2d x))
  else d2f (d_of_int 0).

Definition BILINEAR : struct_filter :=
  {| filter := bilinear_filter; support := d2f (d_of_int 1) |}.

(** [#define a 0.0] inside [bicubic_filter]; written [a] in the comments
    below. *)
Definition bicubic_a : double := d_of_int 0.

Definition bicubic_filter (x : float) : float :=
  let x := if dlt (f2d x) (d_of_int 0) then fneg x else x in
  let xd := f2d x in
  if dlt xd (d_of_int 1) then
    (* (((a + 2.0) * x) - (a + 3.0)) * x*x + 1 *)
    d2f (dadd (dmul (dmul (dsub (dmul (dadd bicubic_a (d_of_int 2)) xd)
                                (dadd bicubic_a (d_of_int 3))) xd) xd)
              (d_of_int 1))
  else if dlt xd (d_of_int 2) then
    (* (((a * x) - 5*a) * x + 8) * x - 4*a *)
    d2f (dsub (dmul (dadd (dmul (dsub (dmul bicubic_a xd)
                                      (dmul (d_of_int 5) bicubic_a)) xd)
                          (d_of_int 8)) xd)
              (dmul (d_of_int 4) bicubic_a))
  else d2f (d_of_int 0).

Definition BICUBIC : struct_filter :=
  {| filter := bicubic_filter; support := d2f (d_of_int 2) |}.

End Filters.

(* ------------------------------------------------------------------ *)
(** * Fixed point (Antialias.c, lines 84-97) *)

Definition PRECISION_BITS : Z := 32 - 8 - 2.

Definition clip8 (in_ : Z) : Z :=
  if in_ >=? Z.shiftl (Z.shiftl 1 PRECISION_BITS) 8 then 255
  else if in_ <=? 0 then 0
  else UINT8 (Z.shiftr in_ PRECISION_BITS).

(* ------------------------------------------------------------------ *)
(** * Images *)

(** Modelled from the spec: [struct ImagingMemoryInstance] is declared in
    Imaging.h, which is not under src/.  These are the fields Antialias.c
    reads: the mode string, the sample type tag, the band (channel) count,
    the two axis sizes and the rows of bytes behind [char **image], each
    byte as its unsigned value. *)
Record Imaging := {
  mode : String.string;
  type : Z;
  bands : Z;
  xsize : Z;
  ysize : Z;
  image : list (list Z)
}.

(** Modelled from the spec: the enumerated identifiers of Imaging.h (not
    under src/): the sample type tag of 8-bit unsigned samples and the
    four filter identifiers, numbered as Imaging.h numbers them. *)
Definition IMAGING_TYPE_UINT8 : Z := 0.
Definition IMAGING_TRANSFORM_NEAREST : Z := 0.
Definition IMAGING_TRANSFORM_ANTIALIAS : Z := 1.
Definition IMAGING_TRANSFORM_BILINEAR : Z := 2.
Definition IMAGING_TRANSFORM_BICUBIC : Z := 3.

(** The error an [ImagingError_*] call raises before [ImagingStretch]
    returns [NULL]; [return 0] after a failed [malloc] of [xbounds] raises
    none. *)
Inductive ImagingError := ModeError | ValueError | Mismatch | MemoryError.

Inductive result :=
  | ReturnImOut
  | ReturnError (e : ImagingError)
  | ReturnNull.

(** [l[n] = v]; the list is unchanged when [n] is not an index of it (the C
    code never stores there when rows have their declared size). *)
Fixpoint list_set {T : Type} (l : list T) (n : nat) (v : T) : list T :=
  match l, n with
  | [], _ => []
  | _ :: t, O => v :: t
  | h :: t, S n => h :: list_set t n v
  end.

(** [image[y][i]] *)
Definition image_get (img : list (list Z)) (y i : Z) : Z :=
  if (y <? 0) || (i <? 0) then 0
  else nth (Z.to_nat i) (nth (Z.to_nat y) img []) 0.

(** [image[y][i] = v] *)
Definition image_set (img : list (list Z)) (y i v : Z) : list (list Z) :=
  if (y <? 0) || (i <? 0) then img
  else list_set img (Z.to_nat y)
         (list_set (nth (Z.to_nat y) img []) (Z.to_nat i) v).

(** The destination while [ImagingStretch] runs: its rows, and the stores
    made so far as (row, byte offset, value), most recent first. *)
Record dest := {
  pixels : list (list Z);
  stores : list (Z * Z * Z)
}.

Definition store (y i v : Z) (d : dest) : dest :=
  {| pixels := image_set (pixels d) y i v;
     stores := (y, i, v) :: stores d |}.

(** What a call leaves behind: the returned value and the destination. *)
Record outcome := {
  ret : result;
  final : dest
}.

(** A buffer that [malloc] returned, by slot index from its start.  The
    slots past its last one are memory like the rest here (the C
    standard leaves an access there undefined): a value stored there is
    read back from there. *)
Definition buffer (T : Type) : Type := Z -> T.

(** [b[i] = v] *)
Definition buffer_set {T : Type} (b : buffer T) (i : Z) (v : T) : buffer T :=
  fun j => if j =? i then v else b j.

(* ------------------------------------------------------------------ *)
(** * ImagingStretch (Antialias.c, lines 100-292)

    The destination is threaded through the loops as a [dest].  The
    source is a separate image: it is read as the call found it.  Byte
    offsets such as [xx*4+0] are computed in [Z] (a row of 4-byte pixels
    addressed with [int] has fewer than [2^29] pixels), and so are the
    slot indices [xx * kmax + x] of the horizontal path.

    The vertical path computes the coefficients of a destination row
    into [k] and [intk] and uses them before it computes the next row's:
    they are a list with one entry per tap.  The horizontal path keeps
    the coefficients of every destination column in the flat buffers
    [kk] and [intkk], [kmax] slots per column, and reads them back in a
    second loop: the buffers are modelled slot by slot, so that a window
    of more than [kmax] taps runs into the slots of the next column, as
    it does in the code.
    [ImagingSectionEnter] and [ImagingSectionLeave] change nothing the
    function reads or writes and are left out. *)

Section Stretch.
Context {A : Arith}.

(** [malloc n size] tells whether the [n]-th allocation of the call, of
    [size] bytes, succeeds. *)
Variable malloc : nat -> Z -> bool.

(** The [switch (filter)] of lines 123-140. *)
Definition select_filter (filter_id : Z) : option struct_filter :=
  if filter_id =? IMAGING_TRANSFORM_NEAREST then Some NEAREST
  else if filter_id =? IMAGING_TRANSFORM_ANTIALIAS then Some ANTIALIAS
  else if filter_id =? IMAGING_TRANSFORM_BILINEAR then Some BILINEAR
  else if filter_id =? IMAGING_TRANSFORM_BICUBIC then Some BICUBIC
  else None.

(** [filterscale = scale; if (filterscale < 1.0) filterscale = 1.0;] *)
Definition filterscale_of (scale : float) : float :=
  if dlt (f2d scale) (d_of_int 1) then d2f (d_of_int 1) else scale.

(** [kmax = (int) ceil(support) * 2 + 1] *)
Definition kmax_of (support : float) : Z :=
  int_add (int_mul (d_to_int (ceil (f2d support))) 2) 1.

(** The coefficients of one destination index, as the statements of
    lines 176-194 compute them (and those of lines 236-257, into the
    slots of [kk] and [intkk]): the window [xmin, xmax), the raw weights
    ([k] after the first loop), their sum [ww], the normalized weights
    ([k] after the second loop) and the fixed-point weights [intk], one
    entry per tap. *)
Record coefficients := {
  xmin : Z;
  xmax : Z;
  k_raw : list float;
  ww : float;
  k : list float;
  intk : list Z
}.

Definition center_of (scale : float) (xx : Z) : float :=
  d2f (dmul (dadd (d_of_int xx) d_half) (f2d scale)).

Definition xmin_of (center support : float) : Z :=
  let xmin := d_to_int (floor (f2d (fsub center support))) in
  if xmin <? 0 then 0 else xmin.

Definition xmax_of (center support : float) (insize : Z) : Z :=
  let xmax := d_to_int (ceil (f2d (fadd center support))) in
  if xmax >? insize then insize else xmax.

(** [filterp->filter((x - center + 0.5) * ss) * ss] *)
Definition weight (filterp : struct_filter) (center ss : float) (x : Z) : float :=
  fmul (filter filterp
          (d2f (dmul (dadd (f2d (fsub (f_of_int x) center)) d_half) (f2d ss))))
       ss.

(** First loop: [k[x - xmin] = w; ww = ww + w;] for [x] from [xmin]. *)
Definition raw_weights (filterp : struct_filter) (center ss : float)
    (xmin xmax : Z) : list float * float :=
  for_loop xmin xmax
    (fun x st =>
       let w := weight filterp center ss x in
       (fst st ++ [w], fadd (snd st) w))
    ([], d2f (d_of_int 0)).

(** Second loop: [k[x] /= ww; intk[x] = (int) (k[x] * (1 << PRECISION_BITS));] *)
Definition fixed_weight (ww kx : float) : Z :=
  f_to_int (fmul (fdiv kx ww) (f_of_int (Z.shiftl 1 PRECISION_BITS))).

Definition compute_coefficients (filterp : struct_filter)
    (scale filterscale support : float) (insize xx : Z) : coefficients :=
  let center := center_of scale xx in
  let ss := d2f (ddiv (d_of_int 1) (f2d filterscale)) in
  let xmin := xmin_of center support in
  let xmax := xmax_of center support insize in
  let kw := raw_weights filterp center ss xmin xmax in
  {| xmin := xmin;
     xmax := xmax;
     k_raw := fst kw;
     ww := snd kw;
     k := map (fun kx => fdiv kx (snd kw)) (fst kw);
     intk := map (fixed_weight (snd kw)) (fst kw) |}.

(** [ss0 = ss1 = ss2 = 1 << (PRECISION_BITS - 1)], then for every tap [x]
    of the window [ssN = ssN + ((UINT8) sample) * intk[x - xmin]], where
    [sample x c] is the byte the path reads for tap [x] and channel [c]. *)
Definition accumulate (sample : Z -> Z -> Z) (c : coefficients) : Z * Z * Z :=
  let ss_init := Z.shiftl 1 (PRECISION_BITS - 1) in
  for_loop (xmin c) (xmax c)
    (fun x st =>
       let '(ss0, ss1, ss2) := st in
       let w := nth (Z.to_nat (x - xmin c)) (intk c) 0 in
       (int_add ss0 (int_mul (UINT8 (sample x 0)) w),
        int_add ss1 (int_mul (UINT8 (sample x 1)) w),
        int_add ss2 (int_mul (UINT8 (sample x 2)) w)))
    (ss_init, ss_init, ss_init).

(** The three stores of one destination pixel. *)
Definition store_pixel (yy xx : Z) (ss : Z * Z * Z) (d : dest) : dest :=
  let '(ss0, ss1, ss2) := ss in
  store yy (xx * 4 + 2) (clip8 ss2)
    (store yy (xx * 4 + 1) (clip8 ss1)
       (store yy (xx * 4 + 0) (clip8 ss0) d)).

(** Vertical stretch, lines 175-215: one row of coefficients per
    destination row [yy], used for every column. *)
Definition stretch_vertical (imOut imIn : Imaging) (filterp : struct_filter)
    (scale filterscale support : float) (d : dest) : dest :=
  for_loop 0 (ysize imOut)
    (fun yy d =>
       let c := compute_coefficients filterp scale filterscale support
                  (ysize imIn) yy in
       if type imIn =? IMAGING_TYPE_UINT8 then
         if bands imIn =? 4 then d
         else if bands imIn =? 3 then
           for_loop 0 (xsize imOut)
             (fun xx d =>
                store_pixel yy xx
                  (accumulate (fun y ch => image_get (image imIn) y (xx * 4 + ch)) c)
                  d)
             d
         else d
       else d)
    d.

(** The buffers of the horizontal path (lines 219-232): [kk] and [intkk]
    of [xsize * kmax] slots, [xbounds] of [xsize * 2]. *)
Record tables := {
  kk : buffer float;
  intkk : buffer Z;
  xbounds : buffer Z
}.

(** The buffers as [malloc] returns them.  No slot is read before it is
    written ([table_row] reads the slots of [kk] its first loop has just
    written, and the loop over the pixels reads slots the second loop of
    [table_row] has written), so the zeros stand for any content
    ([accumulate_column_any_content]). *)
Definition fresh_tables : tables :=
  {| kk := fun _ => d2f (d_of_int 0);
     intkk := fun _ => 0;
     xbounds := fun _ => 0 |}.

(** One turn of the loop of lines 235-258, for destination column [xx]:
    with [k = &kk[xx * kmax]] and [intk = &intkk[xx * kmax]], the first
    loop stores [k[x - xmin] = w] and adds up [ww], the second stores
    [k[x] /= ww] and [intk[x] = (int) (k[x] * (1 << PRECISION_BITS))],
    and the bounds go to [xbounds[xx * 2 + 0]] and [xbounds[xx * 2 + 1]]. *)
Definition table_row (filterp : struct_filter)
    (scale filterscale support : float) (insize kmax xx : Z) (t : tables)
    : tables :=
  let center := center_of scale xx in
  let ss := d2f (ddiv (d_of_int 1) (f2d filterscale)) in
  let xmin := xmin_of center support in
  let xmax := xmax_of center support insize in
  let base := xx * kmax in
  let first :=
    for_loop xmin xmax
      (fun x st =>
         let w := weight filterp center ss x in
         (buffer_set (fst st) (base + (x - xmin)) w, fadd (snd st) w))
      (kk t, d2f (d_of_int 0)) in
  let ww := snd first in
  let second :=
    for_loop 0 (xmax - xmin)
      (fun x st =>
         let kx := fdiv (fst st (base + x)) ww in
         (buffer_set (fst st) (base + x) kx,
          buffer_set (snd st) (base + x)
            (f_to_int (fmul kx (f_of_int (Z.shiftl 1 PRECISION_BITS))))))
      (fst first, intkk t) in
  {| kk := fst second;
     intkk := snd second;
     xbounds := buffer_set (buffer_set (xbounds t) (xx * 2 + 0) xmin)
                  (xx * 2 + 1) xmax |}.

(** The loop of lines 235-258 over the [outsize] destination columns. *)
Definition coefficient_tables (filterp : struct_filter)
    (scale filterscale support : float) (insize kmax outsize : Z) : tables :=
  for_loop 0 outsize
    (table_row filterp scale filterscale support insize kmax)
    fresh_tables.

(** The accumulators of destination column [xx] (lines 266-274): with
    [intk = &intkk[xx * kmax]], [xmin = xbounds[xx * 2 + 0]] and
    [xmax = xbounds[xx * 2 + 1]], for every tap [x] of the window
    [ssN = ssN + ((UINT8) sample) * intk[x - xmin]]. *)
Definition accumulate_column (sample : Z -> Z -> Z) (t : tables)
    (kmax xx : Z) : Z * Z * Z :=
  let base := xx * kmax in
  let xmin := xbounds t (xx * 2 + 0) in
  let xmax := xbounds t (xx * 2 + 1) in
  let ss_init := Z.shiftl 1 (PRECISION_BITS - 1) in
  for_loop xmin xmax
    (fun x st =>
       let '(ss0, ss1, ss2) := st in
       let w := intkk t (base + (x - xmin)) in
       (int_add ss0 (int_mul (UINT8 (sample x 0)) w),
        int_add ss1 (int_mul (UINT8 (sample x 1)) w),
        int_add ss2 (int_mul (UINT8 (sample x 2)) w)))
    (ss_init, ss_init, ss_init).

(** Horizontal stretch, lines 235-284: the coefficients of every
    destination column first, then the rows. *)
Definition stretch_horizontal (imOut imIn : Imaging) (filterp : struct_filter)
    (scale filterscale support : float) (kmax : Z) (d : dest) : dest :=
  let t := coefficient_tables filterp scale filterscale support
             (xsize imIn) kmax (xsize imOut) in
  for_loop 0 (ysize imOut)
    (fun yy d =>
       if type imIn =? IMAGING_TYPE_UINT8 then
         if bands imIn =? 4 then d
         else if bands imIn =? 3 then
           for_loop 0 (xsize imOut)
             (fun xx d =>
                store_pixel yy xx
                  (accumulate_column
                     (fun x ch => image_get (image imIn) yy (x * 4 + ch))
                     t kmax xx)
                  d)
             d
         else d
       else d)
    d.

Definition ImagingStretch (imOut imIn : option Imaging) (filter_id : Z) : outcome :=
  match imOut, imIn with
  | Some imOut, Some imIn =>
    let d := {| pixels := image imOut; stores := [] |} in
    (* check modes *)
    if negb (String.eqb (mode imIn) (mode imOut))
    then {| ret := ReturnError ModeError; final := d |}
    else
    (* check filter *)
    match select_filter filter_id with
    | None => {| ret := ReturnError ValueError; final := d |}
    | Some filterp =>
      let scale_opt :=
        if ysize imIn =? ysize imOut then
          Some (fdiv (f_of_int (xsize imIn)) (f_of_int (xsize imOut)))
        else if xsize imIn =? xsize imOut then
          Some (fdiv (f_of_int (ysize imIn)) (f_of_int (ysize imOut)))
        else None in
      match scale_opt with
      | None => {| ret := ReturnError Mismatch; final := d |}
      | Some scale =>
        let filterscale := filterscale_of scale in
        let support := fmul (support filterp) filterscale in
        let kmax := kmax_of support in
        if xsize imIn =? xsize imOut then
          (* vertical stretch *)
          if negb (malloc 0 (kmax * 4))
          then {| ret := ReturnError MemoryError; final := d |}
          else if negb (malloc 1 (kmax * 4))
          then {| ret := ReturnError MemoryError; final := d |}
          else {| ret := ReturnImOut;
                  final := stretch_vertical imOut imIn filterp scale
                             filterscale support d |}
        else
          if negb (malloc 0 (xsize imOut * kmax * 4))
          then {| ret := ReturnError MemoryError; final := d |}
          else if negb (malloc 1 (xsize imOut * kmax * 4))
          then {| ret := ReturnError MemoryError; final := d |}
          else if negb (malloc 2 (xsize imOut * 2 * 4))
          then {| ret := ReturnNull; final := d |}
          else {| ret := ReturnImOut;
                  final := stretch_horizontal imOut imIn filterp scale
                             filterscale support kmax d |}
      end
    end
  | Some imOut, None =>
    {| ret := ReturnError ModeError;
       final := {| pixels := image imOut; stores := [] |} |}
  | None, _ =>
    {| ret := ReturnError ModeError;
       final := {| pixels := []; stores := [] |} |}
  end.

End Stretch.

(* ------------------------------------------------------------------ *)
(** * IEEE-754 arithmetic *)

Module IEEE.
Import Floats.SpecFloat.

Definition binary32 : Z -> Z -> bool -> spec_float := binary_normalize 24 128.
Definition binary64 : Z -> Z -> bool -> spec_float := binary_normalize 53 1024.

(** Rounds a value to the format given by [norm]; zeros, infinities and
    NaN are kept. *)
Definition convert (norm : Z -> Z -> bool -> spec_float) (x : spec_float)
    : spec_float :=
  match x with
  | S754_finite s m e => norm (cond_Zopp s (Zpos m)) e s
  | _ => x
  end.

(** The integer part of [m * 2^e], rounded down. *)
Definition int_floor (s : bool) (m : positive) (e : Z) : Z :=
  Z.shiftl (cond_Zopp s (Zpos m)) e.

Definition sf_floor (x : spec_float) : spec_float :=
  match x with
  | S754_finite s m e => binary64 (int_floor s m e) 0 s
  | _ => x
  end.

Definition sf_ceil (x : spec_float) : spec_float :=
  match x with
  | S754_finite s m e => binary64 (- int_floor (negb s) m e) 0 s
  | _ => x
  end.

(** [(int) x] as the SSE conversion instructions compute it: truncation
    toward zero, and [INT_MIN] when the value is not an [int] (the C
    standard leaves that case undefined). *)
Definition sf_to_int (x : spec_float) : Z :=
  match x with
  | S754_zero _ => 0
  | S754_finite s m e =>
    let t := cond_Zopp s (Z.shiftl (Zpos m) e) in
    if (INT_MIN <=? t) && (t <=? INT_MAX) then t else INT_MIN
  | _ => INT_MIN
  end.

(** [sin] is libm's; the instance takes it as an argument. *)
Definition arith (libm_sin : spec_float -> spec_float) : Arith := {|
  float := spec_float;
  double := spec_float;
  f_of_int z := binary32 z 0 false;
  d_of_int z := binary64 z 0 false;
  f2d := convert binary64;
  d2f := convert binary32;
  f_to_int := sf_to_int;
  d_to_int := sf_to_int;
  d_half := binary64 1 (-1) false;
  M_PI := S754_finite false 7074237752028440 (-51);
  fadd := SFadd 24 128;
  fsub := SFsub 24 128;
  fmul := SFmul 24 128;
  fdiv := SFdiv 24 128;
  fneg := SFopp;
  dadd := SFadd 53 1024;
  dsub := SFsub 53 1024;
  dmul := SFmul 53 1024;
  ddiv := SFdiv 53 1024;
  dneg := SFopp;
  deq := SFeqb;
  dlt := SFltb;
  dle := SFleb;
  floor := sf_floor;
  ceil := sf_ceil;
  sin := libm_sin
|}.

(** The instance for evaluating requests whose kernel never calls [sin]
    (nearest, bilinear, bicubic): [sin] answers NaN. *)
Definition arith_no_sin : Arith := arith (fun _ => S754_nan).

End IEEE.

(* ------------------------------------------------------------------ *)
(** * Exact arithmetic *)

Module Exact.
Local Open Scope R_scope.

(** The greatest integer not above [x], and the least not below. *)
Definition Zfloor (x : R) : Z := Int_part x.
Definition Zceil (x : R) : Z := (- Int_part (- x))%Z.

(** [(int) x]: truncation toward zero; [INT_MIN] when the truncated value
    is not an [int], as in the IEEE instance. *)
Definition to_int (x : R) : Z :=
  let t := if Rle_dec 0 x then Zfloor x else Zceil x in
  if ((INT_MIN <=? t) && (t <=? INT_MAX))%Z then t else INT_MIN.

Definition Reqb (x y : R) : bool := if Req_dec_T x y then true else false.
Definition Rltb (x y : R) : bool := if Rlt_dec x y then true else false.
Definition Rleb (x y : R) : bool := if Rle_dec x y then true else false.

Definition arith : Arith := {|
  float := R;
  double := R;
  f_of_int := IZR;
  d_of_int := IZR;
  f2d x := x;
  d2f x := x;
  f_to_int := to_int;
  d_to_int := to_int;
  d_half := / 2;
  M_PI := PI;
  fadd := Rplus;
  fsub := Rminus;
  fmul := Rmult;
  fdiv := Rdiv;
  fneg := Ropp;
  dadd := Rplus;
  dsub := Rminus;
  dmul := Rmult;
  ddiv := Rdiv;
  dneg := Ropp;
  deq := Reqb;
  dlt := Rltb;
  dle := Rleb;
  floor x := IZR (Zfloor x);
  ceil x := IZR (Zceil x);
  sin := Rtrigo_def.sin
|}.

End Exact.

(* ------------------------------------------------------------------ *)
(** * Predicates on the destination *)

(** The stores of [d'] are those of [d] and, before them, stores that all
    satisfy [Q]; a byte with no new store is as it was in [d]. *)
Definition extends (Q : Z * Z * Z -> Prop) (d d' : dest) : Prop :=
  exists l,
    stores d' = l ++ stores d /\
    Forall Q l /\
    forall y i, (forall v, ~ In (y, i, v) l) ->
                image_get (pixels d') y i = image_get (pixels d) y i.

(** The bytes [ImagingStretch] may store: channel offsets 0, 1 and 2 of the
    4-byte pixels of a [W] by [H] destination, with a value of 8 bits. *)
Definition footprint (W H : Z) (s : Z * Z * Z) : Prop :=
  let '(y, i, v) := s in
  0 <= y < H /\
  (exists xx ch, 0 <= xx < W /\ 0 <= ch < 3 /\ i = xx * 4 + ch) /\
  0 <= v <= 255.

Definition stored (d : dest) (y i : Z) : Prop :=
  exists v, In (y, i, v) (stores d).

(** Every byte stored to holds a value of 8 bits. *)
Definition bytes_in_range (d : dest) : Prop :=
  forall y i, stored d y i -> 0 <= image_get (pixels d) y i <= 255.

(** The shape both paths share: for every destination row, the [switch]
    on the sample type and the test of the band count around the loop
    over the columns; [g yy xx] stands for the three accumulators. *)
Definition rows_loop (t b W H : Z) (g : Z -> Z -> Z * Z * Z) (d : dest) : dest :=
  for_loop 0 H
    (fun yy d =>
       if t =? IMAGING_TYPE_UINT8 then
         if b =? 4 then d
         else if b =? 3 then
           for_loop 0 W (fun xx d => store_pixel yy xx (g yy xx) d) d
         else d
       else d)
    d.

(** The destination as the call finds it. *)
Definition initial (imOut : Imaging) : dest :=
  {| pixels := image imOut; stores := [] |}.

(** The accumulators [ss0], [ss1] and [ss2] of the destination pixel at
    column [xx] of row [yy], in a call with kernel [filterp]: the scale of
    lines 142-149, the support and [kmax] of lines 151-159, then the loop
    over the window of row [yy] (vertical path, lines 201-207) or over
    the slots of column [xx] (horizontal path, lines 266-274). *)
Definition accumulators {A : Arith} (imOut imIn : Imaging)
    (filterp : struct_filter) (yy xx : Z) : Z * Z * Z :=
  let scale :=
    if ysize imIn =? ysize imOut
    then fdiv (f_of_int (xsize imIn)) (f_of_int (xsize imOut))
    else fdiv (f_of_int (ysize imIn)) (f_of_int (ysize imOut)) in
  let filterscale := filterscale_of scale in
  let support := fmul (support filterp) filterscale in
  let kmax := kmax_of support in
  if xsize imIn =? xsize imOut then
    accumulate (fun y ch => image_get (image imIn) y (xx * 4 + ch))
      (compute_coefficients filterp scale filterscale support (ysize imIn) yy)
  else
    accumulate_column (fun x ch => image_get (image imIn) yy (x * 4 + ch))
      (coefficient_tables filterp scale filterscale support (xsize imIn)
         kmax (xsize imOut))
      kmax xx.

(** A request the checks of lines 118-149 let through, with every
    allocation succeeding. *)
Definition valid_request {A : Arith} (malloc : nat -> Z -> bool)
    (imOut imIn : Imaging) (filter_id : Z) : Prop :=
  mode imIn = mode imOut /\
  select_filter filter_id <> None /\
  (ysize imIn = ysize imOut \/ xsize imIn = xsize imOut) /\
  forall n size, malloc n size = true.

(** The mode of an image fixes its sample type and band count: in
    [layout m = (t, b)], [t] is the type tag and [b] the band count of
    every image of mode [m]. *)
Definition has_layout (layout : String.string -> Z * Z) (im : Imaging) : Prop :=
  layout (mode im) = (type im, bands im).

(** The call was refused with an error. *)
Definition rejected (o : outcome) : Prop :=
  exists e, ret o = ReturnError e.

(* ------------------------------------------------------------------ *)
(** * Example images *)

Module Examples.
Import String.

(** A 3-band 8-bit image ("RGB"), one row of 4-byte pixels per entry. *)
Definition rgb (w h : Z) (rows : list (list Z)) : Imaging :=
  {| mode := "RGB"%string; type := IMAGING_TYPE_UINT8; bands := 3;
     xsize := w; ysize := h; image := rows |}.

(** A 1-band 8-bit image ("L"), one byte per pixel. *)
Definition grey (w h : Z) (rows : list (list Z)) : Imaging :=
  {| mode := "L"%string; type := IMAGING_TYPE_UINT8; bands := 1;
     xsize := w; ysize := h; image := rows |}.

(** The pixel whose three channels hold [v]. *)
Definition px (v : Z) : list Z := [v; v; v; 0].

(** The row [0, 85, 170, 255] as a 1-band image, and as a 3-band image
    holding the value in each channel. *)
Definition grey_row : Imaging := grey 4 1 [[0; 85; 170; 255]].
Definition rgb_row : Imaging :=
  rgb 4 1 [px 0 ++ px 85 ++ px 170 ++ px 255].

(** Every allocation succeeds. *)
Definition malloc_ok : nat -> Z -> bool := fun _ _ => true.

(** The sample type and band count of the two modes above. *)
Definition layout (m : String.string) : Z * Z :=
  if String.eqb m "RGB"%string then (IMAGING_TYPE_UINT8, 3)
  else (IMAGING_TYPE_UINT8, 1).

End Examples.

(* ------------------------------------------------------------------ *)
(** * The coefficient builder as the specification words it

    Section 4.2 of the specification, steps 1 to 6, over the reals;
    [kernel] is the kernel function and [kernel_support] its support. *)

Module Spec.
Local Open Scope R_scope.

Definition scale (srcLen dstLen : Z) : R := IZR srcLen / IZR dstLen.

Definition filterscale (srcLen dstLen : Z) : R :=
  Rmax (scale srcLen dstLen) 1.

Definition support (kernel_support : R) (srcLen dstLen : Z) : R :=
  kernel_support * filterscale srcLen dstLen.

Definition center (srcLen dstLen i : Z) : R :=
  (IZR i + 1 / 2) * scale srcLen dstLen.

Definition clamp (v lo hi : Z) : Z := Z.max lo (Z.min v hi).

Definition window_min (kernel_support : R) (srcLen dstLen i : Z) : Z :=
  clamp (Exact.Zfloor (center srcLen dstLen i
                       - support kernel_support srcLen dstLen)) 0 srcLen.

Definition window_max (kernel_support : R) (srcLen dstLen i : Z) : Z :=
  clamp (Exact.Zceil (center srcLen dstLen i
                      + support kernel_support srcLen dstLen)) 0 srcLen.

Definition raw_weight (kernel : R -> R) (srcLen dstLen i j : Z) : R :=
  kernel ((IZR j - center srcLen dstLen i + 1 / 2)
          / filterscale srcLen dstLen)
  / filterscale srcLen dstLen.

End Spec.

(** The coefficients of destination index [i] as [ImagingStretch]
    computes them for an axis of [srcLen] samples stretched to [dstLen]
    (lines 142-158, then the body of either loop). *)
Definition row_coefficients {A : Arith} (filterp : struct_filter)
    (srcLen dstLen i : Z) : coefficients :=
  let scale := fdiv (f_of_int srcLen) (f_of_int dstLen) in
  let filterscale := filterscale_of scale in
  let support := fmul (support filterp) filterscale in
  compute_coefficients filterp scale filterscale support srcLen i.

(** The three kernels that do not call [sin]. *)
Inductive plain_kernel {A : Arith} : struct_filter -> Prop :=
  | plain_nearest : plain_kernel NEAREST
  | plain_bilinear : plain_kernel BILINEAR
  | plain_bicubic : plain_kernel BICUBIC.

(** The raw weight as the specification words it, dividing by
    [filterscale] where the code multiplies by [ss], in the arithmetic of
    the code. *)
Definition weight_by_division {A : Arith} (filterp : struct_filter)
    (center filterscale : float) (j : Z) : float :=
  fdiv (filter filterp
          (d2f (ddiv (dadd (f2d (fsub (f_of_int j) center)) d_half)
                     (f2d filterscale))))
       filterscale.

(** The sum of the fixed-point weights of a row. *)
Definition sum_intk (l : list Z) : Z := fold_right Z.add 0 l.

(** The sum of a list of reals. *)
Definition Rsum (l : list R) : R := fold_right Rplus 0%R l.

(* ------------------------------------------------------------------ *)
(** * Checking rows in binary32 by evaluation *)

Module Binary32.
Import Floats.SpecFloat.

(** A row with a non-empty window, a positive total weight and
    fixed-point weights whose sum is within the number of taps of
    [2^22]. *)
Definition row_ok (r : @coefficients IEEE.arith_no_sin) : bool :=
  (xmin r <? xmax r) &&
  SFltb (S754_zero false) (ww r) &&
  (Z.abs (sum_intk (intk r) - 2^22) <? Z.of_nat (length (intk r))).

(** Every row of every stretch between axis lengths from 1 to [n]. *)
Definition rows_ok (filterp : @struct_filter IEEE.arith_no_sin) (n : Z) : bool :=
  forallb (fun srcLen =>
    forallb (fun dstLen =>
      forallb (fun i => row_ok (row_coefficients filterp srcLen dstLen i))
        (Zrange 0 dstLen))
      (Zrange 1 (n + 1)))
    (Zrange 1 (n + 1)).

End Binary32.

(* ------------------------------------------------------------------ *)
(** * Well-formed destinations and the value of a destination byte *)

(** Rows of at least [W] 4-byte pixels, at least [H] of them. *)
Definition rows_fit (img : list (list Z)) (W H : Z) : Prop :=
  H <= Z.of_nat (length img) /\
  forall y, 0 <= y < H -> 4 * W <= Z.of_nat (length (nth (Z.to_nat y) img [])).

(** Accumulator [ch] of the three. *)
Definition chan (ch : Z) (ss : Z * Z * Z) : Z :=
  if ch =? 0 then fst (fst ss) else if ch =? 1 then snd (fst ss) else snd ss.

(** A kernel that is 1 at offset 0 and 0 at every other integer offset. *)
Definition unit_kernel (f : R -> R) : Prop :=
  f 0%R = 1%R /\ forall n : Z, n <> 0 -> f (IZR n) = 0%R.

(** The fixed-point weights of a window with all the weight on tap [i]. *)
Definition one_hot (i lo hi : Z) : list Z :=
  map (fun j => if j =? i then 2^22 else 0) (Zrange lo hi).

(* ------------------------------------------------------------------ *)
(** * Relations between images, and the sum of a window *)

(** Two sources that a call cannot tell apart: the same header fields,
    and the same value of [(UINT8)] at the three channel bytes of every
    pixel inside the image. *)
Definition same_samples (im1 im2 : Imaging) : Prop :=
  mode im1 = mode im2 /\ type im1 = type im2 /\ bands im1 = bands im2 /\
  xsize im1 = xsize im2 /\ ysize im1 = ysize im2 /\
  forall y x ch, 0 <= y < ysize im1 -> 0 <= x < xsize im1 -> 0 <= ch < 3 ->
    UINT8 (image_get (image im1) y (x * 4 + ch)) =
    UINT8 (image_get (image im2) y (x * 4 + ch)).

(** [imT] holds the pixels of [im] with rows and columns exchanged. *)
Definition transposed (im imT : Imaging) : Prop :=
  type imT = type im /\ bands imT = bands im /\
  xsize imT = ysize im /\ ysize imT = xsize im /\
  forall y x ch, 0 <= y < ysize im -> 0 <= x < xsize im -> 0 <= ch < 3 ->
    UINT8 (image_get (image imT) x (y * 4 + ch)) =
    UINT8 (image_get (image im) y (x * 4 + ch)).

(** The sum the inner loop forms for one channel, in [Z]: over the taps
    [x] of the window, the sample of tap [x] times [intk[x - xmin]]. *)
Definition weighted_sum {A : Arith} (sample : Z -> Z) (c : coefficients) : Z :=
  fold_right Z.add 0
    (map (fun x => UINT8 (sample x) * nth (Z.to_nat (x - xmin c)) (intk c) 0)
       (Zrange (xmin c) (xmax c))).

(** [kmax] as [ImagingStretch] computes it for an axis of [srcLen]
    samples stretched to [dstLen] (lines 142-159): the number of slots
    [k], [intk], [kk] and [intkk] have for one destination index. *)
Definition row_kmax {A : Arith} (filterp : struct_filter)
    (srcLen dstLen : Z) : Z :=
  let scale := fdiv (f_of_int srcLen) (f_of_int dstLen) in
  kmax_of (fmul (support filterp) (filterscale_of scale)).

(** For a request that stretches one axis, the destination pixel at
    column [xx] of row [yy]: the coefficients of its index along the
    stretched axis (row [yy] on the vertical path, column [xx] on the
    horizontal path), the number of slots the buffers have for them, and
    the source byte of channel [ch] at tap [t] of its window. *)
Definition pixel_coefficients {A : Arith} (imOut imIn : Imaging)
    (filterp : struct_filter) (yy xx : Z) : coefficients :=
  if xsize imIn =? xsize imOut
  then row_coefficients filterp (ysize imIn) (ysize imOut) yy
  else row_coefficients filterp (xsize imIn) (xsize imOut) xx.

Definition pixel_kmax {A : Arith} (imOut imIn : Imaging)
    (filterp : struct_filter) : Z :=
  if xsize imIn =? xsize imOut
  then row_kmax filterp (ysize imIn) (ysize imOut)
  else row_kmax filterp (xsize imIn) (xsize imOut).

Definition pixel_sample (imOut imIn : Imaging) (yy xx t ch : Z) : Z :=
  if xsize imIn =? xsize imOut
  then image_get (image imIn) t (xx * 4 + ch)
  else image_get (image imIn) yy (t * 4 + ch).

(** The source sample whose unit interval [(j, j + 1]] holds the center
    [(i + 1/2) * srcLen / dstLen] of destination index [i]. *)
Definition central_index (srcLen dstLen i : Z) : Z :=
  ((2 * i + 1) * srcLen - 1) / (2 * dstLen).

(** Further sample images and allocators. *)
Module Samples.
Import Examples.

(** Destinations, width by height. *)
Definition dst_2x1 : Imaging := rgb 2 1 [px 0 ++ px 0].
Definition dst_2x1_other : Imaging := rgb 2 1 [px 9 ++ px 200].
Definition dst_2x2 : Imaging := rgb 2 2 [px 7 ++ px 7; px 7 ++ px 7].
Definition dst_2x3 : Imaging :=
  rgb 2 3 [px 0 ++ px 0; px 0 ++ px 0; px 0 ++ px 0].
Definition dst_1x2 : Imaging := rgb 1 2 [px 0; px 0].
Definition dst_4x1 : Imaging := rgb 4 1 [px 0 ++ px 0 ++ px 0 ++ px 0].

(** The row of [rgb_row] with another fourth byte in every pixel, the
    same samples as a column, a source with no row, and a row of two
    pixels. *)
Definition rgb_row_padded : Imaging :=
  rgb 4 1 [[0; 0; 0; 9] ++ [85; 85; 85; 9] ++ [170; 170; 170; 9]
           ++ [255; 255; 255; 9]].
Definition rgb_column : Imaging :=
  rgb 1 4 [px 0; px 85; px 170; px 255].
Definition rgb_no_row : Imaging := rgb 2 0 [].
Definition rgb_pair : Imaging := rgb 2 1 [px 10 ++ px 20].

(** Only the first allocation succeeds; only the first two succeed. *)
Definition malloc_one : nat -> Z -> bool := fun n _ => Nat.eqb n 0.
Definition malloc_two : nat -> Z -> bool := fun n _ => Nat.ltb n 2.

End Samples.

(* ------------------------------------------------------------------ *)
(** * Checking every row of small axes in binary32 *)

Module SmallAxes.

(** [P srcLen dstLen i] for every destination index of every stretch
    between axis lengths from 1 to [n]. *)
Definition all_rows (P : Z -> Z -> Z -> bool) (n : Z) : bool :=
  forallb (fun srcLen =>
    forallb (fun dstLen =>
      forallb (fun i => P srcLen dstLen i) (Zrange 0 dstLen))
      (Zrange 1 (n + 1)))
    (Zrange 1 (n + 1)).

Fixpoint list_eqb (a b : list Z) : bool :=
  match a, b with
  | [], [] => true
  | x :: a, y :: b => (x =? y) && list_eqb a b
  | _, _ => false
  end.

(** Weights that are not negative and sum to [2^22] within 8224. *)
Definition row_is_mean (r : @coefficients IEEE.arith_no_sin) : bool :=
  forallb (fun w => 0 <=? w) (intk r) &&
  (Z.abs (sum_intk (intk r) - 2^22) <=? 8224).

(** All the weight on tap [t], which lies in the window. *)
Definition row_is_one_hot (t : Z) (r : @coefficients IEEE.arith_no_sin)
    : bool :=
  (xmin r <=? t) && (t <? xmax r) &&
  list_eqb (intk r) (one_hot t (xmin r) (xmax r)).

(** The three checks: every row of the kernels that do not call [sin]
    is a mean; at equal lengths the rows of the nearest and bilinear
    kernels have all the weight on the index itself; when the axis is
    not shrunk the rows of the nearest kernel have all the weight on
    the central sample. *)
Definition means_checked (n : Z) : bool :=
  forallb (fun f => all_rows (fun s d i =>
                      row_is_mean (row_coefficients f s d i)) n)
    [@NEAREST IEEE.arith_no_sin; BILINEAR; BICUBIC].

Definition copies_checked (n : Z) : bool :=
  forallb (fun f => forallb (fun s =>
                      forallb (fun i =>
                        row_is_one_hot i (row_coefficients f s s i))
                        (Zrange 0 s))
                      (Zrange 1 (n + 1)))
    [@NEAREST IEEE.arith_no_sin; BILINEAR].

(** The window is the block of the [m] samples from [i * m] on, each
    with the weight [2^22 / m]. *)
Definition row_is_box (m i : Z) (r : @coefficients IEEE.arith_no_sin)
    : bool :=
  (xmin r =? i * m) && (xmax r =? (i + 1) * m) &&
  list_eqb (intk r) (repeat (2^22 / m) (Z.to_nat m)).

(** Every row of the nearest kernel, for an axis of [m * d] samples
    shrunk to [d], [m * d] up to [n]. *)
Definition boxes_checked (n : Z) : bool :=
  forallb (fun m =>
    forallb (fun d =>
      if m * d <=? n
      then forallb (fun i =>
             row_is_box m i
               (row_coefficients (@NEAREST IEEE.arith_no_sin) (m * d) d i))
             (Zrange 0 d)
      else true)
      (Zrange 1 (n + 1)))
    (Zrange 1 (n + 1)).

Definition enlarging_checked (n : Z) : bool :=
  all_rows (fun s d i =>
              if s <=? d
              then row_is_one_hot (central_index s d i)
                     (row_coefficients (@NEAREST IEEE.arith_no_sin) s d i)
              else true) n.

End SmallAxes.

(** The room of a row of coefficients, checked on small axes. *)
Module SmallWindows.

(** The window of destination index [i] is not empty and has at most
    [kmax] taps. *)
Definition window_fits {A : Arith} (kernel_support : float) (s d i : Z)
    : bool :=
  let scale := fdiv (f_of_int s) (f_of_int d) in
  let filterscale := filterscale_of scale in
  let support := fmul kernel_support filterscale in
  let center := center_of scale i in
  let lo := xmin_of center support in
  let hi := xmax_of center support s in
  (lo <? hi) && (hi - lo <=? kmax_of support).

(** Every sample of the source outside the window of destination index
    [i] has a raw weight that compares equal to zero. *)
Definition window_is_whole {A : Arith} (f : struct_filter) (s d i : Z)
    : bool :=
  let scale := fdiv (f_of_int s) (f_of_int d) in
  let filterscale := filterscale_of scale in
  let support := fmul (support f) filterscale in
  let center := center_of scale i in
  let ss := d2f (ddiv (d_of_int 1) (f2d filterscale)) in
  let lo := xmin_of center support in
  let hi := xmax_of center support s in
  forallb (fun j =>
             if (lo <=? j) && (j <? hi) then true
             else deq (f2d (weight f center ss j)) (d_of_int 0))
    (Zrange 0 s).

Definition windows_whole {A : Arith} (n : Z) : bool :=
  forallb (fun f => SmallAxes.all_rows (window_is_whole f) n)
    [NEAREST; ANTIALIAS; BILINEAR; BICUBIC].

(** Every window of the four kernels, for axes from 1 to [n]. *)
Definition windows_fit {A : Arith} (n : Z) : bool :=
  forallb (fun f => SmallAxes.all_rows (window_fits (support f)) n)
    [NEAREST; ANTIALIAS; BILINEAR; BICUBIC].

End SmallWindows.

(* ------------------------------------------------------------------ *)
(** * Loops and arrays *)

Lemma Zrange_empty lo hi : hi <= lo -> Zrange lo hi = [].
Proof.
  intros H. unfold Zrange.
  replace (Z.to_nat (hi - lo)) with 0%nat by lia. reflexivity.
Qed.

Lemma Zrange_snoc lo hi : lo <= hi -> Zrange lo (hi + 1) = Zrange lo hi ++ [hi].
Proof.
  intros H. unfold Zrange.
  replace (Z.to_nat (hi + 1 - lo)) with (S (Z.to_nat (hi - lo))) by lia.
  rewrite seq_S, map_app. simpl. do 2 f_equal. lia.
Qed.

Lemma Zrange_length lo hi : length (Zrange lo hi) = Z.to_nat (hi - lo).
Proof. unfold Zrange. now rewrite length_map, length_seq. Qed.

Lemma In_Zrange lo hi i : In i (Zrange lo hi) <-> lo <= i < hi.
Proof.
  unfold Zrange. rewrite in_map_iff. split.
  - intros (n & <- & Hn). apply in_seq in Hn. lia.
  - intros H. exists (Z.to_nat (i - lo)). split; [lia|].
    apply in_seq. lia.
Qed.

Lemma nth_Zrange lo hi n d :
  (n < Z.to_nat (hi - lo))%nat -> nth n (Zrange lo hi) d = lo + Z.of_nat n.
Proof.
  intros H. unfold Zrange.
  rewrite nth_indep with (d' := (fun n => lo + Z.of_nat n) 0%nat)
    by now rewrite length_map, length_seq.
  rewrite (map_nth (fun n => lo + Z.of_nat n)), seq_nth by assumption.
  reflexivity.
Qed.

Lemma for_loop_empty {St : Type} lo hi (body : Z -> St -> St) s :
  hi <= lo -> for_loop lo hi body s = s.
Proof. intros H. unfold for_loop. now rewrite Zrange_empty. Qed.

Lemma for_loop_step {St : Type} lo hi (body : Z -> St -> St) s :
  lo <= hi ->
  for_loop lo (hi + 1) body s = body hi (for_loop lo hi body s).
Proof.
  intros H. unfold for_loop. rewrite Zrange_snoc by assumption.
  now rewrite fold_left_app.
Qed.

(** The loop invariant rule: [P i] holds before iteration [i]. *)
Lemma for_loop_invariant {St : Type} (P : Z -> St -> Prop) lo hi
    (body : Z -> St -> St) s :
  lo <= hi ->
  P lo s ->
  (forall i st, lo <= i < hi -> P i st -> P (i + 1) (body i st)) ->
  P hi (for_loop lo hi body s).
Proof.
  intros Hle H0 Hstep.
  assert (G : forall n, lo + Z.of_nat n <= hi ->
                        P (lo + Z.of_nat n) (for_loop lo (lo + Z.of_nat n) body s)).
  { induction n as [|n IH]; intros Hn.
    - rewrite Z.add_0_r, for_loop_empty by lia. exact H0.
    - replace (lo + Z.of_nat (S n)) with (lo + Z.of_nat n + 1) by lia.
      rewrite for_loop_step by lia. apply Hstep; [lia|]. apply IH. lia. }
  specialize (G (Z.to_nat (hi - lo))).
  replace (lo + Z.of_nat (Z.to_nat (hi - lo))) with hi in G by lia.
  apply G. lia.
Qed.

(** A property every iteration keeps is kept by the loop. *)
Lemma for_loop_preserves {St : Type} (P : St -> Prop) lo hi
    (body : Z -> St -> St) s :
  P s ->
  (forall i st, lo <= i < hi -> P st -> P (body i st)) ->
  P (for_loop lo hi body s).
Proof.
  intros H0 Hstep.
  destruct (Z_le_gt_dec lo hi) as [Hle|Hgt].
  - apply (for_loop_invariant (fun _ => P)); auto.
  - rewrite for_loop_empty by lia. exact H0.
Qed.

Lemma for_loop_ext {St : Type} lo hi (f g : Z -> St -> St) s :
  (forall i st, lo <= i < hi -> f i st = g i st) ->
  for_loop lo hi f s = for_loop lo hi g s.
Proof.
  intros H. unfold for_loop.
  assert (G : forall l, (forall i, In i l -> lo <= i < hi) ->
            forall s, fold_left (fun st i => f i st) l s =
                      fold_left (fun st i => g i st) l s).
  { induction l as [|i l IH]; intros Hl s0; simpl; [reflexivity|].
    rewrite H by (apply Hl; now left). apply IH.
    intros j Hj. apply Hl. now right. }
  apply G. intros i Hi. now apply In_Zrange.
Qed.

Lemma nth_list_set_eq {T : Type} (l : list T) n v d :
  (n < length l)%nat -> nth n (list_set l n v) d = v.
Proof.
  revert n. induction l as [|h t IH]; intros [|n] H; simpl in *;
    try lia; auto. apply IH. lia.
Qed.

Lemma nth_list_set_neq {T : Type} (l : list T) n m v d :
  n <> m -> nth m (list_set l n v) d = nth m l d.
Proof.
  revert n m. induction l as [|h t IH]; intros [|n] [|m] H; simpl;
    try congruence; auto.
Qed.

Lemma length_list_set {T : Type} (l : list T) n v :
  length (list_set l n v) = length l.
Proof.
  revert n. induction l as [|h t IH]; intros [|n]; simpl; auto.
Qed.

Lemma list_set_out_of_range {T : Type} (l : list T) n v :
  (length l <= n)%nat -> list_set l n v = l.
Proof.
  revert n. induction l as [|h t IH]; intros [|n] H; simpl in *;
    try lia; auto. f_equal. apply IH. lia.
Qed.

(** A store leaves every other byte as it was. *)
Lemma image_get_set_other img y i v y' i' :
  (y', i') <> (y, i) ->
  image_get (image_set img y i v) y' i' = image_get img y' i'.
Proof.
  intros Hne. unfold image_get, image_set.
  destruct ((y' <? 0) || (i' <? 0)) eqn:E'; [reflexivity|].
  destruct ((y <? 0) || (i <? 0)) eqn:E; [reflexivity|].
  apply orb_false_elim in E', E.
  destruct E' as [Ey' Ei'], E as [Ey Ei].
  apply Z.ltb_ge in Ey', Ei', Ey, Ei.
  destruct (Z.eq_dec y y') as [->|Hy].
  - destruct (Nat.lt_ge_cases (Z.to_nat y') (length img)) as [Hlt|Hge].
    + rewrite nth_list_set_eq by assumption.
      apply nth_list_set_neq. intros Heq. apply Hne. f_equal. lia.
    + now rewrite list_set_out_of_range.
  - rewrite nth_list_set_neq by lia. reflexivity.
Qed.

(** A store inside the image is read back. *)
Lemma image_get_set_same img y i v :
  0 <= y -> (Z.to_nat y < length img)%nat ->
  0 <= i -> (Z.to_nat i < length (nth (Z.to_nat y) img []))%nat ->
  image_get (image_set img y i v) y i = v.
Proof.
  intros Hy Hly Hi Hli. unfold image_get, image_set.
  replace ((y <? 0) || (i <? 0)) with false
    by (symmetry; apply orb_false_intro; apply Z.ltb_ge; assumption).
  rewrite nth_list_set_eq by assumption.
  now apply nth_list_set_eq.
Qed.

(** Reading back a store: the value, or 0 where the rows do not reach. *)
Lemma image_get_set_same_cases img y i v :
  image_get (image_set img y i v) y i = v \/
  image_get (image_set img y i v) y i = 0.
Proof.
  unfold image_get, image_set.
  destruct ((y <? 0) || (i <? 0)) eqn:E; [now right|].
  destruct (Nat.lt_ge_cases (Z.to_nat y) (length img)) as [Hy|Hy].
  - rewrite nth_list_set_eq by assumption.
    destruct (Nat.lt_ge_cases (Z.to_nat i)
                (length (nth (Z.to_nat y) img []))) as [Hi|Hi].
    + left. now apply nth_list_set_eq.
    + right. rewrite list_set_out_of_range by assumption.
      now apply nth_overflow.
  - right. rewrite list_set_out_of_range by assumption.
    rewrite (nth_overflow img) by assumption. now destruct (Z.to_nat i).
Qed.

(* ------------------------------------------------------------------ *)
(** * What the convolution loops store *)

Lemma clip8_range in_ : 0 <= clip8 in_ <= 255.
Proof.
  unfold clip8, UINT8.
  destruct (in_ >=? _); [lia|].
  destruct (in_ <=? 0); [lia|].
  pose proof (Z.mod_pos_bound (Z.shiftr in_ PRECISION_BITS) 256). lia.
Qed.

(** Between the two thresholds the result is the accumulator shifted
    right, with no reduction by the cast. *)
Lemma clip8_shift in_ :
  0 < in_ < 2^30 -> clip8 in_ = in_ / 2^22.
Proof.
  intros H. unfold clip8, UINT8, PRECISION_BITS.
  change (Z.shiftl (Z.shiftl 1 (32 - 8 - 2)) 8) with (2^30).
  destruct (in_ >=? 2^30) eqn:E1; [lia|].
  destruct (in_ <=? 0) eqn:E2; [lia|].
  rewrite Z.shiftr_div_pow2 by lia.
  change (32 - 8 - 2) with 22.
  apply Z.mod_small. split.
  - apply Z.div_pos; lia.
  - apply Z.div_lt_upper_bound; lia.
Qed.

Lemma extends_refl Q d : extends Q d d.
Proof. exists []. repeat split; auto. Qed.

Lemma extends_trans Q d1 d2 d3 :
  extends Q d1 d2 -> extends Q d2 d3 -> extends Q d1 d3.
Proof.
  intros (l1 & E1 & F1 & P1) (l2 & E2 & F2 & P2).
  exists (l2 ++ l1). repeat split.
  - now rewrite E2, E1, app_assoc.
  - apply Forall_app. now split.
  - intros y i H. rewrite P2, P1; auto.
    + intros v Hv. apply (H v), in_or_app. now right.
    + intros v Hv. apply (H v), in_or_app. now left.
Qed.

Lemma extends_store (Q : Z * Z * Z -> Prop) y i v d :
  Q (y, i, v) -> extends Q d (store y i v d).
Proof.
  intros H. exists [(y, i, v)]. repeat split.
  - now constructor.
  - intros y' i' Hn. simpl. apply image_get_set_other.
    intros Heq. injection Heq as -> ->. apply (Hn v). now left.
Qed.

Lemma stored_store y i v d y' i' :
  stored d y' i' -> stored (store y i v d) y' i'.
Proof. intros (w & H). exists w. now right. Qed.

Lemma stored_store_same y i v d : stored (store y i v d) y i.
Proof. exists v. now left. Qed.

Lemma extends_store_pixel W H yy xx ss d :
  0 <= yy < H -> 0 <= xx < W ->
  extends (footprint W H) d (store_pixel yy xx ss d).
Proof.
  intros Hy Hx. destruct ss as [[ss0 ss1] ss2]. unfold store_pixel.
  eapply extends_trans; [eapply extends_trans|];
    apply extends_store; (split; [assumption|split; [|apply clip8_range]]).
  - exists xx, 0. lia.
  - exists xx, 1. lia.
  - exists xx, 2. lia.
Qed.

Lemma stored_store_pixel yy xx ss d :
  (forall y i, stored d y i -> stored (store_pixel yy xx ss d) y i) /\
  (forall ch, 0 <= ch < 3 -> stored (store_pixel yy xx ss d) yy (xx * 4 + ch)).
Proof.
  destruct ss as [[ss0 ss1] ss2]. unfold store_pixel. split.
  - intros y i H. now do 3 apply stored_store.
  - intros ch Hch.
    assert (C : ch = 0 \/ ch = 1 \/ ch = 2) by lia.
    destruct C as [->|[->| ->]].
    + do 2 apply stored_store. apply stored_store_same.
    + apply stored_store. apply stored_store_same.
    + apply stored_store_same.
Qed.

Lemma bytes_in_range_store y i v d :
  0 <= v <= 255 -> bytes_in_range d -> bytes_in_range (store y i v d).
Proof.
  intros Hv Hd y' i' (w & Hin).
  destruct (Z.eq_dec y' y) as [->|Hy]; [destruct (Z.eq_dec i' i) as [->|Hi]|].
  - cbn [store pixels].
    destruct (image_get_set_same_cases (pixels d) y i v) as [-> | ->]; lia.
  - cbn [store pixels]. rewrite image_get_set_other by congruence.
    apply Hd. destruct Hin as [E|Hin]; [congruence|]. now exists w.
  - cbn [store pixels]. rewrite image_get_set_other by congruence.
    apply Hd. destruct Hin as [E|Hin]; [congruence|]. now exists w.
Qed.

Lemma bytes_in_range_store_pixel yy xx ss d :
  bytes_in_range d -> bytes_in_range (store_pixel yy xx ss d).
Proof.
  intros Hd. destruct ss as [[ss0 ss1] ss2]. unfold store_pixel.
  repeat apply bytes_in_range_store; try apply clip8_range. exact Hd.
Qed.

Lemma bytes_in_range_rows_loop t b W H g d :
  bytes_in_range d -> bytes_in_range (rows_loop t b W H g d).
Proof.
  intros Hd. unfold rows_loop.
  apply (for_loop_preserves bytes_in_range); [exact Hd|].
  intros yy st _ Hst.
  destruct (t =? IMAGING_TYPE_UINT8); [|exact Hst].
  destruct (b =? 4); [exact Hst|].
  destruct (b =? 3); [|exact Hst].
  apply (for_loop_preserves bytes_in_range); [exact Hst|].
  intros xx st' _ Hst'. now apply bytes_in_range_store_pixel.
Qed.

Lemma rows_loop_skip t b W H g d :
  ~ (t = IMAGING_TYPE_UINT8 /\ b = 3) -> rows_loop t b W H g d = d.
Proof.
  intros Hn. unfold rows_loop.
  apply (for_loop_preserves (fun st => st = d)); [reflexivity|].
  intros yy st _ ->.
  destruct (Z.eqb_spec t IMAGING_TYPE_UINT8); [|reflexivity].
  destruct (Z.eqb_spec b 4); [reflexivity|].
  destruct (Z.eqb_spec b 3); [|reflexivity].
  exfalso. apply Hn. now split.
Qed.

Lemma rows_loop_extends t b W H g d :
  extends (footprint W H) d (rows_loop t b W H g d).
Proof.
  unfold rows_loop.
  apply (for_loop_preserves (fun st => extends (footprint W H) d st)).
  - apply extends_refl.
  - intros yy st Hyy Hst.
    destruct (t =? IMAGING_TYPE_UINT8); [|exact Hst].
    destruct (b =? 4); [exact Hst|].
    destruct (b =? 3); [|exact Hst].
    apply (for_loop_preserves (fun st => extends (footprint W H) d st));
      [exact Hst|].
    intros xx st' Hxx Hst'.
    eapply extends_trans; [exact Hst'|].
    now apply extends_store_pixel.
Qed.

(** Every store of the loops satisfies what holds of the three clipped
    accumulators of every pixel. *)
Lemma rows_loop_extends_with (Q : Z * Z * Z -> Prop) t b W H g d :
  (forall yy xx ch, 0 <= yy < H -> 0 <= xx < W -> 0 <= ch < 3 ->
                    Q (yy, xx * 4 + ch, clip8 (chan ch (g yy xx)))) ->
  extends Q d (rows_loop t b W H g d).
Proof.
  intros HQ. unfold rows_loop.
  apply (for_loop_preserves (fun st => extends Q d st)).
  - apply extends_refl.
  - intros yy st Hyy Hst.
    destruct (t =? IMAGING_TYPE_UINT8); [|exact Hst].
    destruct (b =? 4); [exact Hst|].
    destruct (b =? 3); [|exact Hst].
    apply (for_loop_preserves (fun st => extends Q d st)); [exact Hst|].
    intros xx st' Hxx Hst'.
    eapply extends_trans; [exact Hst'|].
    pose proof (HQ yy xx 0 Hyy Hxx ltac:(lia)) as Q0.
    pose proof (HQ yy xx 1 Hyy Hxx ltac:(lia)) as Q1.
    pose proof (HQ yy xx 2 Hyy Hxx ltac:(lia)) as Q2.
    destruct (g yy xx) as [[ss0 ss1] ss2]. unfold store_pixel.
    eapply extends_trans; [eapply extends_trans|]; apply extends_store;
      assumption.
Qed.

Lemma columns_loop_covers W yy (g : Z -> Z * Z * Z) d :
  let d' := for_loop 0 W (fun xx d => store_pixel yy xx (g xx) d) d in
  (forall y i, stored d y i -> stored d' y i) /\
  (forall xx ch, 0 <= xx < W -> 0 <= ch < 3 -> stored d' yy (xx * 4 + ch)).
Proof.
  intros d'. subst d'.
  destruct (Z_le_gt_dec 0 W) as [HW|HW].
  2:{ rewrite for_loop_empty by lia. split; [auto|]. intros; lia. }
  apply (for_loop_invariant
           (fun n st =>
              (forall y i, stored d y i -> stored st y i) /\
              (forall xx ch, 0 <= xx < n -> 0 <= ch < 3 ->
                             stored st yy (xx * 4 + ch)))); [assumption| |].
  - split; [auto|]. intros; lia.
  - intros xx st Hxx [Hmono Hcov].
    destruct (stored_store_pixel yy xx (g xx) st) as [Hm Hc].
    split.
    + intros y i Hs. apply Hm, Hmono, Hs.
    + intros x ch Hx Hch.
      destruct (Z.eq_dec x xx) as [->|Hne].
      * now apply Hc.
      * apply Hm, Hcov; lia.
Qed.

Lemma rows_loop_covers W H g d :
  let d' := rows_loop IMAGING_TYPE_UINT8 3 W H g d in
  forall yy xx ch, 0 <= yy < H -> 0 <= xx < W -> 0 <= ch < 3 ->
                   stored d' yy (xx * 4 + ch).
Proof.
  intros d'. subst d'. unfold rows_loop.
  destruct (Z_le_gt_dec 0 H) as [HH|HH].
  2:{ intros; lia. }
  apply (for_loop_invariant
           (fun n st =>
              forall yy xx ch, 0 <= yy < n -> 0 <= xx < W -> 0 <= ch < 3 ->
                               stored st yy (xx * 4 + ch))); [assumption| |].
  - intros; lia.
  - intros y st Hy Hcov. simpl.
    destruct (columns_loop_covers W y (g y) st) as [Hm Hc].
    intros yy xx ch Hyy Hxx Hch.
    destruct (Z.eq_dec yy y) as [->|Hne].
    + now apply Hc.
    + apply Hm, Hcov; lia.
Qed.

(* ------------------------------------------------------------------ *)
(** * Control flow and write footprint of ImagingStretch

    The statements of this part hold in every arithmetic. *)

Section Footprint.
Context {A : Arith}.
Variable malloc : nat -> Z -> bool.

Lemma stretch_vertical_rows imOut imIn filterp scale filterscale support d :
  stretch_vertical imOut imIn filterp scale filterscale support d =
  rows_loop (type imIn) (bands imIn) (xsize imOut) (ysize imOut)
    (fun yy xx =>
       accumulate (fun y ch => image_get (image imIn) y (xx * 4 + ch))
         (compute_coefficients filterp scale filterscale support
            (ysize imIn) yy))
    d.
Proof. reflexivity. Qed.

Lemma stretch_horizontal_rows imOut imIn filterp scale filterscale support
    kmax d :
  stretch_horizontal imOut imIn filterp scale filterscale support kmax d =
  rows_loop (type imIn) (bands imIn) (xsize imOut) (ysize imOut)
    (fun yy xx =>
       accumulate_column (fun x ch => image_get (image imIn) yy (x * 4 + ch))
         (coefficient_tables filterp scale filterscale support (xsize imIn)
            kmax (xsize imOut))
         kmax xx)
    d.
Proof. reflexivity. Qed.

(** Either the call returns something else than [imOut] and has stored
    nothing, or it returns [imOut] after the loops over the rows. *)
Lemma ImagingStretch_final imOut imIn filter_id :
  let o := ImagingStretch malloc (Some imOut) (Some imIn) filter_id in
  (ret o <> ReturnImOut /\ final o = initial imOut) \/
  (ret o = ReturnImOut /\
   exists g, final o =
             rows_loop (type imIn) (bands imIn) (xsize imOut) (ysize imOut)
               g (initial imOut)).
Proof.
  unfold ImagingStretch, initial.
  destruct (negb (String.eqb (mode imIn) (mode imOut)));
    [left; split; [discriminate|reflexivity]|].
  destruct (select_filter filter_id) as [filterp|];
    [|left; split; [discriminate|reflexivity]].
  destruct (ysize imIn =? ysize imOut).
  - cbv zeta.
    destruct (xsize imIn =? xsize imOut).
    + repeat (match goal with
              | |- context [negb (malloc ?n ?z)] => destruct (malloc n z)
              end; cbn [negb];
              [|left; split; [discriminate|reflexivity]]).
      right. split; [reflexivity|]. eexists. apply stretch_vertical_rows.
    + repeat (match goal with
              | |- context [negb (malloc ?n ?z)] => destruct (malloc n z)
              end; cbn [negb];
              [|left; split; [discriminate|reflexivity]]).
      right. split; [reflexivity|]. eexists. apply stretch_horizontal_rows.
  - destruct (xsize imIn =? xsize imOut);
      [|left; split; [discriminate|reflexivity]].
    cbv zeta.
    repeat (match goal with
            | |- context [negb (malloc ?n ?z)] => destruct (malloc n z)
            end; cbn [negb];
            [|left; split; [discriminate|reflexivity]]).
    right. split; [reflexivity|]. eexists. apply stretch_vertical_rows.
Qed.

(** A call that returns [imOut] has run the loops over the rows with the
    accumulators of the selected kernel. *)
Lemma ImagingStretch_loops imOut imIn filter_id :
  let o := ImagingStretch malloc (Some imOut) (Some imIn) filter_id in
  ret o = ReturnImOut ->
  exists filterp,
    select_filter filter_id = Some filterp /\
    final o =
    rows_loop (type imIn) (bands imIn) (xsize imOut) (ysize imOut)
      (accumulators imOut imIn filterp) (initial imOut).
Proof.
  unfold ImagingStretch, initial, accumulators.
  destruct (negb (String.eqb (mode imIn) (mode imOut))); [discriminate|].
  destruct (select_filter filter_id) as [filterp|]; [|discriminate].
  intros Hret. exists filterp. split; [reflexivity|]. revert Hret.
  destruct (Z.eqb_spec (ysize imIn) (ysize imOut)) as [Ey|Ey].
  - cbv zeta.
    destruct (Z.eqb_spec (xsize imIn) (xsize imOut)) as [Ex|Ex];
      repeat (match goal with
              | |- context [negb (malloc ?n ?z)] => destruct (malloc n z)
              end; cbn [negb ret]; [|discriminate]);
      intros _; reflexivity.
  - destruct (Z.eqb_spec (xsize imIn) (xsize imOut)) as [Ex|Ex];
      [|discriminate].
    cbv zeta.
    repeat (match goal with
            | |- context [negb (malloc ?n ?z)] => destruct (malloc n z)
            end; cbn [negb ret]; [|discriminate]).
    intros _. reflexivity.
Qed.

Lemma ImagingStretch_extends imOut imIn filter_id :
  extends (footprint (xsize imOut) (ysize imOut)) (initial imOut)
    (final (ImagingStretch malloc (Some imOut) (Some imIn) filter_id)).
Proof.
  destruct (ImagingStretch_final imOut imIn filter_id)
    as [[_ ->]|[_ [g ->]]].
  - apply extends_refl.
  - apply rows_loop_extends.
Qed.

Lemma ImagingStretch_valid imOut imIn filter_id :
  valid_request malloc imOut imIn filter_id ->
  ret (ImagingStretch malloc (Some imOut) (Some imIn) filter_id) = ReturnImOut.
Proof.
  intros (Hmode & Hfilter & Hsize & Hmalloc).
  unfold ImagingStretch.
  rewrite Hmode, String.eqb_refl. cbn [negb].
  destruct (select_filter filter_id) as [filterp|]; [|congruence].
  destruct (Z.eqb_spec (ysize imIn) (ysize imOut)).
  - cbv zeta. rewrite !Hmalloc. cbn [negb].
    now destruct (xsize imIn =? xsize imOut).
  - destruct (Z.eqb_spec (xsize imIn) (xsize imOut)).
    + cbv zeta. rewrite !Hmalloc. reflexivity.
    + destruct Hsize; contradiction.
Qed.

End Footprint.

(* ------------------------------------------------------------------ *)
(** * The value of every destination byte *)

Lemma length_image_set img y i v :
  length (image_set img y i v) = length img.
Proof.
  unfold image_set. destruct ((y <? 0) || (i <? 0)); [reflexivity|].
  apply length_list_set.
Qed.

Lemma row_length_image_set img y i v y' :
  length (nth y' (image_set img y i v) []) = length (nth y' img []).
Proof.
  unfold image_set. destruct ((y <? 0) || (i <? 0)); [reflexivity|].
  destruct (Nat.eq_dec (Z.to_nat y) y') as [<-|Hne].
  - destruct (Nat.lt_ge_cases (Z.to_nat y) (length img)) as [Hlt|Hge].
    + rewrite nth_list_set_eq by assumption. apply length_list_set.
    + now rewrite list_set_out_of_range.
  - now rewrite nth_list_set_neq.
Qed.

Lemma rows_fit_store img W H y i v :
  rows_fit img W H -> rows_fit (image_set img y i v) W H.
Proof.
  intros [H1 H2]. split.
  - now rewrite length_image_set.
  - intros y' Hy'. rewrite row_length_image_set. now apply H2.
Qed.

Lemma image_get_store_fit img W H y xx ch v :
  rows_fit img W H -> 0 <= y < H -> 0 <= xx < W -> 0 <= ch < 4 ->
  image_get (image_set img y (xx * 4 + ch) v) y (xx * 4 + ch) = v.
Proof.
  intros [H1 H2] Hy Hx Hch. specialize (H2 y Hy).
  apply image_get_set_same; lia.
Qed.

(** One destination pixel: its three bytes hold the clipped accumulators,
    every other byte is as before. *)
Lemma store_pixel_bytes W H yy xx ss d :
  rows_fit (pixels d) W H -> 0 <= yy < H -> 0 <= xx < W ->
  let d' := store_pixel yy xx ss d in
  rows_fit (pixels d') W H /\
  (forall ch, 0 <= ch < 3 ->
     image_get (pixels d') yy (xx * 4 + ch) = clip8 (chan ch ss)) /\
  (forall y i, (y <> yy \/ i < xx * 4 \/ xx * 4 + 3 <= i) ->
     image_get (pixels d') y i = image_get (pixels d) y i).
Proof.
  intros Hfit Hy Hx. destruct ss as [[ss0 ss1] ss2].
  unfold store_pixel, store. cbn [pixels].
  set (p0 := image_set (pixels d) yy (xx * 4 + 0) (clip8 ss0)).
  set (p1 := image_set p0 yy (xx * 4 + 1) (clip8 ss1)).
  assert (F0 : rows_fit p0 W H) by now apply rows_fit_store.
  assert (F1 : rows_fit p1 W H) by now apply rows_fit_store.
  split; [now apply rows_fit_store|]. split.
  - intros ch Hch. unfold chan.
    assert (C : ch = 0 \/ ch = 1 \/ ch = 2) by lia.
    destruct C as [->|[->| ->]]; cbn [Z.eqb fst snd].
    + rewrite image_get_set_other by (intros E; inversion E; lia).
      unfold p1. rewrite image_get_set_other by (intros E; inversion E; lia).
      unfold p0. now apply (image_get_store_fit _ W H); try lia.
    + rewrite image_get_set_other by (intros E; inversion E; lia).
      unfold p1. now apply (image_get_store_fit _ W H); try lia.
    + now apply (image_get_store_fit _ W H); try lia.
  - intros y i Hother.
    rewrite image_get_set_other by (intros E; inversion E; lia).
    unfold p1. rewrite image_get_set_other by (intros E; inversion E; lia).
    unfold p0. rewrite image_get_set_other by (intros E; inversion E; lia).
    reflexivity.
Qed.

(** One destination row. *)
Lemma columns_loop_bytes W H yy (g : Z -> Z * Z * Z) d :
  rows_fit (pixels d) W H -> 0 <= yy < H ->
  let d' := for_loop 0 W (fun xx d => store_pixel yy xx (g xx) d) d in
  rows_fit (pixels d') W H /\
  (forall xx ch, 0 <= xx < W -> 0 <= ch < 3 ->
     image_get (pixels d') yy (xx * 4 + ch) = clip8 (chan ch (g xx))) /\
  (forall y i, y <> yy ->
     image_get (pixels d') y i = image_get (pixels d) y i).
Proof.
  intros Hfit Hy d'. subst d'.
  destruct (Z_le_gt_dec 0 W) as [HW|HW].
  2:{ rewrite for_loop_empty by lia. repeat split; auto; try apply Hfit.
      intros; lia. }
  apply (for_loop_invariant
           (fun n st =>
              rows_fit (pixels st) W H /\
              (forall xx ch, 0 <= xx < n -> 0 <= ch < 3 ->
                 image_get (pixels st) yy (xx * 4 + ch) = clip8 (chan ch (g xx))) /\
              (forall y i, y <> yy ->
                 image_get (pixels st) y i = image_get (pixels d) y i)));
    [assumption| |].
  - repeat split; auto; try apply Hfit. intros; lia.
  - intros xx st Hxx (Hf & Hdone & Hrest).
    destruct (store_pixel_bytes W H yy xx (g xx) st Hf Hy Hxx)
      as (Hf' & Hnew & Hold).
    split; [exact Hf'|]. split.
    + intros x ch Hx Hch.
      destruct (Z.eq_dec x xx) as [->|Hne].
      * now apply Hnew.
      * rewrite Hold by lia. apply Hdone; lia.
    + intros y i Hne. rewrite Hold by (left; exact Hne). now apply Hrest.
Qed.

(** The whole destination, for 8-bit samples in 3 bands: when the loops
    end, byte [ch] of pixel [xx] of row [yy] holds accumulator [ch] of
    that pixel, clipped. *)
Lemma rows_loop_bytes W H g d :
  rows_fit (pixels d) W H ->
  let d' := rows_loop IMAGING_TYPE_UINT8 3 W H g d in
  forall yy xx ch, 0 <= yy < H -> 0 <= xx < W -> 0 <= ch < 3 ->
    image_get (pixels d') yy (xx * 4 + ch) = clip8 (chan ch (g yy xx)).
Proof.
  intros Hfit d'. subst d'. unfold rows_loop.
  destruct (Z_le_gt_dec 0 H) as [HH|HH].
  2:{ intros; lia. }
  apply (for_loop_invariant
           (fun n st =>
              rows_fit (pixels st) W H /\
              forall yy xx ch, 0 <= yy < n -> 0 <= xx < W -> 0 <= ch < 3 ->
                image_get (pixels st) yy (xx * 4 + ch)
                = clip8 (chan ch (g yy xx)))); [assumption| |].
  - split; [exact Hfit|]. intros; lia.
  - intros y st Hy [Hf Hdone]. cbn [Z.eqb Pos.eqb].
    destruct (columns_loop_bytes W H y (g y) st Hf Hy) as (Hf' & Hnew & Hold).
    split; [exact Hf'|].
    intros yy xx ch Hyy Hxx Hch.
    destruct (Z.eq_dec yy y) as [->|Hne].
    + now apply Hnew.
    + rewrite Hold by exact Hne. apply Hdone; lia.
Qed.


(* ------------------------------------------------------------------ *)
(** * Accumulating a window with all the weight on one tap *)

Ltac pow2 :=
  change (2^21) with 2097152 in *;
  change (2^22) with 4194304 in *;
  change (2^30) with 1073741824 in *;
  change (2^31) with 2147483648 in *;
  change (2^32) with 4294967296 in *.

Lemma wrap_int_small z : - 2^31 <= z < 2^31 -> wrap_int z = z.
Proof.
  intros H. unfold wrap_int. pow2. rewrite Z.mod_small by lia. lia.
Qed.

Lemma UINT8_range c : 0 <= UINT8 c <= 255.
Proof. unfold UINT8. pose proof (Z.mod_pos_bound c 256). lia. Qed.

Lemma clip8_one_hot b :
  0 <= b <= 255 -> clip8 (2^21 + b * 2^22) = b.
Proof.
  intros Hb. rewrite clip8_shift by (pow2; lia). pow2.
  replace (2097152 + b * 4194304) with (b * 4194304 + 2097152) by lia.
  rewrite Z.div_add_l by lia. rewrite Z.div_small by lia. lia.
Qed.

Lemma nth_one_hot i lo hi x :
  lo <= x < hi ->
  nth (Z.to_nat (x - lo)) (one_hot i lo hi) 0 = if x =? i then 2^22 else 0.
Proof.
  intros Hx. unfold one_hot.
  rewrite nth_indep with (d' := (fun j => if j =? i then 2^22 else 0) 0)
    by (rewrite length_map, Zrange_length; lia).
  rewrite (map_nth (fun j => if j =? i then 2^22 else 0)).
  rewrite nth_Zrange by lia.
  replace (lo + Z.of_nat (Z.to_nat (x - lo))) with x by lia. reflexivity.
Qed.

Lemma accumulate_one_hot {A : Arith} (sample : Z -> Z -> Z)
    (c : coefficients) i :
  xmin c <= i < xmax c ->
  intk c = one_hot i (xmin c) (xmax c) ->
  accumulate sample c =
  (2^21 + UINT8 (sample i 0) * 2^22,
   2^21 + UINT8 (sample i 1) * 2^22,
   2^21 + UINT8 (sample i 2) * 2^22).
Proof.
  intros Hi Hintk. unfold accumulate. rewrite Hintk.
  change (Z.shiftl 1 (PRECISION_BITS - 1)) with (2^21). cbv zeta.
  pose (v := fun n ch => if i <? n then 2^21 + UINT8 (sample i ch) * 2^22
                         else 2^21).
  match goal with
  | |- ?lhs = _ =>
    assert (G : lhs = (v (xmax c) 0, v (xmax c) 1, v (xmax c) 2))
  end.
  { apply (for_loop_invariant (fun n st => st = (v n 0, v n 1, v n 2)));
      [lia| |].
    - unfold v. destruct (Z.ltb_spec i (xmin c)); [lia|reflexivity].
    - intros x st Hx ->. rewrite nth_one_hot by lia.
      assert (S : forall ch,
                int_add (v x ch)
                  (int_mul (UINT8 (sample x ch)) (if x =? i then 2^22 else 0))
                = v (x + 1) ch).
      { intros ch. unfold v, int_add, int_mul.
        pose proof (UINT8_range (sample x ch)) as Hb.
        pose proof (UINT8_range (sample i ch)) as Hb'.
        pose proof wrap_int_small as Hw. pow2.
        destruct (Z.eqb_spec x i) as [->|Hne].
        - destruct (Z.ltb_spec i i); [lia|].
          destruct (Z.ltb_spec i (i + 1)); [|lia].
          rewrite (Hw (UINT8 (sample i ch) * 4194304)) by lia.
          apply Hw. lia.
        - rewrite Z.mul_0_r, (Hw 0), Z.add_0_r by lia.
          destruct (Z.ltb_spec i x); destruct (Z.ltb_spec i (x + 1));
            try lia; apply Hw; lia. }
      now rewrite !S. }
  rewrite G. unfold v. destruct (Z.ltb_spec i (xmax c)); [reflexivity|lia].
Qed.

(* ------------------------------------------------------------------ *)
(** * The coefficient loops in any arithmetic *)

Section Coefficients.
Context {A : Arith}.

Lemma raw_weights_fold filterp center ss lo hi :
  raw_weights filterp center ss lo hi =
  (map (weight filterp center ss) (Zrange lo hi),
   fold_left fadd (map (weight filterp center ss) (Zrange lo hi))
     (d2f (d_of_int 0))).
Proof.
  unfold raw_weights, for_loop.
  assert (G : forall l acc w0,
            fold_left (fun st x =>
                         (fst st ++ [weight filterp center ss x],
                          fadd (snd st) (weight filterp center ss x)))
              l (acc, w0) =
            (acc ++ map (weight filterp center ss) l,
             fold_left fadd (map (weight filterp center ss) l) w0)).
  { induction l as [|x l IH]; intros acc w0; simpl.
    - now rewrite app_nil_r.
    - rewrite IH, <- app_assoc. reflexivity. }
  apply (G _ [] _).
Qed.

Lemma k_raw_length filterp scale filterscale support insize xx :
  let c := compute_coefficients filterp scale filterscale support insize xx in
  length (k_raw c) = Z.to_nat (xmax c - xmin c).
Proof.
  unfold compute_coefficients. cbn [k_raw xmax xmin].
  rewrite raw_weights_fold. cbn [fst].
  now rewrite length_map, Zrange_length.
Qed.

Lemma k_raw_nth filterp scale filterscale support insize xx j d :
  let c := compute_coefficients filterp scale filterscale support insize xx in
  xmin c <= j < xmax c ->
  nth (Z.to_nat (j - xmin c)) (k_raw c) d =
  weight filterp (center_of scale xx)
    (d2f (ddiv (d_of_int 1) (f2d filterscale))) j.
Proof.
  unfold compute_coefficients. cbn [k_raw xmax xmin]. intros Hj.
  rewrite raw_weights_fold. cbn [fst].
  rewrite nth_indep with (d' := weight filterp (center_of scale xx)
                                  (d2f (ddiv (d_of_int 1) (f2d filterscale))) 0)
    by (rewrite length_map, Zrange_length; lia).
  rewrite map_nth, nth_Zrange by lia.
  f_equal. lia.
Qed.

End Coefficients.

(* ------------------------------------------------------------------ *)
(** * The coefficient buffers of the horizontal path *)

Lemma buffer_set_same {T : Type} (b : buffer T) i v :
  buffer_set b i v i = v.
Proof. unfold buffer_set. now rewrite Z.eqb_refl. Qed.

Lemma buffer_set_other {T : Type} (b : buffer T) i j v :
  j <> i -> buffer_set b i v j = b j.
Proof. unfold buffer_set. intros H. now destruct (Z.eqb_spec j i). Qed.

Lemma nth_map_in {X Y : Type} (f : X -> Y) l n dx dy :
  (n < length l)%nat -> nth n (map f l) dy = f (nth n l dx).
Proof.
  intros H. rewrite nth_indep with (d' := f dx) by (now rewrite length_map).
  apply map_nth.
Qed.

Section Tables.
Context {A : Arith}.
Variables (filterp : struct_filter) (scale filterscale support : float).
Variables (insize kmax : Z).

(** The first loop of [table_row] leaves the raw weights of the window
    in the slots from [base] on, and adds them up as [raw_weights] does. *)
Lemma first_loop_slots center ss base lo hi (b : buffer float) :
  let st :=
    for_loop lo hi
      (fun x st =>
         let w := weight filterp center ss x in
         (buffer_set (fst st) (base + (x - lo)) w, fadd (snd st) w))
      (b, d2f (d_of_int 0)) in
  snd st = snd (raw_weights filterp center ss lo hi) /\
  (forall j, 0 <= j < hi - lo ->
             fst st (base + j) = weight filterp center ss (lo + j)) /\
  (forall p, ~ base <= p < base + (hi - lo) -> fst st p = b p).
Proof.
  cbv zeta. rewrite raw_weights_fold. cbn [snd].
  destruct (Z_le_gt_dec lo hi) as [Hle|Hgt].
  - apply (for_loop_invariant
             (fun i st =>
                snd st = fold_left fadd
                           (map (weight filterp center ss) (Zrange lo i))
                           (d2f (d_of_int 0)) /\
                (forall j, 0 <= j < i - lo ->
                           fst st (base + j) =
                           weight filterp center ss (lo + j)) /\
                (forall p, ~ base <= p < base + (i - lo) -> fst st p = b p)));
      [assumption| |].
    + rewrite Zrange_empty by lia. cbn [map fold_left fst snd].
      split; [reflexivity|]. split; [intros; lia|reflexivity].
    + intros i st Hi (Hsum & Hin & Hout). cbn [fst snd].
      rewrite Zrange_snoc, map_app, fold_left_app by lia. cbn [map fold_left].
      split; [f_equal; exact Hsum|]. split.
      * intros j Hj. destruct (Z.eq_dec j (i - lo)) as [->|Hne].
        -- rewrite buffer_set_same. f_equal. lia.
        -- rewrite buffer_set_other by lia. apply Hin. lia.
      * intros p Hp. rewrite buffer_set_other by lia. apply Hout. lia.
  - rewrite for_loop_empty, Zrange_empty by lia. cbn [map fold_left fst snd].
    split; [reflexivity|]. split; [intros; lia|reflexivity].
Qed.

(** The second loop of [table_row] turns the [n] slots from [base] on
    into fixed-point weights. *)
Lemma second_loop_slots base n total (b : buffer float) (ib : buffer Z) :
  let st :=
    for_loop 0 n
      (fun x st =>
         let kx := fdiv (fst st (base + x)) total in
         (buffer_set (fst st) (base + x) kx,
          buffer_set (snd st) (base + x)
            (f_to_int (fmul kx (f_of_int (Z.shiftl 1 PRECISION_BITS))))))
      (b, ib) in
  (forall j, 0 <= j < n ->
             snd st (base + j) = fixed_weight total (b (base + j))) /\
  (forall p, ~ base <= p < base + n -> snd st p = ib p).
Proof.
  cbv zeta.
  destruct (Z_le_gt_dec 0 n) as [Hle|Hgt].
  - assert (G :
      (fun i st =>
         (forall j, 0 <= j < i ->
                    snd st (base + j) = fixed_weight total (b (base + j))) /\
         (forall p, ~ base <= p < base + i ->
                    snd st p = ib p /\ fst st p = b p))
        n
        (for_loop 0 n
           (fun x st =>
              let kx := fdiv (fst st (base + x)) total in
              (buffer_set (fst st) (base + x) kx,
               buffer_set (snd st) (base + x)
                 (f_to_int (fmul kx (f_of_int (Z.shiftl 1 PRECISION_BITS))))))
           (b, ib))).
    { apply for_loop_invariant; [assumption| |].
      - cbn [fst snd]. split; [intros; lia|]. intros; split; reflexivity.
      - intros i st Hi (Hin & Hout). cbn [fst snd]. split.
        + intros j Hj. destruct (Z.eq_dec j i) as [->|Hne].
          * rewrite buffer_set_same.
            destruct (Hout (base + i)) as [_ E]; [lia|].
            unfold fixed_weight. do 3 f_equal. exact E.
          * rewrite buffer_set_other by lia. apply Hin. lia.
        + intros p Hp. rewrite !buffer_set_other by lia. apply Hout. lia. }
    destruct G as [Hin Hout]. split; [exact Hin|].
    intros p Hp. now apply Hout.
  - rewrite for_loop_empty by lia. cbn [fst snd].
    split; [intros; lia|reflexivity].
Qed.

(** One turn of the loop over the columns: the fixed-point weights of
    column [xx] land in the slots from [xx * kmax] on, one per tap. *)
Lemma table_row_intkk xx t p :
  intkk (table_row filterp scale filterscale support insize kmax xx t) p =
  if (xx * kmax <=? p) &&
     (p <? xx * kmax
           + (xmax (compute_coefficients filterp scale filterscale support
                      insize xx)
              - xmin (compute_coefficients filterp scale filterscale support
                        insize xx)))
  then nth (Z.to_nat (p - xx * kmax))
         (intk (compute_coefficients filterp scale filterscale support
                  insize xx)) 0
  else intkk t p.
Proof.
  unfold table_row, compute_coefficients. cbn [intkk xmax xmin intk].
  set (center := center_of scale xx).
  set (ss := d2f (ddiv (d_of_int 1) (f2d filterscale))).
  set (lo := xmin_of center support).
  set (hi := xmax_of center support insize).
  destruct (first_loop_slots center ss (xx * kmax) lo hi (kk t))
    as (Hsum & Hraw & _).
  cbv zeta in Hsum, Hraw.
  set (first := for_loop lo hi _ _) in *.
  destruct (second_loop_slots (xx * kmax) (hi - lo) (snd first) (fst first)
              (intkk t)) as (Hin & Hout).
  cbv zeta in Hin, Hout.
  destruct (xx * kmax <=? p) eqn:E1; cbn [andb].
  - destruct (p <? xx * kmax + (hi - lo)) eqn:E2.
    + apply Z.leb_le in E1. apply Z.ltb_lt in E2.
      replace p with (xx * kmax + (p - xx * kmax)) at 1 by lia.
      rewrite Hin by lia. rewrite Hraw by lia.
      replace (snd first) with (snd (raw_weights filterp center ss lo hi))
        by (symmetry; exact Hsum).
      rewrite raw_weights_fold. cbn [fst snd].
      rewrite (nth_map_in _ _ _ (weight filterp center ss 0))
        by (rewrite length_map, Zrange_length; lia).
      rewrite (nth_map_in _ _ _ 0)
        by (rewrite Zrange_length; lia).
      rewrite nth_Zrange by lia.
      do 2 f_equal. lia.
    + apply Z.leb_le in E1. apply Z.ltb_ge in E2. apply Hout. lia.
  - apply Z.leb_gt in E1. apply Hout. lia.
Qed.

Lemma table_row_xbounds xx t p :
  xbounds (table_row filterp scale filterscale support insize kmax xx t) p =
  if p =? xx * 2 + 1
  then xmax (compute_coefficients filterp scale filterscale support insize xx)
  else if p =? xx * 2 + 0
  then xmin (compute_coefficients filterp scale filterscale support insize xx)
  else xbounds t p.
Proof. reflexivity. Qed.

(** After the loop over the columns, the bounds of every column are its
    own. *)
Lemma coefficient_tables_xbounds outsize xx :
  0 <= xx < outsize ->
  xbounds (coefficient_tables filterp scale filterscale support insize
             kmax outsize) (xx * 2 + 0) =
  xmin (compute_coefficients filterp scale filterscale support insize xx) /\
  xbounds (coefficient_tables filterp scale filterscale support insize
             kmax outsize) (xx * 2 + 1) =
  xmax (compute_coefficients filterp scale filterscale support insize xx).
Proof.
  intros Hxx. unfold coefficient_tables.
  pose proof (for_loop_invariant
           (fun n t => forall r, 0 <= r < n ->
                         xbounds t (r * 2 + 0) =
                         xmin (compute_coefficients filterp scale filterscale
                                 support insize r) /\
                         xbounds t (r * 2 + 1) =
                         xmax (compute_coefficients filterp scale filterscale
                                 support insize r))
           0 outsize
           (table_row filterp scale filterscale support insize kmax)
           fresh_tables) as G.
  cbv beta in G. apply G; [lia| | |assumption]; clear G.
  - intros; lia.
  - intros n t Hn IH r Hr. rewrite !table_row_xbounds.
    destruct (Z.eq_dec r n) as [->|Hne].
    + rewrite Z.eqb_refl.
      destruct (Z.eqb_spec (n * 2 + 0) (n * 2 + 1)); [lia|].
      now rewrite Z.eqb_refl.
    + destruct (Z.eqb_spec (r * 2 + 0) (n * 2 + 1)); [lia|].
      destruct (Z.eqb_spec (r * 2 + 0) (n * 2 + 0)); [lia|].
      destruct (Z.eqb_spec (r * 2 + 1) (n * 2 + 1)); [lia|].
      destruct (Z.eqb_spec (r * 2 + 1) (n * 2 + 0)); [lia|].
      apply IH. lia.
Qed.

(** After the loop over the columns, slot [j] of column [xx], for [j]
    below [kmax], holds weight [j] of that column when its window has
    more than [j] taps: no later column stores there. *)
Lemma coefficient_tables_intkk outsize xx j :
  0 <= xx < outsize ->
  0 <= j < xmax (compute_coefficients filterp scale filterscale support
                   insize xx)
           - xmin (compute_coefficients filterp scale filterscale support
                     insize xx) ->
  j < kmax ->
  intkk (coefficient_tables filterp scale filterscale support insize
           kmax outsize) (xx * kmax + j) =
  nth (Z.to_nat j)
    (intk (compute_coefficients filterp scale filterscale support insize xx))
    0.
Proof.
  intros Hxx Hj Hk. unfold coefficient_tables.
  pose proof (for_loop_invariant
           (fun n t => forall r i, 0 <= r < n ->
                         0 <= i < xmax (compute_coefficients filterp scale
                                          filterscale support insize r)
                                  - xmin (compute_coefficients filterp scale
                                            filterscale support insize r) ->
                         i < kmax ->
                         intkk t (r * kmax + i) =
                         nth (Z.to_nat i)
                           (intk (compute_coefficients filterp scale
                                    filterscale support insize r)) 0)
           0 outsize
           (table_row filterp scale filterscale support insize kmax)
           fresh_tables) as G.
  cbv beta in G. apply G; [lia| | |assumption|assumption|assumption]; clear G.
  - intros; lia.
  - intros n t Hn IH r i Hr Hi Hik. rewrite table_row_intkk.
    destruct (Z.eq_dec r n) as [->|Hne].
    + replace (n * kmax <=? n * kmax + i) with true
        by (symmetry; apply Z.leb_le; lia).
      match goal with
      | |- context [n * kmax + i <? ?hi] =>
        replace (n * kmax + i <? hi) with true
          by (symmetry; apply Z.ltb_lt; lia)
      end.
      cbn [andb]. do 2 f_equal. lia.
    + replace (n * kmax <=? r * kmax + i) with false; [apply IH; lia|].
      symmetry. apply Z.leb_gt. nia.
Qed.

(** The accumulators of a column whose window has at most [kmax] taps
    are those of its own coefficients. *)
Lemma accumulate_column_fits sample outsize xx :
  0 <= xx < outsize ->
  xmax (compute_coefficients filterp scale filterscale support insize xx)
  - xmin (compute_coefficients filterp scale filterscale support insize xx)
  <= Z.max 0 kmax ->
  accumulate_column sample
    (coefficient_tables filterp scale filterscale support insize kmax outsize)
    kmax xx =
  accumulate sample
    (compute_coefficients filterp scale filterscale support insize xx).
Proof.
  intros Hxx Hfit. unfold accumulate_column, accumulate.
  destruct (coefficient_tables_xbounds outsize xx Hxx) as [-> ->].
  apply for_loop_ext. intros x [[ss0 ss1] ss2] Hx.
  rewrite coefficient_tables_intkk by lia. reflexivity.
Qed.

(** What [malloc] left in the buffers does not matter: started from any
    content, the loop over the columns leaves the same bounds and the
    same weights in the slots the loop over the pixels reads. *)
Lemma accumulate_column_any_content sample (t0 : tables) outsize xx :
  0 <= xx < outsize ->
  accumulate_column sample
    (for_loop 0 outsize
       (table_row filterp scale filterscale support insize kmax) t0)
    kmax xx =
  accumulate_column sample
    (coefficient_tables filterp scale filterscale support insize kmax outsize)
    kmax xx.
Proof.
  intros Hxx. unfold coefficient_tables.
  set (body := table_row filterp scale filterscale support insize kmax).
  set (taps := fun r =>
         xmax (compute_coefficients filterp scale filterscale support
                 insize r)
         - xmin (compute_coefficients filterp scale filterscale support
                   insize r)).
  assert (G : forall n, 0 <= n ->
            let a := for_loop 0 n body t0 in
            let b := for_loop 0 n body fresh_tables in
            (forall r, 0 <= r < n ->
               xbounds a (r * 2 + 0) = xbounds b (r * 2 + 0) /\
               xbounds a (r * 2 + 1) = xbounds b (r * 2 + 1)) /\
            (forall r p, 0 <= r < n -> r * kmax <= p < r * kmax + taps r ->
               intkk a p = intkk b p)).
  { intros n Hn.
    apply (for_loop_invariant
             (fun n (ab : tables * tables) =>
                (forall r, 0 <= r < n ->
                   xbounds (fst ab) (r * 2 + 0) = xbounds (snd ab) (r * 2 + 0)
                   /\ xbounds (fst ab) (r * 2 + 1) =
                      xbounds (snd ab) (r * 2 + 1)) /\
                (forall r p, 0 <= r < n ->
                   r * kmax <= p < r * kmax + taps r ->
                   intkk (fst ab) p = intkk (snd ab) p))
             0 n (fun i ab => (body i (fst ab), body i (snd ab)))
             (t0, fresh_tables)) in Hn.
    - assert (E : for_loop 0 n (fun i ab => (body i (fst ab), body i (snd ab)))
                    (t0, fresh_tables) =
                  (for_loop 0 n body t0, for_loop 0 n body fresh_tables)).
      { unfold for_loop. generalize (Zrange 0 n) t0 fresh_tables.
        induction l as [|i l IH]; intros u v; simpl; [reflexivity|].
        apply IH. }
      rewrite E in Hn. exact Hn.
    - split; intros; lia.
    - intros i [u v] Hi [B W]. cbn [fst snd] in *. split.
      + intros r Hr. unfold body. rewrite !table_row_xbounds.
        destruct (Z.eq_dec r i) as [->|Hne].
        * rewrite Z.eqb_refl.
          destruct (Z.eqb_spec (i * 2 + 0) (i * 2 + 1)); [lia|].
          now rewrite Z.eqb_refl.
        * destruct (Z.eqb_spec (r * 2 + 0) (i * 2 + 1)); [lia|].
          destruct (Z.eqb_spec (r * 2 + 0) (i * 2 + 0)); [lia|].
          destruct (Z.eqb_spec (r * 2 + 1) (i * 2 + 1)); [lia|].
          destruct (Z.eqb_spec (r * 2 + 1) (i * 2 + 0)); [lia|].
          apply B. lia.
      + intros r p Hr Hp. unfold body. rewrite !table_row_intkk.
        match goal with
        | |- (if ?c then _ else _) = _ => destruct c eqn:E
        end; [reflexivity|].
        destruct (Z.eq_dec r i) as [->|Hne].
        * apply andb_false_iff in E. unfold taps in Hp.
          destruct E as [E|E];
            [apply Z.leb_gt in E|apply Z.ltb_ge in E]; lia.
        * apply (W r); [lia|exact Hp]. }
  destruct (G outsize ltac:(lia)) as [B W]. cbv zeta in B, W.
  unfold accumulate_column.
  destruct (B xx Hxx) as [-> ->].
  apply for_loop_ext. intros x [[a0 a1] a2] Hx.
  rewrite (W xx); [reflexivity|exact Hxx|].
  destruct (coefficient_tables_xbounds outsize xx Hxx) as [E0 E1].
  unfold coefficient_tables in E0, E1. fold body in E0, E1.
  rewrite E0, E1 in Hx. unfold taps. lia.
Qed.

End Tables.

Lemma accumulate_column_ext {A : Arith} (s1 s2 : Z -> Z -> Z) (t : tables)
    kmax xx :
  (forall x ch, xbounds t (xx * 2 + 0) <= x < xbounds t (xx * 2 + 1) ->
                0 <= ch < 3 -> UINT8 (s1 x ch) = UINT8 (s2 x ch)) ->
  accumulate_column s1 t kmax xx = accumulate_column s2 t kmax xx.
Proof.
  intros H. unfold accumulate_column. apply for_loop_ext.
  intros x [[a0 a1] a2] Hx.
  now rewrite !H by lia.
Qed.

(* ------------------------------------------------------------------ *)
(** * The value of a destination byte *)

Section Bytes.
Context {A : Arith}.
Variable malloc : nat -> Z -> bool.

(** The postcondition of a successful call on 8-bit samples in 3 bands:
    every byte of the three channels of every destination pixel is the
    clipped accumulator of the window of its row (vertical path) or of
    the slots of its column (horizontal path). *)
Lemma ImagingStretch_slots imOut imIn filter_id filterp :
  valid_request malloc imOut imIn filter_id ->
  select_filter filter_id = Some filterp ->
  type imIn = IMAGING_TYPE_UINT8 -> bands imIn = 3 ->
  rows_fit (image imOut) (xsize imOut) (ysize imOut) ->
  let scale :=
    if ysize imIn =? ysize imOut
    then fdiv (f_of_int (xsize imIn)) (f_of_int (xsize imOut))
    else fdiv (f_of_int (ysize imIn)) (f_of_int (ysize imOut)) in
  let filterscale := filterscale_of scale in
  let support := fmul (support filterp) filterscale in
  let o := ImagingStretch malloc (Some imOut) (Some imIn) filter_id in
  forall yy xx ch,
    0 <= yy < ysize imOut -> 0 <= xx < xsize imOut -> 0 <= ch < 3 ->
    image_get (pixels (final o)) yy (xx * 4 + ch) =
    clip8 (chan ch
      (if xsize imIn =? xsize imOut then
         accumulate (fun y c => image_get (image imIn) y (xx * 4 + c))
           (compute_coefficients filterp scale filterscale support
              (ysize imIn) yy)
       else
         accumulate_column (fun x c => image_get (image imIn) yy (x * 4 + c))
           (coefficient_tables filterp scale filterscale support
              (xsize imIn) (kmax_of support) (xsize imOut))
           (kmax_of support) xx)).
Proof.
  intros (Hmode & _ & Hsize & Hmalloc) Hfilter Ht Hb Hfit
         scale filterscale support o yy xx ch Hyy Hxx Hch.
  assert (R : forall g,
            image_get
              (pixels (rows_loop IMAGING_TYPE_UINT8 3 (xsize imOut)
                         (ysize imOut) g (initial imOut)))
              yy (xx * 4 + ch) = clip8 (chan ch (g yy xx))).
  { intros g. now apply (rows_loop_bytes _ _ g (initial imOut)). }
  subst o. unfold ImagingStretch.
  rewrite Hmode, String.eqb_refl, Hfilter. cbn [negb].
  change {| pixels := image imOut; stores := [] |} with (initial imOut).
  destruct (Z.eqb_spec (ysize imIn) (ysize imOut)) as [Ey|Ey].
  - cbv zeta. rewrite !Hmalloc. cbn [negb].
    fold scale. fold filterscale. fold support.
    destruct (Z.eqb_spec (xsize imIn) (xsize imOut)) as [Ex|Ex]; cbn [final].
    + rewrite stretch_vertical_rows, Ht, Hb. now rewrite R.
    + rewrite stretch_horizontal_rows, Ht, Hb. now rewrite R.
  - destruct (Z.eqb_spec (xsize imIn) (xsize imOut)) as [Ex|Ex].
    + cbv zeta. rewrite !Hmalloc. cbn [negb final].
      fold scale. fold filterscale. fold support.
      rewrite stretch_vertical_rows, Ht, Hb. now rewrite R.
    + destruct Hsize; contradiction.
Qed.

(** The same for a destination pixel whose window has at most [kmax]
    taps: on either path the byte is the clipped accumulator of the
    coefficients of its own index. *)
Lemma ImagingStretch_bytes imOut imIn filter_id filterp :
  valid_request malloc imOut imIn filter_id ->
  select_filter filter_id = Some filterp ->
  type imIn = IMAGING_TYPE_UINT8 -> bands imIn = 3 ->
  rows_fit (image imOut) (xsize imOut) (ysize imOut) ->
  let scale :=
    if ysize imIn =? ysize imOut
    then fdiv (f_of_int (xsize imIn)) (f_of_int (xsize imOut))
    else fdiv (f_of_int (ysize imIn)) (f_of_int (ysize imOut)) in
  let filterscale := filterscale_of scale in
  let support := fmul (support filterp) filterscale in
  let o := ImagingStretch malloc (Some imOut) (Some imIn) filter_id in
  forall yy xx ch,
    0 <= yy < ysize imOut -> 0 <= xx < xsize imOut -> 0 <= ch < 3 ->
    (xsize imIn = xsize imOut \/
     let c := compute_coefficients filterp scale filterscale support
                (xsize imIn) xx in
     xmax c - xmin c <= Z.max 0 (kmax_of support)) ->
    image_get (pixels (final o)) yy (xx * 4 + ch) =
    clip8 (chan ch
      (if xsize imIn =? xsize imOut then
         accumulate (fun y c => image_get (image imIn) y (xx * 4 + c))
           (compute_coefficients filterp scale filterscale support
              (ysize imIn) yy)
       else
         accumulate (fun x c => image_get (image imIn) yy (x * 4 + c))
           (compute_coefficients filterp scale filterscale support
              (xsize imIn) xx))).
Proof.
  intros Hreq Hfilter Ht Hb Hfit scale filterscale support o yy xx ch
         Hyy Hxx Hch Hk.
  subst o.
  rewrite (ImagingStretch_slots imOut imIn filter_id filterp)
    by assumption.
  fold scale. fold filterscale. fold support.
  destruct (Z.eqb_spec (xsize imIn) (xsize imOut)) as [Ex|Ex];
    [reflexivity|].
  destruct Hk as [Hk|Hk]; [contradiction|].
  now rewrite accumulate_column_fits.
Qed.

End Bytes.

(* ------------------------------------------------------------------ *)
(** * Exact arithmetic: floor, ceiling and the cast to [int] *)

Module ExactFacts.
Import Exact.
Local Open Scope R_scope.

Lemma Zfloor_bounds x : IZR (Zfloor x) <= x < IZR (Zfloor x) + 1.
Proof.
  unfold Zfloor. destruct (base_Int_part x) as [H1 H2]. lra.
Qed.

Lemma Zfloor_unique x n : IZR n <= x < IZR n + 1 -> Zfloor x = n.
Proof.
  intros H. unfold Zfloor. symmetry. apply Int_part_spec. lra.
Qed.

Lemma Zfloor_IZR n : Zfloor (IZR n) = n.
Proof. apply Zfloor_unique. lra. Qed.

Lemma Zfloor_lt x n : x < IZR n -> (Zfloor x < n)%Z.
Proof.
  intros H. apply lt_IZR. destruct (Zfloor_bounds x). lra.
Qed.

Lemma Zfloor_le x n : x < IZR n + 1 -> (Zfloor x <= n)%Z.
Proof.
  intros H. apply Z.lt_succ_r, Zfloor_lt. rewrite succ_IZR. lra.
Qed.

Lemma Zfloor_ge x n : IZR n <= x -> (n <= Zfloor x)%Z.
Proof.
  intros H. apply Z.lt_succ_r, lt_IZR. rewrite succ_IZR.
  destruct (Zfloor_bounds x). lra.
Qed.

Lemma Zceil_bounds x : IZR (Zceil x) - 1 < x <= IZR (Zceil x).
Proof.
  unfold Zceil. rewrite opp_IZR.
  destruct (Zfloor_bounds (- x)) as [H1 H2]. unfold Zfloor in *. lra.
Qed.

Lemma Zceil_unique x n : IZR n - 1 < x <= IZR n -> Zceil x = n.
Proof.
  intros H. unfold Zceil. fold (Zfloor (- x)).
  rewrite (Zfloor_unique (- x) (- n)); [lia|]. rewrite opp_IZR. lra.
Qed.

Lemma Zceil_IZR n : Zceil (IZR n) = n.
Proof. apply Zceil_unique. lra. Qed.

Lemma Zceil_gt x n : IZR n < x -> (n < Zceil x)%Z.
Proof.
  intros H. apply lt_IZR. destruct (Zceil_bounds x). lra.
Qed.

Lemma Zceil_le x n : x <= IZR n -> (Zceil x <= n)%Z.
Proof.
  intros H. apply Z.lt_succ_r, lt_IZR. rewrite succ_IZR.
  destruct (Zceil_bounds x). lra.
Qed.

(** The cast of an integer value: itself when it is an [int]. *)
Lemma to_int_IZR n :
  to_int (IZR n) =
  if ((INT_MIN <=? n) && (n <=? INT_MAX))%Z then n else INT_MIN.
Proof.
  unfold to_int. rewrite Zfloor_IZR, Zceil_IZR.
  now destruct (Rle_dec 0 (IZR n)).
Qed.

Lemma to_int_in_range n :
  (INT_MIN <= n <= INT_MAX)%Z -> to_int (IZR n) = n.
Proof.
  intros H. rewrite to_int_IZR.
  destruct (Z.leb_spec INT_MIN n); [|lia].
  destruct (Z.leb_spec n INT_MAX); [reflexivity|lia].
Qed.

Lemma to_int_below n : (n < INT_MIN)%Z -> to_int (IZR n) = INT_MIN.
Proof.
  intros H. rewrite to_int_IZR.
  destruct (Z.leb_spec INT_MIN n); [lia|reflexivity].
Qed.

(** Truncation toward zero loses less than one unit. *)
Lemma to_int_truncates x :
  IZR INT_MIN <= x < IZR INT_MAX + 1 ->
  Rabs (IZR (to_int x) - x) < 1 /\
  (0 <= x -> IZR (to_int x) <= x) /\
  (x <= 0 -> x <= IZR (to_int x)).
Proof.
  intros [Hlo Hhi]. unfold to_int.
  destruct (Rle_dec 0 x) as [Hx|Hx].
  - pose proof (Zfloor_bounds x) as [F1 F2].
    assert (R1 : (INT_MIN <= Zfloor x)%Z).
    { apply Zfloor_ge. unfold INT_MIN. rewrite opp_IZR.
      pose proof (IZR_lt 0 (2^31) eq_refl). lra. }
    assert (R2 : (Zfloor x <= INT_MAX)%Z) by (apply Zfloor_le; lra).
    destruct (Z.leb_spec INT_MIN (Zfloor x)); [|lia].
    destruct (Z.leb_spec (Zfloor x) INT_MAX); [|lia].
    cbn [andb]. repeat split; try lra.
    + apply Rabs_def1; lra.
    + intros Hx0. assert (E : x = 0) by lra. subst x.
      rewrite (Zfloor_IZR 0). lra.
  - pose proof (Zceil_bounds x) as [C1 C2].
    assert (R1 : (INT_MIN <= Zceil x)%Z).
    { apply Z.lt_succ_r, lt_IZR. rewrite succ_IZR. lra. }
    assert (R2 : (Zceil x <= INT_MAX)%Z).
    { apply Zceil_le.
      assert (0 <= IZR INT_MAX) by (apply IZR_le; unfold INT_MAX; lia).
      lra. }
    destruct (Z.leb_spec INT_MIN (Zceil x)); [|lia].
    destruct (Z.leb_spec (Zceil x) INT_MAX); [|lia].
    cbn [andb]. repeat split; try lra.
    apply Rabs_def1; lra.
Qed.

End ExactFacts.

(* ------------------------------------------------------------------ *)
(** * The kernels in exact arithmetic *)

Module ExactKernels.
Import Exact ExactFacts.
#[local] Existing Instance Exact.arith.
Local Open Scope R_scope.

Ltac exact_ops :=
  cbn [float double f_of_int d_of_int f2d d2f f_to_int d_to_int d_half M_PI
       fadd fsub fmul fdiv fneg dadd dsub dmul ddiv dneg deq dlt dle
       floor ceil sin Exact.arith] in *.

Ltac no_test t :=
  lazymatch t with
  | context [Rlt_dec] => fail
  | context [Rle_dec] => fail
  | context [Req_dec_T] => fail
  | _ => idtac
  end.

Ltac by_cases :=
  unfold Rltb, Rleb, Reqb;
  repeat match goal with
         | |- context [Rlt_dec ?x ?y] =>
           no_test x; no_test y; destruct (Rlt_dec x y)
         | |- context [Rle_dec ?x ?y] =>
           no_test x; no_test y; destruct (Rle_dec x y)
         | |- context [Req_dec_T ?x ?y] =>
           no_test x; no_test y; destruct (Req_dec_T x y)
         end;
  cbn [andb orb negb]; try lra.

Lemma nearest_filter_value x :
  nearest_filter x = if Rle_dec (- / 2) x then
                       if Rlt_dec x (/ 2) then 1 else 0
                     else 0.
Proof. unfold nearest_filter. exact_ops. by_cases. Qed.

Lemma bilinear_filter_value x :
  bilinear_filter x = if Rlt_dec (Rabs x) 1 then 1 - Rabs x else 0.
Proof.
  unfold bilinear_filter. exact_ops. unfold Rabs.
  destruct (Rcase_abs x); by_cases.
Qed.

(** For [|x| < 1] the code returns [(a+2)|x|^3 - (a+3)x^2 + 1] with [a = 0]. *)
Lemma bicubic_filter_inner x :
  Rabs x < 1 -> bicubic_filter x = 2 * Rabs x ^ 3 - 3 * x ^ 2 + 1.
Proof.
  unfold bicubic_filter, bicubic_a. exact_ops. unfold Rabs.
  destruct (Rcase_abs x); intros H; by_cases.
Qed.

(** For [1 <= |x| < 2] the code returns [8 |x|]: line 76 adds [8] where
    the cubic has [8*a]. *)
Lemma bicubic_filter_outer x :
  1 <= Rabs x < 2 -> bicubic_filter x = 8 * Rabs x.
Proof.
  unfold bicubic_filter, bicubic_a. exact_ops. unfold Rabs.
  destruct (Rcase_abs x); intros H; by_cases.
Qed.

Lemma bicubic_filter_far x : 2 <= Rabs x -> bicubic_filter x = 0.
Proof.
  unfold bicubic_filter, bicubic_a. exact_ops. unfold Rabs.
  destruct (Rcase_abs x); intros H; by_cases.
Qed.

Lemma kernel_support_bounds filter_id filterp :
  select_filter filter_id = Some filterp ->
  / 2 <= support filterp <= 3.
Proof.
  unfold select_filter.
  repeat match goal with
         | |- context [(?x =? ?y)%Z] => destruct (x =? y)%Z
         end; intros H; inversion H; subst; cbn [support NEAREST ANTIALIAS
                                                BILINEAR BICUBIC];
    exact_ops; lra.
Qed.

Lemma plain_kernel_nonneg filterp x :
  plain_kernel filterp -> 0 <= filter filterp x.
Proof.
  intros [| |]; cbn [filter NEAREST BILINEAR BICUBIC].
  - rewrite nearest_filter_value.
    destruct (Rle_dec _ _); [destruct (Rlt_dec _ _)|]; lra.
  - rewrite bilinear_filter_value. destruct (Rlt_dec _ _); lra.
  - destruct (Rlt_dec (Rabs x) 1) as [H1|H1].
    + rewrite bicubic_filter_inner by assumption.
      pose proof (Rabs_pos x) as Hp.
      replace (x ^ 2) with (Rabs x ^ 2)
        by (unfold Rabs; destruct (Rcase_abs x); ring).
      replace (2 * Rabs x ^ 3 - 3 * Rabs x ^ 2 + 1)
        with ((Rabs x - 1) ^ 2 * (2 * Rabs x + 1)) by ring.
      apply Rmult_le_pos; [apply pow2_ge_0|lra].
    + destruct (Rlt_dec (Rabs x) 2) as [H2|H2].
      * rewrite bicubic_filter_outer by lra. lra.
      * rewrite bicubic_filter_far by lra. lra.
Qed.

(** At an offset in [-1/2, 1/2) each of the three kernels is at least
    [1/2]. *)
Lemma plain_kernel_central filterp x :
  plain_kernel filterp -> - / 2 <= x < / 2 -> / 2 <= filter filterp x.
Proof.
  intros [| |] Hx; cbn [filter NEAREST BILINEAR BICUBIC].
  - rewrite nearest_filter_value.
    destruct (Rle_dec _ _); [destruct (Rlt_dec _ _)|]; lra.
  - rewrite bilinear_filter_value.
    assert (Rabs x <= / 2) by (apply Rabs_le; lra).
    destruct (Rlt_dec _ _); lra.
  - assert (Ha : Rabs x <= / 2) by (apply Rabs_le; lra).
    rewrite bicubic_filter_inner by lra.
    pose proof (Rabs_pos x) as Hp.
    replace (x ^ 2) with (Rabs x ^ 2)
      by (unfold Rabs; destruct (Rcase_abs x); ring).
    assert (Hq : 0 <= (/ 2 - Rabs x) * (1 + 2 * Rabs x - 2 * Rabs x ^ 2)).
    { apply Rmult_le_pos; [lra|]. nra. }
    replace (2 * Rabs x ^ 3 - 3 * Rabs x ^ 2 + 1)
      with (/ 2 + (/ 2 - Rabs x) * (1 + 2 * Rabs x - 2 * Rabs x ^ 2))
      by field.
    lra.
Qed.

End ExactKernels.

(* ------------------------------------------------------------------ *)
(** * The coefficient builder in exact arithmetic *)

Module ExactCoefficients.
Import Exact ExactFacts ExactKernels.
#[local] Existing Instance Exact.arith.
Local Open Scope R_scope.

Lemma filterscale_of_exact scale : filterscale_of scale = Rmax scale 1.
Proof.
  unfold filterscale_of. exact_ops. unfold Rltb, Rmax.
  destruct (Rlt_dec scale 1); destruct (Rle_dec scale 1); lra.
Qed.

Lemma center_of_exact srcLen dstLen i :
  center_of (Spec.scale srcLen dstLen) i = Spec.center srcLen dstLen i.
Proof. unfold center_of, Spec.center. exact_ops. lra. Qed.

Section Row.
Variables (srcLen dstLen i : Z) (filterp : struct_filter).
Hypothesis Hsrc : (1 <= srcLen < 2^29)%Z.
Hypothesis Hdst : (1 <= dstLen)%Z.
Hypothesis Hi : (0 <= i < dstLen)%Z.
Hypothesis Hsupport : / 2 <= support filterp <= 3.

Let scale := Spec.scale srcLen dstLen.
Let fs := Spec.filterscale srcLen dstLen.
Let sup := Spec.support (support filterp) srcLen dstLen.
Let c := Spec.center srcLen dstLen i.

Lemma src_pos : 1 <= IZR srcLen.
Proof. apply IZR_le. lia. Qed.

Lemma dst_pos : 1 <= IZR dstLen.
Proof. apply IZR_le. lia. Qed.

Lemma scale_bounds : 0 < scale <= IZR srcLen.
Proof.
  unfold scale, Spec.scale. pose proof src_pos. pose proof dst_pos. split.
  - apply Rdiv_lt_0_compat; lra.
  - apply Rmult_le_reg_r with (IZR dstLen); [lra|].
    unfold Rdiv. rewrite Rmult_assoc, Rinv_l by lra. nra.
Qed.

Lemma filterscale_bounds : 1 <= fs <= IZR srcLen.
Proof.
  unfold fs, Spec.filterscale. fold scale.
  pose proof scale_bounds. pose proof src_pos.
  unfold Rmax. destruct (Rle_dec scale 1); lra.
Qed.

Lemma filterscale_ge_scale : scale <= fs.
Proof. apply Rmax_l. Qed.

Lemma support_bounds : fs / 2 <= sup <= 3 * IZR srcLen.
Proof.
  unfold sup, Spec.support. fold fs. pose proof filterscale_bounds. nra.
Qed.

(** The center lies half a destination step inside the source axis. *)
Lemma center_bounds : scale / 2 <= c <= IZR srcLen - scale / 2.
Proof.
  unfold c, Spec.center. fold scale.
  pose proof scale_bounds as [Hs _].
  assert (Hi0 : 0 <= IZR i) by (apply IZR_le; lia).
  assert (Hi1 : IZR i + 1 <= IZR dstLen).
  { rewrite <- succ_IZR. apply IZR_le. lia. }
  assert (E : IZR srcLen = IZR dstLen * scale).
  { unfold scale, Spec.scale. pose proof dst_pos. field. lra. }
  rewrite E. split; nra.
Qed.

Lemma floor_below_src : (Zfloor (c - sup) < srcLen)%Z.
Proof.
  apply Zfloor_lt. pose proof center_bounds. pose proof support_bounds.
  pose proof scale_bounds. pose proof filterscale_bounds. lra.
Qed.

Lemma ceil_in_range : (1 <= Zceil (c + sup) <= 4 * srcLen)%Z.
Proof.
  pose proof center_bounds. pose proof support_bounds.
  pose proof scale_bounds. pose proof filterscale_bounds. split.
  - apply Z.lt_pred_le, Zceil_gt. simpl. lra.
  - apply Zceil_le. rewrite mult_IZR. lra.
Qed.

Lemma xmin_of_exact :
  xmin_of c sup = Spec.window_min (support filterp) srcLen dstLen i.
Proof.
  unfold xmin_of, Spec.window_min, Spec.clamp. exact_ops.
  fold c sup. pose proof floor_below_src as Hlt.
  destruct (Z_lt_ge_dec (Zfloor (c - sup)) INT_MIN) as [Hlow|Hlow].
  - rewrite to_int_below by assumption.
    unfold INT_MIN in *. cbn [Z.ltb Z.opp Z.pow Z.pow_pos Pos.iter
                               Z.mul Pos.mul Z.compare]. lia.
  - rewrite to_int_in_range by (unfold INT_MIN, INT_MAX in *; lia).
    destruct (Z.ltb_spec (Zfloor (c - sup)) 0); lia.
Qed.

Lemma xmax_of_exact :
  xmax_of c sup srcLen = Spec.window_max (support filterp) srcLen dstLen i.
Proof.
  unfold xmax_of, Spec.window_max, Spec.clamp. exact_ops.
  fold c sup. pose proof ceil_in_range as Hr.
  rewrite to_int_in_range by (unfold INT_MIN, INT_MAX in *; lia).
  rewrite Z.gtb_ltb.
  destruct (Z.ltb_spec srcLen (Zceil (c + sup))); lia.
Qed.

(** What [ImagingStretch] passes to the loops. *)
Lemma row_coefficients_unfold :
  row_coefficients filterp srcLen dstLen i =
  compute_coefficients filterp scale fs sup srcLen i.
Proof.
  unfold row_coefficients. rewrite filterscale_of_exact. reflexivity.
Qed.

Lemma row_xmin :
  xmin (row_coefficients filterp srcLen dstLen i) =
  Spec.window_min (support filterp) srcLen dstLen i.
Proof.
  rewrite row_coefficients_unfold. unfold compute_coefficients.
  cbn [xmin]. unfold scale. rewrite center_of_exact. apply xmin_of_exact.
Qed.

Lemma row_xmax :
  xmax (row_coefficients filterp srcLen dstLen i) =
  Spec.window_max (support filterp) srcLen dstLen i.
Proof.
  rewrite row_coefficients_unfold. unfold compute_coefficients.
  cbn [xmax]. unfold scale. rewrite center_of_exact. apply xmax_of_exact.
Qed.

(** Multiplying by [ss = 1 / filterscale] is dividing by [filterscale]. *)
Lemma weight_exact j :
  weight filterp (center_of scale i) (d2f (ddiv (d_of_int 1) (f2d fs))) j =
  Spec.raw_weight (filter filterp) srcLen dstLen i j.
Proof.
  unfold weight, Spec.raw_weight. unfold scale at 1.
  rewrite center_of_exact. fold c fs. exact_ops.
  pose proof filterscale_bounds.
  replace ((IZR j - c + / 2) * (1 / fs)) with ((IZR j - c + 1 / 2) / fs)
    by (field; lra).
  field. lra.
Qed.

Lemma row_k_raw j :
  let r := row_coefficients filterp srcLen dstLen i in
  (xmin r <= j < xmax r)%Z ->
  nth (Z.to_nat (j - xmin r)) (k_raw r) 0 =
  Spec.raw_weight (filter filterp) srcLen dstLen i j.
Proof.
  rewrite row_coefficients_unfold. intros r Hj. subst r.
  rewrite k_raw_nth by assumption. apply weight_exact.
Qed.

End Row.
End ExactCoefficients.

(* ------------------------------------------------------------------ *)
(** * Total weight and fixed-point sum in exact arithmetic *)

Module ExactRows.
Import Exact ExactFacts ExactKernels ExactCoefficients.
#[local] Existing Instance Exact.arith.
Local Open Scope R_scope.

Lemma fold_left_Rplus l acc : fold_left Rplus l acc = acc + Rsum l.
Proof.
  revert acc. induction l as [|x l IH]; intros acc; simpl.
  - lra.
  - rewrite IH. lra.
Qed.

Lemma Rsum_nonneg l : Forall (fun x => 0 <= x) l -> 0 <= Rsum l.
Proof.
  induction 1 as [|x l Hx _ IH]; simpl; lra.
Qed.

Lemma Rsum_pos l y :
  Forall (fun x => 0 <= x) l -> In y l -> 0 < y -> y <= Rsum l.
Proof.
  induction 1 as [|x l Hx Hl IH]; simpl; [contradiction|].
  intros [->|Hin] Hy.
  - pose proof (Rsum_nonneg l Hl). lra.
  - specialize (IH Hin Hy). lra.
Qed.

Lemma Rsum_map_scale (f : R -> R) (a : R) l :
  Rsum (map (fun x => f x * a) l) = Rsum (map f l) * a.
Proof.
  induction l as [|x l IH]; simpl; [lra|]. rewrite IH. lra.
Qed.

(** The raw weights and their sum, for any arguments of the loops. *)
Lemma ww_is_sum filterp scale filterscale support insize xx :
  let r := compute_coefficients filterp scale filterscale support insize xx in
  ww r = Rsum (k_raw r).
Proof.
  unfold compute_coefficients. cbn [ww k_raw].
  rewrite raw_weights_fold. cbn [fst snd].
  rewrite fold_left_Rplus. exact_ops. lra.
Qed.

Lemma intk_is_map filterp scale filterscale support insize xx :
  let r := compute_coefficients filterp scale filterscale support insize xx in
  intk r = map (fun kx => to_int (kx / ww r * 4194304)) (k_raw r).
Proof. reflexivity. Qed.

(** Truncating each term of a sum moves the sum by less than the number
    of terms. *)
Lemma truncated_sum l :
  Forall (fun y => IZR INT_MIN <= y < IZR INT_MAX + 1) l ->
  l <> [] ->
  Rabs (IZR (sum_intk (map to_int l)) - Rsum l) < INR (length l).
Proof.
  intros Hl Hne.
  assert (G : forall l,
            Forall (fun y => IZR INT_MIN <= y < IZR INT_MAX + 1) l ->
            Rabs (IZR (sum_intk (map to_int l)) - Rsum l) <= INR (length l) /\
            (l <> [] ->
             Rabs (IZR (sum_intk (map to_int l)) - Rsum l) < INR (length l))).
  { clear. induction 1 as [|y l Hy Hl [IH1 IH2]].
    - simpl. rewrite Rminus_diag, Rabs_R0. split; [lra|congruence].
    - cbn [map sum_intk fold_right Rsum length].
      fold (sum_intk (map to_int l)). fold (Rsum l).
      rewrite plus_IZR, S_INR.
      destruct (to_int_truncates y Hy) as [Ht _].
      replace (IZR (to_int y) + IZR (sum_intk (map to_int l)) - (y + Rsum l))
        with ((IZR (to_int y) - y) + (IZR (sum_intk (map to_int l)) - Rsum l))
        by ring.
      pose proof (Rabs_triang (IZR (to_int y) - y)
                    (IZR (sum_intk (map to_int l)) - Rsum l)).
      split; [lra|]. intros _. lra. }
  now apply G.
Qed.

Lemma Rsum_normalized l s :
  s <> 0 -> s = Rsum l ->
  Rsum (map (fun kx => kx / s * 4194304) l) = 4194304.
Proof.
  intros Hs E.
  rewrite (map_ext _ (fun kx => (fun x => x) kx * (/ s * 4194304)))
    by (intros; unfold Rdiv; ring).
  rewrite Rsum_map_scale, map_id, <- E. field. exact Hs.
Qed.

(** The sum of the fixed-point weights of a row: within the number of
    taps of [2^22]. *)
Lemma intk_sum_bound filterp scale filterscale support insize xx :
  let r := compute_coefficients filterp scale filterscale support insize xx in
  ww r <> 0 ->
  Forall (fun kx => Rabs (kx / ww r) < 512) (k_raw r) ->
  (Z.abs (sum_intk (intk r) - 2^22) < Z.of_nat (length (intk r)))%Z.
Proof.
  intros r Hww Hrange.
  pose proof (ww_is_sum filterp scale filterscale support insize xx) as Esum.
  pose proof (intk_is_map filterp scale filterscale support insize xx) as Ei.
  cbv zeta in Esum, Ei. fold r in Esum, Ei.
  assert (Hne : k_raw r <> []).
  { intros E. apply Hww. rewrite Esum, E. reflexivity. }
  rewrite Ei.
  rewrite <- (map_map (fun kx => kx / ww r * 4194304) to_int).
  set (ys := map (fun kx => kx / ww r * 4194304) (k_raw r)).
  assert (Hys : Forall (fun y => IZR INT_MIN <= y < IZR INT_MAX + 1) ys).
  { unfold ys. apply Forall_map. eapply Forall_impl; [|exact Hrange].
    intros kx Hk. cbv beta in Hk. apply Rabs_def2 in Hk.
    unfold INT_MIN, INT_MAX.
    replace (IZR (- 2 ^ 31)) with (- 2147483648) by (simpl; lra).
    replace (IZR (2 ^ 31 - 1)) with 2147483647 by (simpl; lra).
    lra. }
  assert (Hys_ne : ys <> []).
  { unfold ys. destruct (k_raw r); [congruence|discriminate]. }
  pose proof (truncated_sum ys Hys Hys_ne) as Hsum.
  assert (Es : Rsum ys = 4194304) by (apply Rsum_normalized; assumption).
  rewrite Es in Hsum.
  apply lt_IZR. rewrite abs_IZR, minus_IZR, <- INR_IZR_INZ.
  replace (IZR (2 ^ 22)) with 4194304 by (simpl; lra).
  rewrite length_map. exact Hsum.
Qed.

End ExactRows.

(* ------------------------------------------------------------------ *)
(** * Windows and total weight of a valid request, exact arithmetic *)

Module ExactWindows.
Import Exact ExactFacts ExactKernels ExactCoefficients ExactRows.
#[local] Existing Instance Exact.arith.
Local Open Scope R_scope.

Section Row.
Variables (srcLen dstLen i : Z) (filterp : struct_filter).
Hypothesis Hsrc : (1 <= srcLen < 2^29)%Z.
Hypothesis Hdst : (1 <= dstLen)%Z.
Hypothesis Hi : (0 <= i < dstLen)%Z.
Hypothesis Hsupport : / 2 <= support filterp <= 3.

Let r := row_coefficients filterp srcLen dstLen i.
Let c := Spec.center srcLen dstLen i.
Let fs := Spec.filterscale srcLen dstLen.

(** The source sample whose interval [(j0, j0 + 1]] holds the center. *)
Let j0 : Z := (Zceil c - 1)%Z.

Lemma central_tap_in_window : (xmin r <= j0 < xmax r)%Z.
Proof.
  unfold r. rewrite row_xmin, row_xmax by assumption.
  unfold Spec.window_min, Spec.window_max, Spec.clamp. fold c.
  set (sup := Spec.support (support filterp) srcLen dstLen).
  pose proof (center_bounds srcLen dstLen i Hsrc Hdst Hi) as Hc.
  pose proof (scale_bounds srcLen dstLen Hsrc Hdst) as Hs.
  pose proof (filterscale_bounds srcLen dstLen Hsrc Hdst) as Hf.
  pose proof (support_bounds srcLen dstLen filterp Hsrc Hdst Hsupport) as Hp.
  fold c in Hc. fold sup in Hp.
  pose proof (Zceil_bounds c) as [C1 C2].
  assert (J0 : (0 <= j0)%Z).
  { unfold j0. assert (0 < Zceil c)%Z by (apply Zceil_gt; simpl; lra). lia. }
  assert (J1 : (j0 < srcLen)%Z).
  { unfold j0. assert (Zceil c <= srcLen)%Z by (apply Zceil_le; lra). lia. }
  assert (F : (Zfloor (c - sup) <= j0)%Z).
  { apply Zfloor_le. unfold j0. rewrite minus_IZR. simpl. lra. }
  assert (G : (j0 < Zceil (c + sup))%Z).
  { apply Zceil_gt. unfold j0. rewrite minus_IZR. simpl. lra. }
  lia.
Qed.

Lemma central_tap_offset :
  - / 2 <= (IZR j0 - c + 1 / 2) / fs < / 2.
Proof.
  pose proof (filterscale_bounds srcLen dstLen Hsrc Hdst) as Hf. fold fs in Hf.
  pose proof (Zceil_bounds c) as [C1 C2].
  assert (E : IZR j0 = IZR (Zceil c) - 1) by (unfold j0; now rewrite minus_IZR).
  assert (Hinv : 0 < / fs <= 1).
  { split; [apply Rinv_0_lt_compat; lra|].
    rewrite <- Rinv_1. apply Rinv_le_contravar; lra. }
  unfold Rdiv. set (n := IZR j0 - c + 1 * / 2).
  assert (Hn : - / 2 <= n < / 2) by (unfold n; lra).
  split; nra.
Qed.

Lemma window_nonempty : (xmin r < xmax r)%Z.
Proof. pose proof central_tap_in_window. lia. Qed.

Hypothesis Hplain : plain_kernel filterp.

Lemma raw_weights_nonneg : Forall (fun x => 0 <= x) (k_raw r).
Proof.
  unfold r. rewrite row_coefficients_unfold.
  unfold compute_coefficients. cbn [k_raw].
  rewrite raw_weights_fold. cbn [fst].
  apply Forall_map, Forall_forall. intros j _.
  rewrite weight_exact by assumption. unfold Spec.raw_weight.
  pose proof (filterscale_bounds srcLen dstLen Hsrc Hdst) as Hf.
  apply Rmult_le_pos.
  - now apply plain_kernel_nonneg.
  - left. apply Rinv_0_lt_compat. lra.
Qed.

Lemma central_weight :
  In (Spec.raw_weight (filter filterp) srcLen dstLen i j0) (k_raw r) /\
  0 < Spec.raw_weight (filter filterp) srcLen dstLen i j0.
Proof.
  pose proof central_tap_in_window as Hj. split.
  - rewrite <- (row_k_raw srcLen dstLen i filterp Hsrc Hdst j0 Hj).
    apply nth_In. unfold r in *.
    rewrite row_coefficients_unfold in *.
    rewrite k_raw_length. lia.
  - unfold Spec.raw_weight. fold c fs.
    pose proof (plain_kernel_central filterp _ Hplain central_tap_offset).
    pose proof (filterscale_bounds srcLen dstLen Hsrc Hdst) as Hf.
    fold fs in Hf.
    apply Rdiv_lt_0_compat; lra.
Qed.

Lemma total_weight_positive : 0 < ww r.
Proof.
  unfold r. rewrite row_coefficients_unfold, ww_is_sum.
  rewrite <- row_coefficients_unfold. fold r.
  destruct central_weight as [Hin Hpos].
  pose proof (Rsum_pos _ _ raw_weights_nonneg Hin Hpos). lra.
Qed.

(** Each normalized weight lies in [0, 1]. *)
Lemma normalized_weights_unit :
  Forall (fun kx => Rabs (kx / ww r) < 512) (k_raw r).
Proof.
  pose proof total_weight_positive as Hww.
  pose proof raw_weights_nonneg as Hnn.
  assert (Hsum : ww r = Rsum (k_raw r)).
  { unfold r. rewrite row_coefficients_unfold. apply ww_is_sum. }
  rewrite Forall_forall in *. intros kx Hin.
  assert (H0 : 0 <= kx) by now apply Hnn.
  assert (H1 : kx <= ww r).
  { destruct (Req_dec kx 0) as [->|Hz]; [lra|].
    rewrite Hsum. apply Rsum_pos; [now apply Forall_forall|assumption|lra]. }
  assert (H2 : 0 <= kx / ww r <= 1).
  { split.
    - apply Rmult_le_pos; [assumption|]. left. now apply Rinv_0_lt_compat.
    - apply Rmult_le_reg_r with (ww r); [assumption|].
      unfold Rdiv. rewrite Rmult_assoc, Rinv_l by lra. lra. }
  apply Rabs_def1; lra.
Qed.

End Row.
End ExactWindows.

(* ------------------------------------------------------------------ *)
(** * Same-size requests in exact arithmetic *)

Module ExactIdentity.
Import Exact ExactFacts ExactKernels ExactCoefficients ExactRows ExactWindows.
#[local] Existing Instance Exact.arith.
Local Open Scope R_scope.

Lemma nearest_unit : unit_kernel nearest_filter.
Proof.
  split.
  - rewrite nearest_filter_value.
    destruct (Rle_dec _ _); [destruct (Rlt_dec _ _)|]; lra.
  - intros n Hn. rewrite nearest_filter_value.
    assert (C : IZR n <= -1 \/ 1 <= IZR n).
    { destruct (Z_le_gt_dec n (-1)).
      - left. apply (IZR_le n (-1)). lia.
      - right. apply (IZR_le 1 n). lia. }
    destruct (Rle_dec _ _); [destruct (Rlt_dec _ _)|]; lra.
Qed.

Lemma bilinear_unit : unit_kernel bilinear_filter.
Proof.
  split.
  - rewrite bilinear_filter_value, Rabs_R0.
    destruct (Rlt_dec _ _); lra.
  - intros n Hn. rewrite bilinear_filter_value.
    destruct (Rlt_dec _ _) as [H|H]; [|reflexivity].
    exfalso. rewrite <- abs_IZR in H. apply lt_IZR in H. lia.
Qed.

Lemma sinc_filter_integer (n : Z) : n <> 0%Z -> sinc_filter (IZR n) = 0.
Proof.
  intros Hn. unfold sinc_filter. exact_ops. unfold Reqb.
  destruct (Req_dec_T (IZR n) 0) as [E|_].
  - apply eq_IZR in E. contradiction.
  - rewrite (sin_eq_0_1 (IZR n * PI)) by (now exists n).
    unfold Rdiv. apply Rmult_0_l.
Qed.

Lemma sinc_filter_zero : sinc_filter 0 = 1.
Proof.
  unfold sinc_filter. exact_ops. unfold Reqb.
  destruct (Req_dec_T 0 0); [reflexivity|contradiction].
Qed.

Lemma antialias_unit : unit_kernel antialias_filter.
Proof.
  split.
  - unfold antialias_filter. exact_ops.
    replace (0 / 3) with 0 by lra.
    rewrite sinc_filter_zero. by_cases.
  - intros n Hn. unfold antialias_filter. exact_ops.
    destruct (_ && _); [|reflexivity].
    rewrite sinc_filter_integer by assumption. apply Rmult_0_l.
Qed.

Lemma Rsum_app l1 l2 : Rsum (l1 ++ l2) = Rsum l1 + Rsum l2.
Proof.
  induction l1 as [|x l1 IH]; simpl; [lra|]. rewrite IH. lra.
Qed.

Lemma Rsum_one_hot lo hi i :
  (lo <= i < hi)%Z ->
  Rsum (map (fun j => if (j =? i)%Z then 1 else 0) (Zrange lo hi)) = 1.
Proof.
  intros Hi.
  assert (G : forall n : nat,
            Rsum (map (fun j => if (j =? i)%Z then 1 else 0)
                    (Zrange lo (lo + Z.of_nat n))) =
            if (i <? lo + Z.of_nat n)%Z then 1 else 0).
  { induction n as [|n IH].
    - rewrite Z.add_0_r, Zrange_empty by lia.
      destruct (Z.ltb_spec i lo); [lia|reflexivity].
    - replace (lo + Z.of_nat (S n))%Z with (lo + Z.of_nat n + 1)%Z by lia.
      rewrite Zrange_snoc, map_app, Rsum_app, IH by lia. simpl.
      destruct (Z.ltb_spec i (lo + Z.of_nat n));
        destruct (Z.ltb_spec i (lo + Z.of_nat n + 1));
        destruct (Z.eqb_spec (lo + Z.of_nat n) i); try lia; lra. }
  specialize (G (Z.to_nat (hi - lo))).
  replace (lo + Z.of_nat (Z.to_nat (hi - lo)))%Z with hi in G by lia.
  rewrite G. destruct (Z.ltb_spec i hi); [reflexivity|lia].
Qed.

Section SameSize.
Variables (n i : Z) (filterp : struct_filter).
Hypothesis Hn : (1 <= n < 2^29)%Z.
Hypothesis Hi : (0 <= i < n)%Z.
Hypothesis Hsupport : / 2 <= support filterp <= 3.
Hypothesis Hunit : unit_kernel (filter filterp).

Let r := row_coefficients filterp n n i.

Lemma same_size_scale : Spec.scale n n = 1.
Proof.
  unfold Spec.scale. assert (1 <= IZR n) by (apply IZR_le; lia).
  field. lra.
Qed.

Lemma same_size_filterscale : Spec.filterscale n n = 1.
Proof.
  unfold Spec.filterscale. rewrite same_size_scale. now apply Rmax_left.
Qed.

Lemma same_size_center : Spec.center n n i = IZR i + / 2.
Proof. unfold Spec.center. rewrite same_size_scale. lra. Qed.

Lemma same_size_window : (xmin r <= i < xmax r)%Z.
Proof.
  assert (Hd : (1 <= n)%Z) by lia.
  pose proof (central_tap_in_window n n i filterp Hn Hd Hi Hsupport) as H.
  cbv zeta in H. rewrite same_size_center in H.
  rewrite (Zceil_unique (IZR i + / 2) (i + 1)) in H
    by (rewrite plus_IZR; simpl; lra).
  unfold r. lia.
Qed.

Lemma same_size_weight j :
  Spec.raw_weight (filter filterp) n n i j = if (j =? i)%Z then 1 else 0.
Proof.
  unfold Spec.raw_weight.
  rewrite same_size_filterscale, same_size_center.
  replace ((IZR j - (IZR i + / 2) + 1 / 2) / 1) with (IZR (j - i))
    by (rewrite minus_IZR; field).
  destruct Hunit as [H0 Hk].
  destruct (Z.eqb_spec j i) as [->|Hne].
  - rewrite Z.sub_diag, H0. lra.
  - rewrite Hk by lia. lra.
Qed.

Lemma same_size_k_raw :
  k_raw r = map (fun j => if (j =? i)%Z then 1 else 0)
              (Zrange (xmin r) (xmax r)).
Proof.
  assert (Hd : (1 <= n)%Z) by lia.
  unfold r. rewrite row_coefficients_unfold.
  unfold compute_coefficients. cbn [k_raw xmin xmax].
  rewrite raw_weights_fold. cbn [fst].
  apply map_ext. intros j.
  rewrite weight_exact by assumption. apply same_size_weight.
Qed.

Lemma same_size_ww : ww r = 1.
Proof.
  assert (E : ww r = Rsum (k_raw r)).
  { unfold r. rewrite row_coefficients_unfold. apply ww_is_sum. }
  rewrite E, same_size_k_raw. apply Rsum_one_hot, same_size_window.
Qed.

(** All the weight is on the tap of the destination index itself. *)
Lemma same_size_intk : intk r = one_hot i (xmin r) (xmax r).
Proof.
  assert (E : intk r = map (fun kx => to_int (kx / ww r * 4194304)) (k_raw r)).
  { unfold r. rewrite row_coefficients_unfold. apply intk_is_map. }
  rewrite E, same_size_ww, same_size_k_raw, map_map. unfold one_hot.
  apply map_ext. intros j. destruct (j =? i)%Z.
  - replace (1 / 1 * 4194304) with (IZR 4194304) by lra.
    apply to_int_in_range. unfold INT_MIN, INT_MAX. lia.
  - replace (0 / 1 * 4194304) with (IZR 0) by lra.
    apply to_int_in_range. unfold INT_MIN, INT_MAX. lia.
Qed.

End SameSize.

End ExactIdentity.

(* ------------------------------------------------------------------ *)
(** * Same-size requests are the identity, the bicubic filter apart *)

Section ExactSameSize.
#[local] Existing Instance Exact.arith.
Variable malloc : nat -> Z -> bool.

Lemma selected_unit_kernel filter_id filterp :
  select_filter filter_id = Some filterp ->
  filter_id <> IMAGING_TRANSFORM_BICUBIC ->
  unit_kernel (filter filterp).
Proof.
  unfold select_filter. intros H Hne.
  destruct (Z.eqb_spec filter_id IMAGING_TRANSFORM_NEAREST);
    [inversion H; apply ExactIdentity.nearest_unit|].
  destruct (Z.eqb_spec filter_id IMAGING_TRANSFORM_ANTIALIAS);
    [inversion H; apply ExactIdentity.antialias_unit|].
  destruct (Z.eqb_spec filter_id IMAGING_TRANSFORM_BILINEAR);
    [inversion H; apply ExactIdentity.bilinear_unit|].
  destruct (Z.eqb_spec filter_id IMAGING_TRANSFORM_BICUBIC);
    [contradiction|discriminate].
Qed.

(** In exact arithmetic, with the nearest, bilinear or antialias filter,
    a valid request whose destination has the size of the source copies
    every sample of the three channels: the window of a destination row
    has the weight [2^22] on that row and 0 elsewhere. *)
Lemma same_size_identity imOut imIn filter_id filterp :
  valid_request malloc imOut imIn filter_id ->
  select_filter filter_id = Some filterp ->
  filter_id <> IMAGING_TRANSFORM_BICUBIC ->
  type imIn = IMAGING_TYPE_UINT8 -> bands imIn = 3 ->
  xsize imIn = xsize imOut -> ysize imIn = ysize imOut ->
  1 <= xsize imIn -> 1 <= ysize imIn < 2^29 ->
  rows_fit (image imOut) (xsize imOut) (ysize imOut) ->
  forall yy xx ch,
    0 <= yy < ysize imOut -> 0 <= xx < xsize imOut -> 0 <= ch < 3 ->
    image_get (pixels (final (ImagingStretch malloc (Some imOut) (Some imIn)
                                filter_id)))
      yy (xx * 4 + ch) =
    UINT8 (image_get (image imIn) yy (xx * 4 + ch)).
Proof.
  intros Hvalid Hfilter Hne Ht Hb Ex Ey Hx Hy Hfit yy xx ch Hyy Hxx Hch.
  pose proof (ImagingStretch_bytes malloc imOut imIn filter_id filterp
                Hvalid Hfilter Ht Hb Hfit yy xx ch Hyy Hxx Hch
                (or_introl Ex)) as B.
  cbv zeta in B. rewrite B. clear B.
  rewrite <- Ex, <- Ey, !Z.eqb_refl.
  pose proof (ExactKernels.kernel_support_bounds _ _ Hfilter) as Hsup.
  pose proof (selected_unit_kernel _ _ Hfilter Hne) as Hunit.
  assert (Es : fdiv (f_of_int (xsize imIn)) (f_of_int (xsize imIn)) =
               fdiv (f_of_int (ysize imIn)) (f_of_int (ysize imIn))).
  { ExactKernels.exact_ops.
    assert (1 <= IZR (xsize imIn))%R by (apply IZR_le; lia).
    assert (1 <= IZR (ysize imIn))%R by (apply IZR_le; lia).
    field. lra. }
  rewrite Es.
  change (compute_coefficients filterp
            (fdiv (f_of_int (ysize imIn)) (f_of_int (ysize imIn)))
            (filterscale_of
               (fdiv (f_of_int (ysize imIn)) (f_of_int (ysize imIn))))
            (fmul (support filterp)
               (filterscale_of
                  (fdiv (f_of_int (ysize imIn)) (f_of_int (ysize imIn)))))
            (ysize imIn) yy)
    with (row_coefficients filterp (ysize imIn) (ysize imIn) yy).
  assert (Hyy' : 0 <= yy < ysize imIn) by lia.
  rewrite (accumulate_one_hot _ _ yy
             (ExactIdentity.same_size_window _ _ _ Hy Hyy' Hsup)
             (ExactIdentity.same_size_intk _ _ _ Hy Hyy' Hsup Hunit)).
  unfold chan.
  assert (C : ch = 0 \/ ch = 1 \/ ch = 2) by lia.
  destruct C as [->|[->| ->]]; cbn [Z.eqb fst snd];
    apply clip8_one_hot, UINT8_range.
Qed.

End ExactSameSize.

(* ------------------------------------------------------------------ *)
(** * The binary32 and binary64 instance at known values *)

(** [1.0f / 3.0f] is [0x3EAAAAAB], [(float) 0.1] is [0x3DCCCCCD],
    [1.0 / 3.0] is [0x3FD5555555555555], and [floor], [ceil] and the
    cast behave as in C at [-0.25] and [2.75]. *)
Lemma binary_anchors :
  let A := IEEE.arith_no_sin in
  fdiv (f_of_int 1) (f_of_int 3) =
    Floats.SpecFloat.S754_finite false 11184811 (-25) /\
  d2f (ddiv (d_of_int 1) (d_of_int 10)) =
    Floats.SpecFloat.S754_finite false 13421773 (-27) /\
  ddiv (d_of_int 1) (d_of_int 3) =
    Floats.SpecFloat.S754_finite false 6004799503160661 (-54) /\
  d_to_int (floor (IEEE.binary64 (-1) (-2) false)) = -1 /\
  d_to_int (ceil (IEEE.binary64 (-1) (-2) false)) = 0 /\
  d_to_int (floor (IEEE.binary64 11 (-2) false)) = 2 /\
  d_to_int (ceil (IEEE.binary64 11 (-2) false)) = 3 /\
  d_to_int (IEEE.binary64 (-11) (-2) false) = -2.
Proof. cbv zeta. repeat split; vm_compute; reflexivity. Qed.

(* ------------------------------------------------------------------ *)
(** * Small axes in binary32 *)

(** In binary32, for every pair of axis lengths from 1 to 12 and each of
    the three kernels that do not call [sin], every row has a non-empty
    window, a positive total weight, and fixed-point weights that sum to
    [2^22] within the number of taps. *)
Lemma binary32_rows_small filterp srcLen dstLen i :
  In filterp [@NEAREST IEEE.arith_no_sin; BILINEAR; BICUBIC] ->
  1 <= srcLen <= 12 -> 1 <= dstLen <= 12 -> 0 <= i < dstLen ->
  Binary32.row_ok (row_coefficients filterp srcLen dstLen i) = true.
Proof.
  intros Hf Hs Hd Hi.
  assert (G : forallb (fun f => Binary32.rows_ok f 12)
                [@NEAREST IEEE.arith_no_sin; BILINEAR; BICUBIC] = true)
    by (vm_compute; reflexivity).
  rewrite forallb_forall in G. specialize (G _ Hf).
  unfold Binary32.rows_ok in G.
  rewrite forallb_forall in G.
  specialize (G srcLen (proj2 (In_Zrange 1 13 srcLen) ltac:(lia))).
  rewrite forallb_forall in G.
  specialize (G dstLen (proj2 (In_Zrange 1 13 dstLen) ltac:(lia))).
  rewrite forallb_forall in G.
  apply G, In_Zrange. lia.
Qed.

(* ------------------------------------------------------------------ *)
(** * The bicubic kernel (C1) *)

(** C1.  The kernel at the offset [1.5], where the claim has the value
    [a|x|^3 - 5a x^2 + 8a|x| - 4a = 0]: the code returns [12], in binary32
    and in exact arithmetic alike, because line 76 adds the constant [8]
    where the cubic has the term [8a]. *)
Theorem bicubic_filter_at_three_halves :
  bicubic_filter (A := IEEE.arith_no_sin) (IEEE.binary32 3 (-1) false) =
    IEEE.binary32 12 0 false /\
  bicubic_filter (A := Exact.arith) (3 / 2)%R = 12%R.
Proof.
  split.
  - vm_compute. reflexivity.
  - rewrite ExactKernels.bicubic_filter_outer.
    + rewrite Rabs_pos_eq; lra.
    + rewrite Rabs_pos_eq; lra.
Qed.

(** In exact arithmetic the kernel is discontinuous at [|x| = 1]: it
    tends to [0] from the left and equals [8] there. *)
Lemma bicubic_filter_jump :
  bicubic_filter (A := Exact.arith) 1%R = 8%R.
Proof.
  rewrite ExactKernels.bicubic_filter_outer; rewrite Rabs_pos_eq; lra.
Qed.

(* ------------------------------------------------------------------ *)
(** * The coefficient builder against the specification (C2) *)

(** Beyond [2^29] samples the cast of the window maximum leaves the range of
    [int]: with one destination sample and the widest kernel the maximum
    [ceil (center + support)] is [3.5 * srcLen]. *)
Lemma window_max_cast_overflows :
  let c := Spec.center (2^30) 1 0 in
  let s := Spec.support 3 (2^30) 1 in
  xmax_of (A := Exact.arith) c s (2^30) = INT_MIN /\
  Spec.window_max 3 (2^30) 1 0 = 2^30.
Proof.
  assert (E : (Spec.center (2^30) 1 0 + Spec.support 3 (2^30) 1)%R
              = IZR 3758096384).
  { unfold Spec.center, Spec.support, Spec.filterscale, Spec.scale.
    rewrite Rmax_left by (simpl; lra). simpl. lra. }
  split.
  - unfold xmax_of. cbn [d_to_int ceil f2d fadd Exact.arith].
    rewrite E, ExactFacts.Zceil_IZR, ExactFacts.to_int_IZR. reflexivity.
  - unfold Spec.window_max. rewrite E, ExactFacts.Zceil_IZR. reflexivity.
Qed.

(** C2, a counterexample in binary32.  Source length 10, destination
    length 6, nearest filter, destination index 3: the formulas of the
    claim give [center - support = 35/6 - 5/6 = 5] and the window
    minimum [5]; the code computes [center] and [support] in [float],
    their difference falls just below [5], and the window starts at [4].
    Source length 3, destination length 2, bilinear filter, index 0, tap
    0: multiplying by the rounded [ss = 1 / filterscale], as the code
    does, and dividing by [filterscale], as the claim does, give raw
    weights that differ in the last bit.  And in exact arithmetic, with
    [2^30] source samples, one destination sample and the widest kernel,
    the cast of the window maximum is out of range. *)
Lemma coefficient_builder_deviates :
  xmin (row_coefficients (A := IEEE.arith_no_sin) NEAREST 10 6 3) = 4 /\
  Spec.window_min (1 / 2) 10 6 3 = 5 /\
  xmin (row_coefficients (A := IEEE.arith_no_sin) NEAREST 10 6 3) <>
  Spec.window_min (1 / 2) 10 6 3 /\
  (let A := IEEE.arith_no_sin in
   let scale := fdiv (f_of_int 3) (f_of_int 2) in
   let filterscale := filterscale_of scale in
   let ss := d2f (ddiv (d_of_int 1) (f2d filterscale)) in
   weight BILINEAR (center_of scale 0) ss 0 = IEEE.binary32 9320676 (-24) false /\
   weight_by_division BILINEAR (center_of scale 0) filterscale 0 =
     IEEE.binary32 9320675 (-24) false) /\
  (xmax_of (A := Exact.arith) (Spec.center (2^30) 1 0)
     (Spec.support 3 (2^30) 1) (2^30) = INT_MIN /\
   Spec.window_max 3 (2^30) 1 0 = 2^30).
Proof.
  assert (E1 : xmin (row_coefficients (A := IEEE.arith_no_sin) NEAREST 10 6 3)
               = 4) by (vm_compute; reflexivity).
  assert (E2 : Spec.window_min (1 / 2) 10 6 3 = 5).
  { unfold Spec.window_min, Spec.center, Spec.support, Spec.filterscale,
      Spec.scale.
    rewrite Rmax_left by lra.
    replace ((3 + 1 / 2) * (10 / 6) - 1 / 2 * (10 / 6))%R with 5%R by field.
    rewrite (ExactFacts.Zfloor_IZR 5). reflexivity. }
  rewrite E1, E2.
  split; [reflexivity|]. split; [reflexivity|]. split; [discriminate|].
  split; [split; vm_compute; reflexivity|].
  exact window_max_cast_overflows.
Qed.

Section ExactBuilder.
#[local] Existing Instance Exact.arith.

(** C2, as amended.  In exact arithmetic, for a source axis of fewer than
    [2^29] samples (so that every cast to [int] is in range), the code
    computes for destination index [i] the center, the support, the two
    window bounds and the raw weight of every tap of the window that the
    specification gives. *)
Theorem coefficient_builder_exact filter_id filterp srcLen dstLen i :
  select_filter filter_id = Some filterp ->
  1 <= srcLen < 2^29 ->
  1 <= dstLen ->
  0 <= i < dstLen ->
  let scale := fdiv (f_of_int srcLen) (f_of_int dstLen) in
  let r := row_coefficients filterp srcLen dstLen i in
  center_of scale i = Spec.center srcLen dstLen i /\
  fmul (support filterp) (filterscale_of scale) =
    Spec.support (support filterp) srcLen dstLen /\
  xmin r = Spec.window_min (support filterp) srcLen dstLen i /\
  xmax r = Spec.window_max (support filterp) srcLen dstLen i /\
  length (k_raw r) = Z.to_nat (xmax r - xmin r) /\
  forall j, xmin r <= j < xmax r ->
            nth (Z.to_nat (j - xmin r)) (k_raw r) 0%R =
            Spec.raw_weight (filter filterp) srcLen dstLen i j.
Proof.
  intros Hfilter Hsrc Hdst Hi scale r.
  pose proof (ExactKernels.kernel_support_bounds _ _ Hfilter) as Hsup.
  repeat split.
  - apply ExactCoefficients.center_of_exact.
  - unfold scale. rewrite ExactCoefficients.filterscale_of_exact. reflexivity.
  - now apply ExactCoefficients.row_xmin.
  - now apply ExactCoefficients.row_xmax.
  - apply k_raw_length.
  - intros j Hj. now apply ExactCoefficients.row_k_raw.
Qed.

(** The theorem at the first row of a bilinear stretch from 4 to 2. *)
Lemma coefficient_builder_exact_witness :
  select_filter IMAGING_TRANSFORM_BILINEAR = Some BILINEAR /\
  1 <= 4 < 2^29 /\ 1 <= 2 /\ 0 <= 0 < 2 /\
  let scale := fdiv (f_of_int 4) (f_of_int 2) in
  let r := row_coefficients BILINEAR 4 2 0 in
  center_of scale 0 = Spec.center 4 2 0 /\
  fmul (support BILINEAR) (filterscale_of scale) =
    Spec.support (support BILINEAR) 4 2 /\
  xmin r = Spec.window_min (support BILINEAR) 4 2 0 /\
  xmax r = Spec.window_max (support BILINEAR) 4 2 0 /\
  length (k_raw r) = Z.to_nat (xmax r - xmin r) /\
  forall j, xmin r <= j < xmax r ->
            nth (Z.to_nat (j - xmin r)) (k_raw r) 0%R =
            Spec.raw_weight (filter BILINEAR) 4 2 0 j.
Proof.
  split; [reflexivity|]. split; [lia|]. split; [lia|]. split; [lia|].
  apply (coefficient_builder_exact IMAGING_TRANSFORM_BILINEAR BILINEAR 4 2 0);
    [reflexivity|lia|lia|lia].
Defined.

End ExactBuilder.

(* ------------------------------------------------------------------ *)
(** * Whole calls in binary32 arithmetic (C3, C4, C7) *)

Section Calls.
Import Examples.
#[local] Existing Instance IEEE.arith_no_sin.

(** C3, a counterexample.  Stretching the 1-band row to width 2 with the
    bilinear filter returns the destination but stores nothing: the
    destination keeps its two zero bytes, which are not the values of the
    claim.  On the 3-band path the same samples give 61 and 194, not
    42 or 43 and 212 or 213. *)
Lemma bilinear_row_scenario_fails :
  let o := ImagingStretch malloc_ok (Some (grey 2 1 [[0; 0]]))
             (Some grey_row) IMAGING_TRANSFORM_BILINEAR in
  let o3 := ImagingStretch malloc_ok (Some (rgb 2 1 [px 0 ++ px 0]))
              (Some rgb_row) IMAGING_TRANSFORM_BILINEAR in
  (ret o = ReturnImOut /\ stores (final o) = [] /\
   pixels (final o) = [[0; 0]]) /\
  ~ (ret o = ReturnImOut /\
     (image_get (pixels (final o)) 0 0 = 42 \/
      image_get (pixels (final o)) 0 0 = 43) /\
     (image_get (pixels (final o)) 0 1 = 212 \/
      image_get (pixels (final o)) 0 1 = 213)) /\
  ~ (ret o3 = ReturnImOut /\
     (image_get (pixels (final o3)) 0 0 = 42 \/
      image_get (pixels (final o3)) 0 0 = 43) /\
     (image_get (pixels (final o3)) 0 4 = 212 \/
      image_get (pixels (final o3)) 0 4 = 213)).
Proof.
  cbv zeta.
  assert (E : ImagingStretch malloc_ok (Some (grey 2 1 [[0; 0]]))
                (Some grey_row) IMAGING_TRANSFORM_BILINEAR =
              {| ret := ReturnImOut;
                 final := {| pixels := [[0; 0]]; stores := [] |} |})
    by (vm_compute; reflexivity).
  assert (E3 : pixels (final (ImagingStretch malloc_ok
                                (Some (rgb 2 1 [px 0 ++ px 0]))
                                (Some rgb_row) IMAGING_TRANSFORM_BILINEAR)) =
               [[61; 61; 61; 0; 194; 194; 194; 0]])
    by (vm_compute; reflexivity).
  rewrite E, E3. cbn [ret final pixels stores].
  split; [repeat split|]. split.
  - intros (_ & [H|H] & _); vm_compute in H; discriminate H.
  - intros (_ & [H|H] & _); vm_compute in H; discriminate H.
Qed.

(** C3, as amended.  Stretching the 3-band row whose channels hold
    [0, 85, 170, 255] to width 2 with the bilinear filter returns the
    destination and stores 61 and 194 in the three channels of its two
    pixels: at scale 2 the bilinear support is two source samples wide,
    and each destination sample blends three taps with the weights 3/7,
    3/7, 1/7 (and 1/7, 3/7, 3/7). *)
Theorem bilinear_row_scenario :
  let o := ImagingStretch malloc_ok (Some (rgb 2 1 [px 0 ++ px 0]))
             (Some rgb_row) IMAGING_TRANSFORM_BILINEAR in
  ret o = ReturnImOut /\
  pixels (final o) = [[61; 61; 61; 0; 194; 194; 194; 0]] /\
  intk (row_coefficients BILINEAR 4 2 0) = [1797558; 1797558; 599186] /\
  intk (row_coefficients BILINEAR 4 2 1) = [599186; 1797558; 1797558].
Proof.
  cbv zeta. repeat split; vm_compute; reflexivity.
Qed.

(** C4, a counterexample.  Source and destination of the same width and
    the same height: the request is not refused; the call returns the
    destination and stores its pixel. *)
Lemma same_size_request_accepted :
  let imOut := rgb 1 1 [px 0] in
  let imIn := rgb 1 1 [px 77] in
  let o := ImagingStretch malloc_ok (Some imOut) (Some imIn)
             IMAGING_TRANSFORM_NEAREST in
  xsize imIn = xsize imOut /\ ysize imIn = ysize imOut /\
  ret o = ReturnImOut /\
  pixels (final o) = [[77; 77; 77; 0]] /\
  ~ rejected o.
Proof.
  cbv zeta.
  assert (E : ImagingStretch malloc_ok (Some (rgb 1 1 [px 0]))
                (Some (rgb 1 1 [px 77])) IMAGING_TRANSFORM_NEAREST =
              {| ret := ReturnImOut;
                 final := {| pixels := [[77; 77; 77; 0]];
                             stores := [(0, 2, 77); (0, 1, 77); (0, 0, 77)] |} |})
    by (vm_compute; reflexivity).
  rewrite E. cbn [ret final pixels].
  repeat split. intros [e He]. discriminate He.
Qed.

(** C7.  The bicubic filter on a destination of the size of the source
    (one column, three rows) is far from the identity: the rows 0, 255, 0
    become 227, 15, 227.  At scale 1 the taps next to the center are at
    the offsets -1 and 1, where the kernel as coded is 8 instead of 0, so
    the center sample has the weight 1/17.  The other three filters copy
    the source ([same_size_identity]). *)
Theorem bicubic_same_size_not_identity :
  let imIn := rgb 1 3 [px 0; px 255; px 0] in
  let o := ImagingStretch malloc_ok (Some (rgb 1 3 [px 0; px 0; px 0]))
             (Some imIn) IMAGING_TRANSFORM_BICUBIC in
  ret o = ReturnImOut /\
  pixels (final o) = [px 227; px 15; px 227] /\
  bicubic_filter (IEEE.binary32 1 0 false) = IEEE.binary32 8 0 false /\
  intk (row_coefficients BICUBIC 3 3 1) = [1973790; 246723; 1973790].
Proof.
  cbv zeta. repeat split; vm_compute; reflexivity.
Qed.

(** With the nearest and the bilinear filter the same request is the
    identity. *)
Lemma plain_same_size_identity :
  let imIn := rgb 1 3 [px 10; px 200; px 30] in
  let imOut := rgb 1 3 [px 0; px 0; px 0] in
  pixels (final (ImagingStretch malloc_ok (Some imOut) (Some imIn)
                   IMAGING_TRANSFORM_NEAREST)) = image imIn /\
  pixels (final (ImagingStretch malloc_ok (Some imOut) (Some imIn)
                   IMAGING_TRANSFORM_BILINEAR)) = image imIn.
Proof.
  cbv zeta. split; vm_compute; reflexivity.
Qed.

End Calls.

(* ------------------------------------------------------------------ *)
(** * Errors, saturation and the write footprint (C4, C5, C8, C10) *)

Section Requests.
Context {A : Arith}.
Variable malloc : nat -> Z -> bool.

Lemma ImagingStretch_mode_differs imOut imIn filter_id :
  mode imIn <> mode imOut ->
  ImagingStretch malloc (Some imOut) (Some imIn) filter_id =
  {| ret := ReturnError ModeError; final := initial imOut |}.
Proof.
  intros H. unfold ImagingStretch.
  destruct (String.eqb_spec (mode imIn) (mode imOut)); [contradiction|].
  reflexivity.
Qed.

(** C8.  When source and destination differ in sample type or in band
    count, that is, in mode (the mode fixes both), [ImagingStretch]
    returns the mode error, has made no store, and leaves the rows of the
    destination as they were. *)
Theorem stretch_mode_mismatch layout imOut imIn filter_id :
  has_layout layout imOut ->
  has_layout layout imIn ->
  type imIn <> type imOut \/ bands imIn <> bands imOut \/
    mode imIn <> mode imOut ->
  let o := ImagingStretch malloc (Some imOut) (Some imIn) filter_id in
  ret o = ReturnError ModeError /\
  stores (final o) = [] /\
  pixels (final o) = image imOut.
Proof.
  intros Lout Lin Hdiff o.
  assert (Hmode : mode imIn <> mode imOut).
  { intros E. unfold has_layout in *. rewrite E in Lin.
    rewrite Lout in Lin. injection Lin as Et Eb.
    destruct Hdiff as [H|[H|H]]; congruence. }
  subst o. rewrite ImagingStretch_mode_differs by assumption.
  repeat split.
Qed.

(** [clip8] written out: the two thresholds, and between them the shift,
    whose result is below 256 so that the cast to [UINT8] keeps it. *)
Lemma clip8_saturates in_ :
  clip8 in_ =
  if 2^30 <=? in_ then 255 else if in_ <=? 0 then 0 else Z.shiftr in_ 22.
Proof.
  destruct (Z.leb_spec (2^30) in_) as [H1|H1].
  - unfold clip8.
    change (Z.shiftl (Z.shiftl 1 PRECISION_BITS) 8) with (2^30).
    destruct (Z.geb_spec in_ (2^30)); [reflexivity|lia].
  - destruct (Z.leb_spec in_ 0) as [H0|H0].
    + unfold clip8.
      change (Z.shiftl (Z.shiftl 1 PRECISION_BITS) 8) with (2^30).
      destruct (Z.geb_spec in_ (2^30)); [lia|].
      destruct (Z.leb_spec in_ 0); [reflexivity|lia].
    + rewrite clip8_shift by lia. now rewrite Z.shiftr_div_pow2.
Qed.

Lemma wrap_int_range z : INT_MIN <= wrap_int z <= INT_MAX.
Proof.
  unfold wrap_int, INT_MIN, INT_MAX.
  pose proof (Z.mod_pos_bound (z + 2^31) (2^32) ltac:(pow2; lia)).
  pow2. lia.
Qed.

(** The accumulators are [int]s. *)
Lemma accumulator_loop_range lo hi (f : Z -> Z * Z * Z -> Z * Z * Z) :
  (forall x ss0 ss1 ss2, exists a b c,
      f x (ss0, ss1, ss2) = (int_add ss0 a, int_add ss1 b, int_add ss2 c)) ->
  forall ch, 0 <= ch < 3 ->
  INT_MIN <=
  chan ch (for_loop lo hi f
             (Z.shiftl 1 (PRECISION_BITS - 1),
              Z.shiftl 1 (PRECISION_BITS - 1),
              Z.shiftl 1 (PRECISION_BITS - 1))) <= INT_MAX.
Proof.
  intros Hf ch Hch.
  assert (G : forall n, 0 <= n < 3 ->
            INT_MIN <=
            chan n (for_loop lo hi f
                      (Z.shiftl 1 (PRECISION_BITS - 1),
                       Z.shiftl 1 (PRECISION_BITS - 1),
                       Z.shiftl 1 (PRECISION_BITS - 1))) <= INT_MAX).
  { apply (for_loop_preserves
             (fun st => forall n, 0 <= n < 3 ->
                                  INT_MIN <= chan n st <= INT_MAX)).
    - intros n Hn. unfold chan, INT_MIN, INT_MAX.
      change (Z.shiftl 1 (PRECISION_BITS - 1)) with (2^21). cbn [fst snd].
      destruct (n =? 0); [pow2; lia|]. destruct (n =? 1); pow2; lia.
    - intros x [[ss0 ss1] ss2] _ _ n Hn.
      destruct (Hf x ss0 ss1 ss2) as (a & b & c & ->).
      unfold chan, int_add. cbn [fst snd].
      destruct (n =? 0); [apply wrap_int_range|].
      destruct (n =? 1); apply wrap_int_range. }
  now apply G.
Qed.

Lemma accumulators_range imOut imIn filterp yy xx ch :
  0 <= ch < 3 ->
  INT_MIN <= chan ch (accumulators imOut imIn filterp yy xx) <= INT_MAX.
Proof.
  intros Hch. unfold accumulators.
  destruct (xsize imIn =? xsize imOut).
  - unfold accumulate. apply accumulator_loop_range; [|assumption].
    intros x ss0 ss1 ss2. do 3 eexists. reflexivity.
  - unfold accumulate_column. apply accumulator_loop_range; [|assumption].
    intros x ss0 ss1 ss2. do 3 eexists. reflexivity.
Qed.

(** C5.  Every value [ImagingStretch] stores is the accumulator of its
    pixel and channel, an [int], saturated into 8 bits: 255 when the
    accumulator is [2^30] or more, 0 when it is 0 or less, and the
    accumulator shifted right by 22 bits otherwise.  This holds for every
    kernel, whatever the sign and size of its weights.  So every stored
    value lies in [0, 255], and so does, when the call returns, the byte
    of the destination at every place it stored to. *)
Theorem stretch_stores_saturated imOut imIn filter_id :
  let o := ImagingStretch malloc imOut imIn filter_id in
  Forall (fun s =>
            exists dst src filterp xx ch,
              imOut = Some dst /\ imIn = Some src /\
              select_filter filter_id = Some filterp /\
              0 <= fst (fst s) < ysize dst /\
              0 <= xx < xsize dst /\ 0 <= ch < 3 /\
              snd (fst s) = xx * 4 + ch /\
              let acc :=
                chan ch (accumulators dst src filterp (fst (fst s)) xx) in
              INT_MIN <= acc <= INT_MAX /\
              snd s = (if 2^30 <=? acc then 255
                       else if acc <=? 0 then 0
                       else Z.shiftr acc 22) /\
              0 <= snd s <= 255)
    (stores (final o)) /\
  Forall (fun s => 0 <= image_get (pixels (final o)) (fst (fst s))
                                  (snd (fst s)) <= 255)
    (stores (final o)).
Proof.
  cbv zeta.
  destruct imOut as [imOut|]; [destruct imIn as [imIn|]|];
    try (simpl; split; constructor).
  split.
  - destruct (ImagingStretch_final malloc imOut imIn filter_id)
      as [[_ E]|[Hret _]]; [rewrite E; constructor|].
    destruct (ImagingStretch_loops malloc imOut imIn filter_id Hret)
      as (filterp & Hfilter & E).
    rewrite E.
    destruct (rows_loop_extends_with
                (fun s =>
                   exists dst src filterp xx ch,
                     Some imOut = Some dst /\ Some imIn = Some src /\
                     select_filter filter_id = Some filterp /\
                     0 <= fst (fst s) < ysize dst /\
                     0 <= xx < xsize dst /\ 0 <= ch < 3 /\
                     snd (fst s) = xx * 4 + ch /\
                     let acc :=
                       chan ch (accumulators dst src filterp
                                  (fst (fst s)) xx) in
                     INT_MIN <= acc <= INT_MAX /\
                     snd s = (if 2^30 <=? acc then 255
                              else if acc <=? 0 then 0
                              else Z.shiftr acc 22) /\
                     0 <= snd s <= 255)
                (type imIn) (bands imIn) (xsize imOut) (ysize imOut)
                (accumulators imOut imIn filterp) (initial imOut))
      as (l & -> & Hl & _).
    + intros yy xx ch Hyy Hxx Hch.
      exists imOut, imIn, filterp, xx, ch. cbn [fst snd].
      repeat split; try assumption; try lia.
      * now apply accumulators_range.
      * now apply accumulators_range.
      * apply clip8_saturates.
      * apply clip8_range.
      * apply clip8_range.
    + simpl. rewrite app_nil_r. exact Hl.
  - assert (B : bytes_in_range
                  (final (ImagingStretch malloc (Some imOut) (Some imIn)
                            filter_id))).
    { destruct (ImagingStretch_final malloc imOut imIn filter_id)
        as [[_ ->]|[_ [g ->]]].
      - intros y i (v & []).
      - apply bytes_in_range_rows_loop. intros y i (v & []). }
    apply Forall_forall. intros [[y i] v] Hin. cbn [fst snd].
    apply B. now exists v.
Qed.

(** C4, as amended.  With equal modes and a supported filter: when
    neither axis size matches, the call returns the mismatch error and has
    stored nothing; when both match, the request is not refused: with
    every allocation succeeding the call returns the destination, having
    run the vertical path at scale [xsize / xsize]. *)
Theorem stretch_dimension_check imOut imIn filter_id filterp :
  mode imIn = mode imOut ->
  select_filter filter_id = Some filterp ->
  let o := ImagingStretch malloc (Some imOut) (Some imIn) filter_id in
  (xsize imIn <> xsize imOut -> ysize imIn <> ysize imOut ->
   ret o = ReturnError Mismatch /\ final o = initial imOut) /\
  (xsize imIn = xsize imOut -> ysize imIn = ysize imOut ->
   (forall n size, malloc n size = true) ->
   let scale := fdiv (f_of_int (xsize imIn)) (f_of_int (xsize imOut)) in
   let filterscale := filterscale_of scale in
   let support := fmul (support filterp) filterscale in
   ret o = ReturnImOut /\
   final o = stretch_vertical imOut imIn filterp scale filterscale support
               (initial imOut)).
Proof.
  intros Hmode Hfilter o. subst o. unfold ImagingStretch.
  rewrite Hmode, String.eqb_refl, Hfilter. cbn [negb]. split.
  - intros Hx Hy.
    destruct (Z.eqb_spec (ysize imIn) (ysize imOut)); [contradiction|].
    destruct (Z.eqb_spec (xsize imIn) (xsize imOut)); [contradiction|].
    split; reflexivity.
  - intros Hx Hy Hmalloc.
    rewrite Hx, Hy, !Z.eqb_refl. cbv zeta.
    rewrite !Hmalloc. cbn [negb]. split; reflexivity.
Qed.

(** C10.  For a valid request the call returns the destination, and:
    - every store goes to channel offset 0, 1 or 2 of a 4-byte pixel of
      the destination (never to offset 3), and a byte that is not stored
      to keeps its value;
    - with 8-bit unsigned samples and 3 bands, each of these three bytes
      of every destination pixel is stored to;
    - with any other sample type or band count, nothing is stored and
      the rows of the destination are as they were. *)
Theorem stretch_write_footprint imOut imIn filter_id :
  valid_request malloc imOut imIn filter_id ->
  let o := ImagingStretch malloc (Some imOut) (Some imIn) filter_id in
  ret o = ReturnImOut /\
  (forall y i v, In (y, i, v) (stores (final o)) ->
     0 <= y < ysize imOut /\
     exists xx ch, 0 <= xx < xsize imOut /\ 0 <= ch < 3 /\ i = xx * 4 + ch) /\
  (forall y i, ~ stored (final o) y i ->
     image_get (pixels (final o)) y i = image_get (image imOut) y i) /\
  (type imIn = IMAGING_TYPE_UINT8 -> bands imIn = 3 ->
   forall y xx ch, 0 <= y < ysize imOut -> 0 <= xx < xsize imOut ->
                   0 <= ch < 3 -> stored (final o) y (xx * 4 + ch)) /\
  (~ (type imIn = IMAGING_TYPE_UINT8 /\ bands imIn = 3) ->
   stores (final o) = [] /\ pixels (final o) = image imOut).
Proof.
  intros Hvalid o.
  pose proof (ImagingStretch_valid malloc imOut imIn filter_id Hvalid) as Hret.
  pose proof (ImagingStretch_extends malloc imOut imIn filter_id)
    as (l & Hl & Hfoot & Hframe).
  fold o in Hret, Hl, Hframe. simpl in Hl. rewrite app_nil_r in Hl.
  split; [exact Hret|]. split; [|split; [|split]].
  - intros y i v Hin. rewrite Hl in Hin.
    rewrite Forall_forall in Hfoot. specialize (Hfoot _ Hin).
    destruct Hfoot as (Hy & Hi & _). now split.
  - intros y i Hns. apply Hframe. intros v Hin. apply Hns.
    exists v. now rewrite Hl.
  - intros Ht Hb.
    destruct (ImagingStretch_final malloc imOut imIn filter_id)
      as [[Hne _]|[_ [g Hg]]]; fold o in Hne || fold o in Hg.
    + contradiction.
    + rewrite Hg, Ht, Hb. apply rows_loop_covers.
  - intros Hn.
    destruct (ImagingStretch_final malloc imOut imIn filter_id)
      as [[Hne _]|[_ [g Hg]]]; fold o in Hne || fold o in Hg.
    + contradiction.
    + rewrite Hg, rows_loop_skip by assumption. split; reflexivity.
Qed.

End Requests.

(* ------------------------------------------------------------------ *)
(** * The theorems on requests at sample inputs *)

Section Witnesses.
Import Examples.
#[local] Existing Instance IEEE.arith_no_sin.

(** A 3-band source and a 1-band destination. *)
Lemma stretch_mode_mismatch_witness :
  let imOut := grey 2 1 [[0; 0]] in
  let imIn := rgb_row in
  has_layout layout imOut /\
  has_layout layout imIn /\
  (type imIn <> type imOut \/ bands imIn <> bands imOut \/
     mode imIn <> mode imOut) /\
  let o := ImagingStretch malloc_ok (Some imOut) (Some imIn)
             IMAGING_TRANSFORM_BILINEAR in
  ret o = ReturnError ModeError /\
  stores (final o) = [] /\
  pixels (final o) = image imOut.
Proof.
  cbv zeta.
  assert (H1 : has_layout layout (grey 2 1 [[0; 0]])) by reflexivity.
  assert (H2 : has_layout layout rgb_row) by reflexivity.
  assert (H3 : type rgb_row <> type (grey 2 1 [[0; 0]]) \/
               bands rgb_row <> bands (grey 2 1 [[0; 0]]) \/
               mode rgb_row <> mode (grey 2 1 [[0; 0]]))
    by (right; left; simpl; lia).
  split; [exact H1|]. split; [exact H2|]. split; [exact H3|].
  exact (stretch_mode_mismatch malloc_ok layout (grey 2 1 [[0; 0]]) rgb_row
           IMAGING_TRANSFORM_BILINEAR H1 H2 H3).
Defined.

(** A 4 by 1 source and a 2 by 3 destination. *)
Lemma stretch_dimension_check_witness :
  let imOut := rgb 2 3 [px 0 ++ px 0; px 0 ++ px 0; px 0 ++ px 0] in
  let imIn := rgb_row in
  mode imIn = mode imOut /\
  select_filter IMAGING_TRANSFORM_BILINEAR = Some BILINEAR /\
  let o := ImagingStretch malloc_ok (Some imOut) (Some imIn)
             IMAGING_TRANSFORM_BILINEAR in
  (xsize imIn <> xsize imOut -> ysize imIn <> ysize imOut ->
   ret o = ReturnError Mismatch /\ final o = initial imOut) /\
  (xsize imIn = xsize imOut -> ysize imIn = ysize imOut ->
   (forall n size, malloc_ok n size = true) ->
   let scale := fdiv (f_of_int (xsize imIn)) (f_of_int (xsize imOut)) in
   let filterscale := filterscale_of scale in
   let support := fmul (support BILINEAR) filterscale in
   ret o = ReturnImOut /\
   final o = stretch_vertical imOut imIn BILINEAR scale filterscale support
               (initial imOut)).
Proof.
  cbv zeta.
  split; [reflexivity|]. split; [reflexivity|].
  exact (stretch_dimension_check malloc_ok
           (rgb 2 3 [px 0 ++ px 0; px 0 ++ px 0; px 0 ++ px 0])
           rgb_row IMAGING_TRANSFORM_BILINEAR BILINEAR eq_refl eq_refl).
Defined.

(** The 3-band row stretched from width 4 to width 2. *)
Lemma stretch_write_footprint_witness :
  let imOut := rgb 2 1 [px 0 ++ px 0] in
  let imIn := rgb_row in
  valid_request malloc_ok imOut imIn IMAGING_TRANSFORM_BILINEAR /\
  let o := ImagingStretch malloc_ok (Some imOut) (Some imIn)
             IMAGING_TRANSFORM_BILINEAR in
  ret o = ReturnImOut /\
  (forall y i v, In (y, i, v) (stores (final o)) ->
     0 <= y < ysize imOut /\
     exists xx ch, 0 <= xx < xsize imOut /\ 0 <= ch < 3 /\ i = xx * 4 + ch) /\
  (forall y i, ~ stored (final o) y i ->
     image_get (pixels (final o)) y i = image_get (image imOut) y i) /\
  (type imIn = IMAGING_TYPE_UINT8 -> bands imIn = 3 ->
   forall y xx ch, 0 <= y < ysize imOut -> 0 <= xx < xsize imOut ->
                   0 <= ch < 3 -> stored (final o) y (xx * 4 + ch)) /\
  (~ (type imIn = IMAGING_TYPE_UINT8 /\ bands imIn = 3) ->
   stores (final o) = [] /\ pixels (final o) = image imOut).
Proof.
  cbv zeta.
  assert (Hv : valid_request malloc_ok (rgb 2 1 [px 0 ++ px 0]) rgb_row
                 IMAGING_TRANSFORM_BILINEAR).
  { split; [reflexivity|]. split; [discriminate|].
    split; [left; reflexivity|]. reflexivity. }
  split; [exact Hv|].
  exact (stretch_write_footprint malloc_ok (rgb 2 1 [px 0 ++ px 0]) rgb_row
           IMAGING_TRANSFORM_BILINEAR Hv).
Defined.

End Witnesses.

(* ------------------------------------------------------------------ *)
(** * The sum of the fixed-point weights (C6) *)


Section ExactSums.
#[local] Existing Instance Exact.arith.



End ExactSums.
(* ------------------------------------------------------------------ *)
(** * Loops, sums and the accumulator of a window *)

Lemma accumulate_ext {A : Arith} (s1 s2 : Z -> Z -> Z) (c : coefficients) :
  (forall x ch, xmin c <= x < xmax c -> 0 <= ch < 3 ->
     UINT8 (s1 x ch) = UINT8 (s2 x ch)) ->
  accumulate s1 c = accumulate s2 c.
Proof.
  intros H. unfold accumulate. apply for_loop_ext.
  intros x [[a0 a1] a2] Hx.
  now rewrite !H by lia.
Qed.

Lemma accumulate_empty {A : Arith} (sample : Z -> Z -> Z) (c : coefficients) :
  xmax c <= xmin c ->
  accumulate sample c = (2^21, 2^21, 2^21).
Proof.
  intros H. unfold accumulate. now rewrite for_loop_empty.
Qed.

Lemma wrap_int_add_l a b : wrap_int (wrap_int a + b) = wrap_int (a + b).
Proof.
  unfold wrap_int.
  replace ((a + 2^31) mod 2^32 - 2^31 + b + 2^31)
    with ((a + 2^31) mod 2^32 + b) by lia.
  rewrite Zplus_mod_idemp_l. f_equal. f_equal. lia.
Qed.

Lemma wrap_int_add_r a b : wrap_int (a + wrap_int b) = wrap_int (a + b).
Proof. rewrite Z.add_comm, wrap_int_add_l. f_equal. lia. Qed.

(** Every accumulator is the 32-bit reduction of [2^21] plus the sum of
    its window. *)
Lemma accumulate_sum {A : Arith} (sample : Z -> Z -> Z) (c : coefficients) ch :
  0 <= ch < 3 ->
  chan ch (accumulate sample c) =
  wrap_int (2^21 + weighted_sum (fun x => sample x ch) c).
Proof.
  intros Hch. unfold accumulate, weighted_sum, for_loop.
  change (Z.shiftl 1 (PRECISION_BITS - 1)) with (2^21).
  set (w := fun x => nth (Z.to_nat (x - xmin c)) (intk c) 0).
  assert (G : forall l a0 a1 a2 b0 b1 b2,
            a0 = wrap_int b0 -> a1 = wrap_int b1 -> a2 = wrap_int b2 ->
            let t := fun ch =>
              fold_right Z.add 0
                (map (fun x => UINT8 (sample x ch) * w x) l) in
            fold_left
              (fun st x =>
                 let '(ss0, ss1, ss2) := st in
                 (int_add ss0 (int_mul (UINT8 (sample x 0)) (w x)),
                  int_add ss1 (int_mul (UINT8 (sample x 1)) (w x)),
                  int_add ss2 (int_mul (UINT8 (sample x 2)) (w x))))
              l (a0, a1, a2) =
            (wrap_int (b0 + t 0), wrap_int (b1 + t 1), wrap_int (b2 + t 2))).
  { induction l as [|x l IH]; intros a0 a1 a2 b0 b1 b2 E0 E1 E2 t.
    - subst t. simpl. rewrite !Z.add_0_r. congruence.
    - subst t. cbn [fold_left map fold_right].
      rewrite (IH _ _ _ (b0 + UINT8 (sample x 0) * w x)
                        (b1 + UINT8 (sample x 1) * w x)
                        (b2 + UINT8 (sample x 2) * w x)).
      + cbv zeta. now rewrite !Z.add_assoc.
      + subst a0. unfold int_add, int_mul.
        now rewrite wrap_int_add_l, wrap_int_add_r.
      + subst a1. unfold int_add, int_mul.
        now rewrite wrap_int_add_l, wrap_int_add_r.
      + subst a2. unfold int_add, int_mul.
        now rewrite wrap_int_add_l, wrap_int_add_r. }
  rewrite (G _ _ _ _ (2^21) (2^21) (2^21))
    by (now rewrite wrap_int_small by (pow2; lia)).
  unfold chan.
  assert (C : ch = 0 \/ ch = 1 \/ ch = 2) by lia.
  destruct C as [->|[->| ->]]; reflexivity.
Qed.

(** [clip8] in closed form. *)
Lemma clip8_clamp in_ :
  clip8 in_ = Z.max 0 (Z.min 255 (in_ / 2^22)).
Proof.
  destruct (Z_le_gt_dec in_ 0) as [H0|H0].
  - unfold clip8. change (Z.shiftl (Z.shiftl 1 PRECISION_BITS) 8) with (2^30).
    destruct (Z.geb_spec in_ (2^30)); [pow2; lia|].
    destruct (Z.leb_spec in_ 0); [|lia].
    assert (in_ / 2^22 <= 0) by (apply Z.div_le_upper_bound; pow2; lia).
    lia.
  - destruct (Z_lt_ge_dec in_ (2^30)) as [H1|H1].
    + rewrite clip8_shift by lia.
      assert (0 <= in_ / 2^22) by (apply Z.div_pos; pow2; lia).
      assert (in_ / 2^22 < 256) by (apply Z.div_lt_upper_bound; pow2; lia).
      lia.
    + unfold clip8. change (Z.shiftl (Z.shiftl 1 PRECISION_BITS) 8) with (2^30).
      destruct (Z.geb_spec in_ (2^30)); [|lia].
      assert (256 <= in_ / 2^22) by (apply Z.div_le_lower_bound; pow2; lia).
      lia.
Qed.

Lemma window_weights {A : Arith} (c : coefficients) :
  length (intk c) = Z.to_nat (xmax c - xmin c) ->
  map (fun x => nth (Z.to_nat (x - xmin c)) (intk c) 0)
      (Zrange (xmin c) (xmax c)) = intk c.
Proof.
  intros Hlen. apply nth_ext with (d := 0) (d' := 0).
  - now rewrite length_map, Zrange_length.
  - intros n Hn. rewrite length_map, Zrange_length in Hn.
    rewrite nth_indep
      with (d' := (fun x => nth (Z.to_nat (x - xmin c)) (intk c) 0) 0)
      by (rewrite length_map, Zrange_length; lia).
    rewrite (map_nth (fun x => nth (Z.to_nat (x - xmin c)) (intk c) 0)).
    rewrite nth_Zrange by lia. f_equal. lia.
Qed.

Lemma weighted_sum_between (v w : Z -> Z) lo hi l :
  (forall x, In x l -> lo <= v x <= hi /\ 0 <= w x) ->
  let S := fold_right Z.add 0 (map w l) in
  let T := fold_right Z.add 0 (map (fun x => v x * w x) l) in
  lo * S <= T <= hi * S /\ 0 <= S.
Proof.
  induction l as [|x l IH]; intros Hl; cbn [map fold_right]; [lia|].
  destruct (Hl x (or_introl eq_refl)) as [Hv Hw].
  destruct IH as [IH1 IH2]; [intros y Hy; apply Hl; now right|].
  cbv zeta in *. nia.
Qed.

(** Weights that are not negative and sum to [2^22] within 8224 units
    give a weighted mean. *)
Lemma accumulate_between {A : Arith} (sample : Z -> Z -> Z)
    (c : coefficients) ch lo hi :
  0 <= ch < 3 ->
  length (intk c) = Z.to_nat (xmax c - xmin c) ->
  Forall (fun w => 0 <= w) (intk c) ->
  Z.abs (sum_intk (intk c) - 2^22) <= 8224 ->
  0 <= lo -> hi <= 255 ->
  (forall x, xmin c <= x < xmax c -> lo <= UINT8 (sample x ch) <= hi) ->
  chan ch (accumulate sample c) =
    2^21 + weighted_sum (fun x => sample x ch) c /\
  lo <= clip8 (chan ch (accumulate sample c)) <= hi.
Proof.
  intros Hch Hlen Hnn Hsum Hlo Hhi Hs.
  rewrite accumulate_sum by assumption.
  unfold weighted_sum.
  pose proof (weighted_sum_between
                (fun x => UINT8 (sample x ch))
                (fun x => nth (Z.to_nat (x - xmin c)) (intk c) 0)
                lo hi (Zrange (xmin c) (xmax c))) as B.
  cbv zeta in B. rewrite (window_weights c Hlen) in B.
  fold (sum_intk (intk c)) in B.
  set (T := fold_right Z.add 0 _) in *.
  set (S := sum_intk (intk c)) in *.
  destruct B as [[B1 B2] B3].
  { intros x Hx. apply In_Zrange in Hx. split; [now apply Hs|].
    rewrite Forall_forall in Hnn. apply Hnn, nth_In. lia. }
  assert (Hlh : lo <= hi \/ xmax c <= xmin c).
  { destruct (Z_lt_le_dec (xmin c) (xmax c)) as [Hw|Hw]; [left|now right].
    specialize (Hs (xmin c)). lia. }
  assert (HS : 2^22 - 8224 <= S <= 2^22 + 8224) by lia.
  destruct Hlh as [Hlh|Hw].
  2:{ exfalso. unfold S in HS.
      destruct (intk c); [cbn in HS; pow2; lia|cbn in Hlen; lia]. }
  pow2.
  assert (R : 2097152 <= 2097152 + T < 2147483648) by nia.
  rewrite wrap_int_small by (pow2; lia).
  split; [reflexivity|].
  rewrite clip8_clamp. pow2.
  assert (L1 : lo <= (2097152 + T) / 4194304)
    by (apply Z.div_le_lower_bound; nia).
  assert (L2 : (2097152 + T) / 4194304 < hi + 1)
    by (apply Z.div_lt_upper_bound; nia).
  lia.
Qed.

Lemma rows_loop_store_count W H g d :
  0 <= W -> 0 <= H ->
  Z.of_nat (length (stores (rows_loop IMAGING_TYPE_UINT8 3 W H g d))) =
  Z.of_nat (length (stores d)) + 3 * W * H.
Proof.
  intros HW HH. unfold rows_loop.
  apply (for_loop_invariant
           (fun n st => Z.of_nat (length (stores st)) =
                        Z.of_nat (length (stores d)) + 3 * W * n));
    [assumption|lia|].
  intros yy st Hyy Hst. rewrite Z.eqb_refl.
  change (3 =? 4) with false. change (3 =? 3) with true. cbv iota.
  assert (G : Z.of_nat (length (stores
                (for_loop 0 W (fun xx d0 => store_pixel yy xx (g yy xx) d0)
                   st))) =
              Z.of_nat (length (stores st)) + 3 * W).
  { apply (for_loop_invariant
             (fun n st' => Z.of_nat (length (stores st')) =
                           Z.of_nat (length (stores st)) + 3 * n));
      [assumption|lia|].
    intros xx st' Hxx Hst'. destruct (g yy xx) as [[s0 s1] s2].
    unfold store_pixel, store. cbn [stores length]. lia. }
  rewrite G, Hst. lia.
Qed.

(** The stores of one destination row go to distinct places of that
    row. *)
Lemma columns_loop_distinct W yy (g : Z -> Z * Z * Z) d :
  0 <= W ->
  NoDup (map fst (stores d)) ->
  Forall (fun s => fst (fst s) < yy) (stores d) ->
  let d' := for_loop 0 W (fun xx d => store_pixel yy xx (g xx) d) d in
  NoDup (map fst (stores d')) /\
  Forall (fun s => fst (fst s) < yy + 1) (stores d').
Proof.
  intros HW Hnd Hrows d'. subst d'.
  assert (G : NoDup (map fst (stores
                (for_loop 0 W (fun xx d => store_pixel yy xx (g xx) d) d))) /\
              Forall (fun s => fst (fst s) < yy \/
                               (fst (fst s) = yy /\ snd (fst s) < 4 * W))
                (stores (for_loop 0 W
                           (fun xx d => store_pixel yy xx (g xx) d) d))).
  { apply (for_loop_invariant
             (fun m st =>
                NoDup (map fst (stores st)) /\
                Forall (fun s => fst (fst s) < yy \/
                                 (fst (fst s) = yy /\ snd (fst s) < 4 * m))
                  (stores st))); [assumption| |].
    - split; [assumption|]. eapply Forall_impl; [|exact Hrows].
      intros s Hs. now left.
    - intros xx st Hxx [Hn Hf].
      destruct (g xx) as [[s0 s1] s2].
      unfold store_pixel, store. cbn [stores map fst].
      assert (Hnew : forall i, xx * 4 <= i ->
                               ~ In (yy, i) (map fst (stores st))).
      { intros i Hi Hin. apply in_map_iff in Hin.
        destruct Hin as ([[y' i'] v'] & E & Hin). cbn [fst] in E.
        rewrite Forall_forall in Hf. specialize (Hf _ Hin).
        cbn [fst snd] in Hf. inversion E. lia. }
      split.
      + repeat constructor.
        * intros [E|[E|Hin]]; try (inversion E; lia).
          revert Hin. apply Hnew. lia.
        * intros [E|Hin]; try (inversion E; lia).
          revert Hin. apply Hnew. lia.
        * apply Hnew. lia.
        * exact Hn.
      + repeat (apply Forall_cons; [right; cbn [fst snd]; lia|]).
        eapply Forall_impl; [|exact Hf]. cbv beta. intros s Hs. lia. }
  destruct G as [G1 G2]. split; [exact G1|].
  eapply Forall_impl; [|exact G2]. cbv beta. intros s Hs. lia.
Qed.

(** The stores of the loops over the rows go to distinct places. *)
Lemma rows_loop_distinct W H g d :
  0 <= W -> 0 <= H -> stores d = [] ->
  NoDup (map fst (stores (rows_loop IMAGING_TYPE_UINT8 3 W H g d))).
Proof.
  intros HW HH Hd. unfold rows_loop.
  apply (for_loop_invariant
           (fun n st =>
              NoDup (map fst (stores st)) /\
              Forall (fun s => fst (fst s) < n) (stores st)));
    [assumption| |].
  - rewrite Hd. split; constructor.
  - intros yy st Hyy [Hn Hf]. rewrite Z.eqb_refl.
    change (3 =? 4) with false. change (3 =? 3) with true. cbv iota.
    now apply columns_loop_distinct.
Qed.

Lemma weighted_sum_ext {A : Arith} (s1 s2 : Z -> Z) (c : coefficients) :
  (forall x, xmin c <= x < xmax c -> UINT8 (s1 x) = UINT8 (s2 x)) ->
  weighted_sum s1 c = weighted_sum s2 c.
Proof.
  intros H. unfold weighted_sum. f_equal. apply map_ext_in.
  intros x Hx. apply In_Zrange in Hx. now rewrite H.
Qed.

(* ------------------------------------------------------------------ *)
(** * The coefficient lists and the stored sums, in any arithmetic *)

Section Sums.
Context {A : Arith}.
Variable malloc : nat -> Z -> bool.

(** The window lies inside the source axis, and the lists of raw,
    normalized and fixed-point weights have one entry per tap. *)
Lemma coefficients_shape filterp scale filterscale support insize xx :
  let c := compute_coefficients filterp scale filterscale support insize xx in
  0 <= xmin c /\ xmax c <= insize /\
  length (k_raw c) = Z.to_nat (xmax c - xmin c) /\
  length (k c) = Z.to_nat (xmax c - xmin c) /\
  length (intk c) = Z.to_nat (xmax c - xmin c).
Proof.
  intros c.
  pose proof (k_raw_length filterp scale filterscale support insize xx) as L.
  cbv zeta in L. fold c in L.
  split; [|split; [|split; [exact L|split]]].
  - unfold c, compute_coefficients, xmin_of. cbn [xmin].
    match goal with |- context [?a <? 0] => destruct (Z.ltb_spec a 0) end;
      lia.
  - unfold c, compute_coefficients, xmax_of. cbn [xmax].
    match goal with
    | |- context [?a >? insize] => destruct (Z.gtb_spec a insize)
    end; lia.
  - rewrite <- L. unfold c, compute_coefficients. cbn [k k_raw].
    apply length_map.
  - rewrite <- L. unfold c, compute_coefficients. cbn [intk k_raw].
    apply length_map.
Qed.

(** The byte a successful call leaves in a channel of a destination
    pixel is its clipped accumulator. *)
Lemma ImagingStretch_pixel imOut imIn filter_id filterp :
  valid_request malloc imOut imIn filter_id ->
  select_filter filter_id = Some filterp ->
  type imIn = IMAGING_TYPE_UINT8 -> bands imIn = 3 ->
  rows_fit (image imOut) (xsize imOut) (ysize imOut) ->
  forall yy xx ch,
    0 <= yy < ysize imOut -> 0 <= xx < xsize imOut -> 0 <= ch < 3 ->
    image_get
      (pixels (final (ImagingStretch malloc (Some imOut) (Some imIn)
                        filter_id)))
      yy (xx * 4 + ch) =
    clip8 (chan ch (accumulators imOut imIn filterp yy xx)).
Proof.
  intros Hvalid Hfilter Ht Hb Hfit yy xx ch Hyy Hxx Hch.
  now rewrite (ImagingStretch_slots malloc imOut imIn filter_id filterp).
Qed.

(** With one axis stretched and a window of at most [kmax] taps, the
    accumulators of a pixel are those of the coefficients of its own
    index, on either path. *)
Lemma accumulators_fit imOut imIn filterp yy xx :
  ysize imIn = ysize imOut \/ xsize imIn = xsize imOut ->
  xsize imIn <> xsize imOut \/ ysize imIn <> ysize imOut ->
  0 <= xx < xsize imOut ->
  xmax (pixel_coefficients imOut imIn filterp yy xx)
  - xmin (pixel_coefficients imOut imIn filterp yy xx)
  <= pixel_kmax imOut imIn filterp ->
  accumulators imOut imIn filterp yy xx =
  accumulate (pixel_sample imOut imIn yy xx)
    (pixel_coefficients imOut imIn filterp yy xx).
Proof.
  unfold accumulators, pixel_coefficients, pixel_kmax, pixel_sample,
    row_coefficients, row_kmax.
  intros Hsize Hdiff Hxx Hk.
  destruct (Z.eqb_spec (xsize imIn) (xsize imOut)) as [Ex|Ex].
  - destruct (Z.eqb_spec (ysize imIn) (ysize imOut)) as [Ey|Ey];
      [destruct Hdiff; contradiction|].
    reflexivity.
  - destruct (Z.eqb_spec (ysize imIn) (ysize imOut)) as [Ey|Ey];
      [|destruct Hsize; contradiction].
    cbv zeta. rewrite accumulate_column_fits; [reflexivity|assumption|lia].
Qed.

(** The sum behind a stored byte. *)
Lemma stretch_pixel_sum imOut imIn filter_id filterp :
  valid_request malloc imOut imIn filter_id ->
  select_filter filter_id = Some filterp ->
  type imIn = IMAGING_TYPE_UINT8 -> bands imIn = 3 ->
  rows_fit (image imOut) (xsize imOut) (ysize imOut) ->
  xsize imIn <> xsize imOut \/ ysize imIn <> ysize imOut ->
  forall yy xx ch,
    0 <= yy < ysize imOut -> 0 <= xx < xsize imOut -> 0 <= ch < 3 ->
    xmax (pixel_coefficients imOut imIn filterp yy xx)
    - xmin (pixel_coefficients imOut imIn filterp yy xx)
    <= pixel_kmax imOut imIn filterp ->
    image_get
      (pixels (final (ImagingStretch malloc (Some imOut) (Some imIn)
                        filter_id)))
      yy (xx * 4 + ch) =
    clip8 (wrap_int
      (2^21 + weighted_sum (fun t => pixel_sample imOut imIn yy xx t ch)
                (pixel_coefficients imOut imIn filterp yy xx))).
Proof.
  intros Hvalid Hfilter Ht Hb Hfit Hdiff yy xx ch Hyy Hxx Hch Hk.
  rewrite (ImagingStretch_pixel imOut imIn filter_id filterp)
    by assumption.
  rewrite accumulators_fit; try assumption.
  - now rewrite accumulate_sum.
  - now destruct Hvalid as (_ & _ & Hsize & _).
Qed.

End Sums.
(* ------------------------------------------------------------------ *)
(** * Further properties: the outcome of a call, in any arithmetic *)

Section Outcomes.
Context {A : Arith}.
Variable malloc : nat -> Z -> bool.

(** X1.  A call that does not return the destination has not touched
    it: whatever the reason of the failure (modes, filter, sizes or an
    allocation), no store was made and every row is as it was. *)
Theorem stretch_failure_is_clean imOut imIn filter_id :
  let o := ImagingStretch malloc (Some imOut) (Some imIn) filter_id in
  ret o <> ReturnImOut ->
  stores (final o) = [] /\ pixels (final o) = image imOut.
Proof.
  intros o Hne. subst o.
  destruct (ImagingStretch_final malloc imOut imIn filter_id)
    as [[_ ->]|[E _]]; [split; reflexivity|contradiction].
Qed.

(** X2.  With equal modes, a filter identifier other than the four
    known ones is refused with the value error before the sizes are
    looked at, and the destination is untouched. *)
Theorem stretch_unsupported_filter imOut imIn filter_id :
  mode imIn = mode imOut ->
  filter_id < 0 \/ 3 < filter_id ->
  ImagingStretch malloc (Some imOut) (Some imIn) filter_id =
  {| ret := ReturnError ValueError; final := initial imOut |}.
Proof.
  intros Hmode Hf. unfold ImagingStretch.
  rewrite Hmode, String.eqb_refl. cbn [negb].
  unfold select_filter, IMAGING_TRANSFORM_NEAREST,
    IMAGING_TRANSFORM_ANTIALIAS, IMAGING_TRANSFORM_BILINEAR,
    IMAGING_TRANSFORM_BICUBIC.
  destruct (Z.eqb_spec filter_id 0); [lia|].
  destruct (Z.eqb_spec filter_id 1); [lia|].
  destruct (Z.eqb_spec filter_id 2); [lia|].
  destruct (Z.eqb_spec filter_id 3); [lia|].
  reflexivity.
Qed.

(** X3.  When the first or the second allocation of a path fails, the
    call returns the memory error and the destination is untouched. *)
Theorem stretch_out_of_memory imOut imIn filter_id :
  mode imIn = mode imOut ->
  select_filter filter_id <> None ->
  ysize imIn = ysize imOut \/ xsize imIn = xsize imOut ->
  (forall size, malloc 0 size = false) \/
  (forall size, malloc 1 size = false) ->
  ImagingStretch malloc (Some imOut) (Some imIn) filter_id =
  {| ret := ReturnError MemoryError; final := initial imOut |}.
Proof.
  intros Hmode Hfilter Hsize Hfail. unfold ImagingStretch.
  rewrite Hmode, String.eqb_refl. cbn [negb].
  destruct (select_filter filter_id) as [filterp|]; [|congruence].
  destruct (Z.eqb_spec (ysize imIn) (ysize imOut)) as [Ey|Ey].
  - cbv zeta.
    destruct Hfail as [F|F]; rewrite ?F; cbn [negb];
      destruct (xsize imIn =? xsize imOut); try reflexivity;
      match goal with
      | |- context [negb (malloc 0%nat ?z)] => destruct (malloc 0%nat z)
      end; reflexivity.
  - destruct (Z.eqb_spec (xsize imIn) (xsize imOut)) as [Ex|Ex];
      [|destruct Hsize; contradiction].
    cbv zeta.
    destruct Hfail as [F|F]; rewrite ?F; cbn [negb]; try reflexivity.
    match goal with
    | |- context [negb (malloc 0%nat ?z)] => destruct (malloc 0%nat z)
    end; reflexivity.
Qed.

(** X4.  On the horizontal path the third allocation, the table of
    window bounds, is checked differently from the first two: when it
    fails the call returns [NULL] without raising any error.  The
    destination is untouched. *)
Theorem stretch_bounds_table_not_allocated imOut imIn filter_id :
  mode imIn = mode imOut ->
  select_filter filter_id <> None ->
  ysize imIn = ysize imOut ->
  xsize imIn <> xsize imOut ->
  (forall size, malloc 0 size = true) ->
  (forall size, malloc 1 size = true) ->
  (forall size, malloc 2 size = false) ->
  let o := ImagingStretch malloc (Some imOut) (Some imIn) filter_id in
  o = {| ret := ReturnNull; final := initial imOut |} /\ ~ rejected o.
Proof.
  intros Hmode Hfilter Ey Ex M0 M1 M2 o.
  assert (E : o = {| ret := ReturnNull; final := initial imOut |}).
  { subst o. unfold ImagingStretch.
    rewrite Hmode, String.eqb_refl. cbn [negb].
    destruct (select_filter filter_id) as [filterp|]; [|congruence].
    rewrite Ey, Z.eqb_refl. cbv zeta.
    destruct (Z.eqb_spec (xsize imIn) (xsize imOut)); [contradiction|].
    rewrite M0, M1, M2. reflexivity. }
  split; [exact E|]. rewrite E. intros [e He]. discriminate.
Qed.

End Outcomes.
(* ------------------------------------------------------------------ *)
(** * Further properties: what a call reads and writes, in any
      arithmetic *)

Section ReadsAndWrites.
Context {A : Arith}.
Variable malloc : nat -> Z -> bool.

(** X5.  In any arithmetic, every tap [x] the inner loops visit is an
    index of the source axis: the window computed for a destination
    index lies inside the source, and so does the window the horizontal
    path reads back from [xbounds].  The loops read no sample outside
    the source. *)
Theorem window_within_source filterp scale filterscale support insize
    kmax outsize xx x :
  let c := compute_coefficients filterp scale filterscale support insize xx in
  let t := coefficient_tables filterp scale filterscale support insize
             kmax outsize in
  0 <= xx < outsize ->
  xmin c <= x < xmax c \/
  xbounds t (xx * 2 + 0) <= x < xbounds t (xx * 2 + 1) ->
  0 <= x < insize.
Proof.
  intros c t Hxx Hx.
  pose proof (coefficients_shape filterp scale filterscale support insize xx)
    as (W1 & W2 & _).
  cbv zeta in W1, W2. fold c in W1, W2.
  destruct (coefficient_tables_xbounds filterp scale filterscale support
              insize kmax outsize xx Hxx) as [E0 E1].
  fold t in E0, E1. fold c in E0, E1. rewrite E0, E1 in Hx.
  destruct Hx; lia.
Qed.

(** X6.  A call reads nothing of the source but its header fields and
    the three channel bytes of the pixels inside the image: two sources
    that agree there give the same return value, the same stores and the
    same destination.  The fourth byte of a source pixel is never
    read. *)
Theorem stretch_reads_channel_samples imOut im1 im2 filter_id :
  same_samples im1 im2 ->
  ImagingStretch malloc (Some imOut) (Some im1) filter_id =
  ImagingStretch malloc (Some imOut) (Some im2) filter_id.
Proof.
  intros (Hm & Ht & Hb & Hx & Hy & Hs).
  unfold ImagingStretch. rewrite <- Hm, <- Hx, <- Hy.
  destruct (negb (String.eqb (mode im1) (mode imOut))); [reflexivity|].
  destruct (select_filter filter_id) as [filterp|]; [|reflexivity].
  assert (V : forall scale filterscale support d,
            xsize im1 = xsize imOut ->
            stretch_vertical imOut im1 filterp scale filterscale support d =
            stretch_vertical imOut im2 filterp scale filterscale support d).
  { intros scale filterscale support d Ex.
    unfold stretch_vertical. rewrite <- Ht, <- Hb, <- Hy.
    apply for_loop_ext. intros yy st Hyy.
    destruct (type im1 =? IMAGING_TYPE_UINT8); [|reflexivity].
    destruct (bands im1 =? 4); [reflexivity|].
    destruct (bands im1 =? 3); [|reflexivity].
    apply for_loop_ext. intros xx st' Hxx. f_equal.
    apply accumulate_ext. intros y ch Hyw Hch.
    pose proof (coefficients_shape filterp scale filterscale support
                  (ysize im1) yy) as (W1 & W2 & _).
    apply Hs; lia. }
  assert (Hh : forall scale filterscale support kmax d,
            ysize im1 = ysize imOut ->
            stretch_horizontal imOut im1 filterp scale filterscale support
              kmax d =
            stretch_horizontal imOut im2 filterp scale filterscale support
              kmax d).
  { intros scale filterscale support kmax d Ey.
    rewrite !stretch_horizontal_rows. rewrite <- Ht, <- Hb, <- Hx.
    unfold rows_loop.
    apply for_loop_ext. intros yy st Hyy.
    destruct (type im1 =? IMAGING_TYPE_UINT8); [|reflexivity].
    destruct (bands im1 =? 4); [reflexivity|].
    destruct (bands im1 =? 3); [|reflexivity].
    apply for_loop_ext. intros xx st' Hxx. f_equal.
    apply accumulate_column_ext. intros x ch Hxw Hch.
    destruct (coefficient_tables_xbounds filterp scale filterscale support
                (xsize im1) kmax (xsize imOut) xx Hxx) as [E0 E1].
    rewrite E0, E1 in Hxw.
    pose proof (coefficients_shape filterp scale filterscale support
                  (xsize im1) xx) as (W1 & W2 & _).
    apply Hs; lia. }
  destruct (Z.eqb_spec (ysize im1) (ysize imOut)) as [Ey|Ey].
  - cbv zeta.
    destruct (Z.eqb_spec (xsize im1) (xsize imOut)) as [Ex|Ex].
    + now rewrite V.
    + now rewrite Hh.
  - destruct (Z.eqb_spec (xsize im1) (xsize imOut)) as [Ex|Ex];
      [|reflexivity].
    cbv zeta. now rewrite V.
Qed.

(** X7.  The destination is written, never read: after a successful
    call on 8-bit samples in 3 bands the channel bytes of the
    destination do not depend on what the destination held before. *)
Theorem stretch_ignores_destination imOut1 imOut2 imIn filter_id :
  valid_request malloc imOut1 imIn filter_id ->
  mode imOut2 = mode imOut1 ->
  xsize imOut2 = xsize imOut1 -> ysize imOut2 = ysize imOut1 ->
  type imIn = IMAGING_TYPE_UINT8 -> bands imIn = 3 ->
  rows_fit (image imOut1) (xsize imOut1) (ysize imOut1) ->
  rows_fit (image imOut2) (xsize imOut2) (ysize imOut2) ->
  forall yy xx ch,
    0 <= yy < ysize imOut1 -> 0 <= xx < xsize imOut1 -> 0 <= ch < 3 ->
    image_get
      (pixels (final (ImagingStretch malloc (Some imOut2) (Some imIn)
                        filter_id)))
      yy (xx * 4 + ch) =
    image_get
      (pixels (final (ImagingStretch malloc (Some imOut1) (Some imIn)
                        filter_id)))
      yy (xx * 4 + ch).
Proof.
  intros Hvalid Hm Hx Hy Ht Hb Hfit1 Hfit2 yy xx ch Hyy Hxx Hch.
  assert (Hvalid2 : valid_request malloc imOut2 imIn filter_id).
  { destruct Hvalid as (V1 & V2 & V3 & V4).
    repeat split; try assumption; congruence. }
  destruct (select_filter filter_id) as [filterp|] eqn:Hfilter.
  2:{ destruct Hvalid as (_ & Hf & _). congruence. }
  rewrite (ImagingStretch_pixel malloc imOut1 imIn filter_id filterp)
    by assumption.
  rewrite (ImagingStretch_pixel malloc imOut2 imIn filter_id filterp)
    by (try assumption; lia).
  unfold accumulators. now rewrite Hx, Hy.
Qed.

(** X8.  A successful call on 8-bit samples in 3 bands writes each of
    the three channel bytes of every destination pixel exactly once: no
    two stores go to the same place, there are three stores per pixel,
    and every channel byte is stored to. *)
Theorem stretch_writes_each_byte_once imOut imIn filter_id :
  valid_request malloc imOut imIn filter_id ->
  type imIn = IMAGING_TYPE_UINT8 -> bands imIn = 3 ->
  0 <= xsize imOut -> 0 <= ysize imOut ->
  let o := ImagingStretch malloc (Some imOut) (Some imIn) filter_id in
  NoDup (map fst (stores (final o))) /\
  Z.of_nat (length (stores (final o))) = 3 * xsize imOut * ysize imOut /\
  forall y xx ch,
    0 <= y < ysize imOut -> 0 <= xx < xsize imOut -> 0 <= ch < 3 ->
    stored (final o) y (xx * 4 + ch).
Proof.
  intros Hvalid Ht Hb HW HH o. subst o.
  pose proof (ImagingStretch_valid malloc imOut imIn filter_id Hvalid) as Hret.
  destruct (ImagingStretch_final malloc imOut imIn filter_id)
    as [[Hne _]|[_ [g Hg]]]; [contradiction|].
  rewrite Hg, Ht, Hb. split; [|split].
  - now apply rows_loop_distinct.
  - now rewrite rows_loop_store_count.
  - apply rows_loop_covers.
Qed.

(** X9.  The value of a stretched sample, 8-bit samples in 3 bands, one
    axis stretched, at a destination pixel whose window has at most
    [kmax] taps: channel [ch] of destination pixel [xx] of row [yy] is
    [clip8] of the 32-bit reduction of [2^21] plus the weighted sum of
    the source samples of that channel over the window, taken along
    column [xx] with the weights of row [yy] on the vertical path and
    along row [yy] with the weights of column [xx] on the horizontal
    path. *)
Theorem stretch_sample_value imOut imIn filter_id filterp :
  valid_request malloc imOut imIn filter_id ->
  select_filter filter_id = Some filterp ->
  type imIn = IMAGING_TYPE_UINT8 -> bands imIn = 3 ->
  rows_fit (image imOut) (xsize imOut) (ysize imOut) ->
  xsize imIn <> xsize imOut \/ ysize imIn <> ysize imOut ->
  forall yy xx ch,
    0 <= yy < ysize imOut -> 0 <= xx < xsize imOut -> 0 <= ch < 3 ->
    let c := pixel_coefficients imOut imIn filterp yy xx in
    xmax c - xmin c <= pixel_kmax imOut imIn filterp ->
    image_get
      (pixels (final (ImagingStretch malloc (Some imOut) (Some imIn)
                        filter_id)))
      yy (xx * 4 + ch) =
    clip8 (wrap_int
      (2^21 + weighted_sum (fun t => pixel_sample imOut imIn yy xx t ch) c)).
Proof.
  intros Hvalid Hfilter Ht Hb Hfit Hdiff yy xx ch Hyy Hxx Hch c Hk.
  now apply stretch_pixel_sum.
Qed.

(** X10.  The two paths compute the same one-dimensional filter: at a
    destination pixel whose window has at most [kmax] taps, a horizontal
    stretch of an image and the vertical stretch of the image with rows
    and columns exchanged give the same sample, rows and columns
    exchanged. *)
Theorem stretch_paths_agree imOut imIn imOutT imInT filter_id filterp :
  valid_request malloc imOut imIn filter_id ->
  valid_request malloc imOutT imInT filter_id ->
  select_filter filter_id = Some filterp ->
  type imIn = IMAGING_TYPE_UINT8 -> bands imIn = 3 ->
  transposed imIn imInT ->
  xsize imOutT = ysize imOut -> ysize imOutT = xsize imOut ->
  rows_fit (image imOut) (xsize imOut) (ysize imOut) ->
  rows_fit (image imOutT) (xsize imOutT) (ysize imOutT) ->
  ysize imIn = ysize imOut -> xsize imIn <> xsize imOut ->
  forall yy xx ch,
    0 <= yy < ysize imOut -> 0 <= xx < xsize imOut -> 0 <= ch < 3 ->
    let c := row_coefficients filterp (xsize imIn) (xsize imOut) xx in
    xmax c - xmin c <= row_kmax filterp (xsize imIn) (xsize imOut) ->
    image_get
      (pixels (final (ImagingStretch malloc (Some imOutT) (Some imInT)
                        filter_id)))
      xx (yy * 4 + ch) =
    image_get
      (pixels (final (ImagingStretch malloc (Some imOut) (Some imIn)
                        filter_id)))
      yy (xx * 4 + ch).
Proof.
  intros Hv HvT Hfilter Ht Hb (Tt & Tb & Tx & Ty & Ts) Ox Oy Hfit HfitT
         Ey Ex yy xx ch Hyy Hxx Hch c Hk.
  assert (P : pixel_coefficients imOut imIn filterp yy xx = c).
  { unfold pixel_coefficients.
    now destruct (Z.eqb_spec (xsize imIn) (xsize imOut)). }
  assert (PT : pixel_coefficients imOutT imInT filterp xx yy = c).
  { unfold pixel_coefficients. rewrite Tx, Ox, Ey, Z.eqb_refl.
    now rewrite Ty, Oy. }
  assert (K : pixel_kmax imOut imIn filterp =
              row_kmax filterp (xsize imIn) (xsize imOut)).
  { unfold pixel_kmax.
    now destruct (Z.eqb_spec (xsize imIn) (xsize imOut)). }
  assert (KT : pixel_kmax imOutT imInT filterp =
               row_kmax filterp (xsize imIn) (xsize imOut)).
  { unfold pixel_kmax. rewrite Tx, Ox, Ey, Z.eqb_refl.
    now rewrite Ty, Oy. }
  assert (HfilterT : type imInT = IMAGING_TYPE_UINT8 /\ bands imInT = 3)
    by (split; congruence).
  destruct HfilterT as [HtT HbT].
  assert (Hk1 : xmax (pixel_coefficients imOut imIn filterp yy xx)
                - xmin (pixel_coefficients imOut imIn filterp yy xx)
                <= pixel_kmax imOut imIn filterp)
    by (rewrite P, K; exact Hk).
  assert (Hk2 : xmax (pixel_coefficients imOutT imInT filterp xx yy)
                - xmin (pixel_coefficients imOutT imInT filterp xx yy)
                <= pixel_kmax imOutT imInT filterp)
    by (rewrite PT, KT; exact Hk).
  rewrite (stretch_pixel_sum malloc imOut imIn filter_id filterp
             Hv Hfilter Ht Hb Hfit (or_introl Ex) yy xx ch Hyy Hxx Hch Hk1).
  assert (ExT : ysize imInT <> ysize imOutT) by lia.
  rewrite (stretch_pixel_sum malloc imOutT imInT filter_id filterp
             HvT Hfilter HtT HbT HfitT (or_intror ExT) xx yy ch
             ltac:(lia) ltac:(lia) Hch Hk2).
  rewrite P, PT.
  f_equal. f_equal. f_equal. apply weighted_sum_ext. intros x Hx.
  pose proof (coefficients_shape filterp
                (fdiv (f_of_int (xsize imIn)) (f_of_int (xsize imOut)))
                (filterscale_of
                   (fdiv (f_of_int (xsize imIn)) (f_of_int (xsize imOut))))
                (fmul (support filterp)
                   (filterscale_of
                      (fdiv (f_of_int (xsize imIn)) (f_of_int (xsize imOut)))))
                (xsize imIn) xx) as (W1 & W2 & _).
  unfold c, row_coefficients in Hx.
  unfold pixel_sample. rewrite Tx, Ox, Ey, Z.eqb_refl.
  destruct (Z.eqb_spec (xsize imIn) (xsize imOut)); [contradiction|].
  apply Ts; lia.
Qed.

(** X11.  A source whose stretched axis has no sample: every window is
    empty in any arithmetic, the accumulators keep their initial value
    and every channel byte of the destination is set to 0. *)
Theorem stretch_empty_source imOut imIn filter_id :
  valid_request malloc imOut imIn filter_id ->
  type imIn = IMAGING_TYPE_UINT8 -> bands imIn = 3 ->
  rows_fit (image imOut) (xsize imOut) (ysize imOut) ->
  (xsize imIn = xsize imOut /\ ysize imIn <= 0) \/
  (xsize imIn <> xsize imOut /\ xsize imIn <= 0) ->
  forall yy xx ch,
    0 <= yy < ysize imOut -> 0 <= xx < xsize imOut -> 0 <= ch < 3 ->
    image_get
      (pixels (final (ImagingStretch malloc (Some imOut) (Some imIn)
                        filter_id)))
      yy (xx * 4 + ch) = 0.
Proof.
  intros Hv Ht Hb Hfit Hempty yy xx ch Hyy Hxx Hch.
  destruct (select_filter filter_id) as [filterp|] eqn:Hfilter.
  2:{ destruct Hv as (_ & Hf & _). congruence. }
  rewrite (ImagingStretch_slots malloc imOut imIn filter_id filterp)
    by assumption.
  assert (Z0 : clip8 (chan ch (2^21, 2^21, 2^21)) = 0).
  { unfold chan. destruct (ch =? 0), (ch =? 1); reflexivity. }
  destruct Hempty as [[Ex He]|[Ex He]].
  - destruct (Z.eqb_spec (xsize imIn) (xsize imOut)); [|contradiction].
    rewrite accumulate_empty; [exact Z0|].
    match goal with
    | |- xmax (compute_coefficients ?f ?s ?fs ?su ?n ?i) <= _ =>
      pose proof (coefficients_shape f s fs su n i) as (W1 & W2 & _)
    end.
    cbv zeta in W1, W2. lia.
  - destruct (Z.eqb_spec (xsize imIn) (xsize imOut)); [contradiction|].
    match goal with
    | |- context [coefficient_tables ?f ?s ?fs ?su ?n ?q ?w] =>
      pose proof (coefficients_shape f s fs su n xx) as (W1 & W2 & _);
      rewrite (accumulate_column_fits f s fs su n q)
    end; [|assumption|cbv zeta in W1, W2; lia].
    rewrite accumulate_empty; [exact Z0|].
    cbv zeta in W1, W2. lia.
Qed.


(** X29.  The horizontal path gives every destination column [kmax]
    slots of [intkk].  When the window of column [xx] has [kmax + 1]
    taps, its last weight lands in the first slot of column [xx + 1],
    which is overwritten when that column is computed: for its last tap
    the loop over the pixels reads the first weight of column [xx + 1],
    and the accumulators of the column are those of its window with the
    last weight replaced by that one. *)
Theorem coefficient_slots_overrun filterp scale filterscale support insize
    kmax outsize xx sample :
  let c := compute_coefficients filterp scale filterscale support insize xx in
  let next :=
    compute_coefficients filterp scale filterscale support insize (xx + 1) in
  let t := coefficient_tables filterp scale filterscale support insize
             kmax outsize in
  0 <= xx -> xx + 1 < outsize ->
  0 < kmax -> xmax c - xmin c = kmax + 1 ->
  xmin next < xmax next ->
  intkk t (xx * kmax + kmax) = nth 0 (intk next) 0 /\
  accumulate_column sample t kmax xx =
  accumulate sample
    {| xmin := xmin c; xmax := xmax c; k_raw := k_raw c; ww := ww c;
       k := k c;
       intk := firstn (Z.to_nat kmax) (intk c) ++ [nth 0 (intk next) 0] |}.
Proof.
  intros c next t Hxx Hnext Hk Htaps Hne.
  assert (Hslot : intkk t (xx * kmax + kmax) = nth 0 (intk next) 0).
  { replace (xx * kmax + kmax) with ((xx + 1) * kmax + 0) by lia.
    subst next t.
    apply (coefficient_tables_intkk filterp scale filterscale support insize
             kmax outsize (xx + 1) 0); lia. }
  split; [exact Hslot|].
  pose proof (coefficients_shape filterp scale filterscale support insize xx)
    as (_ & _ & _ & _ & L).
  cbv zeta in L. fold c in L.
  assert (Lf : length (firstn (Z.to_nat kmax) (intk c)) = Z.to_nat kmax)
    by (rewrite length_firstn, L; lia).
  destruct (coefficient_tables_xbounds filterp scale filterscale support
              insize kmax outsize xx ltac:(lia)) as [E0 E1].
  fold t in E0, E1. fold c in E0, E1.
  unfold accumulate_column, accumulate. cbn [xmin xmax intk].
  rewrite E0, E1. apply for_loop_ext. intros x [[a0 a1] a2] Hx.
  assert (W : intkk t (xx * kmax + (x - xmin c)) =
              nth (Z.to_nat (x - xmin c))
                (firstn (Z.to_nat kmax) (intk c) ++ [nth 0 (intk next) 0]) 0).
  { destruct (Z_lt_ge_dec (x - xmin c) kmax) as [Hl|Hg].
    - rewrite app_nth1 by lia.
      subst t.
      rewrite (coefficient_tables_intkk filterp scale filterscale support
                 insize kmax outsize xx (x - xmin c)) by (fold c; lia).
      fold c. clear - Hl Hx.
      assert (G : forall (l : list Z) n i, (i < n)%nat ->
                    nth i (firstn n l) 0 = nth i l 0).
      { induction l as [|v l IH]; intros [|n] [|i] Hi; simpl;
          try reflexivity; try lia. apply IH. lia. }
      symmetry. apply G. lia.
    - replace (x - xmin c) with kmax by lia.
      rewrite Hslot, app_nth2 by lia.
      now rewrite Lf, Nat.sub_diag. }
  now rewrite W.
Qed.

End ReadsAndWrites.
(* ------------------------------------------------------------------ *)
(** * Further properties: the fixed-point conversion *)

(** X13.  [clip8] is a saturating shift: for every [int] it returns the
    accumulator divided by [2^22], rounded down and limited to
    [0, 255], so the cast to [UINT8] never drops a bit that is set; and
    it is monotone. *)
Theorem clip8_saturating_shift in_ :
  clip8 in_ = Z.max 0 (Z.min 255 (in_ / 2^22)) /\
  forall b, in_ <= b -> clip8 in_ <= clip8 b.
Proof.
  split; [apply clip8_clamp|].
  intros b Hb. rewrite !clip8_clamp.
  pose proof (Z.div_le_mono in_ b (2^22) ltac:(pow2; lia) Hb). lia.
Qed.

(** X14.  The accumulators start at [2^21], half a unit of the
    fixed-point scale, so that the shift rounds to the nearest byte: a
    byte [v] scaled by [2^22] and off by less than half a unit is
    converted back to [v]. *)
Theorem clip8_rounds_to_nearest v e :
  0 <= v <= 255 -> - 2^21 <= e < 2^21 ->
  clip8 (2^21 + (v * 2^22 + e)) = v.
Proof.
  intros Hv He. rewrite clip8_clamp.
  replace (2^21 + (v * 2^22 + e)) with (v * 2^22 + (2^21 + e)) by lia.
  rewrite Z.div_add_l by (pow2; lia).
  rewrite (Z.div_small (2^21 + e)) by (pow2; lia). lia.
Qed.

Lemma clip8_rounds_to_nearest_witness :
  0 <= 200 <= 255 /\ - 2^21 <= -2097152 < 2^21 /\
  clip8 (2^21 + (200 * 2^22 + -2097152)) = 200.
Proof.
  assert (H1 : 0 <= 200 <= 255) by lia.
  assert (H2 : - 2^21 <= -2097152 < 2^21) by (pow2; lia).
  split; [exact H1|]. split; [exact H2|].
  exact (clip8_rounds_to_nearest 200 (-2097152) H1 H2).
Defined.

(* ------------------------------------------------------------------ *)
(** * Further properties: small images in binary32

    The statements of this part are about the code as it runs, in
    binary32 and binary64; they are checked by evaluating every row of
    every stretch between axes of at most 12 samples, and hold for every
    content of the images. *)

Lemma all_rows_spec P n s d i :
  SmallAxes.all_rows P n = true ->
  1 <= s <= n -> 1 <= d <= n -> 0 <= i < d -> P s d i = true.
Proof.
  intros G Hs Hd Hi. unfold SmallAxes.all_rows in G.
  rewrite forallb_forall in G.
  specialize (G s (proj2 (In_Zrange 1 (n + 1) s) ltac:(lia))).
  rewrite forallb_forall in G.
  specialize (G d (proj2 (In_Zrange 1 (n + 1) d) ltac:(lia))).
  rewrite forallb_forall in G.
  apply G, In_Zrange. lia.
Qed.

Lemma list_eqb_eq a b : SmallAxes.list_eqb a b = true -> a = b.
Proof.
  revert b. induction a as [|x a IH]; intros [|y b] H;
    try discriminate; [reflexivity|].
  cbn in H. apply andb_prop in H. destruct H as [H1 H2].
  apply Z.eqb_eq in H1. subst. f_equal. now apply IH.
Qed.

Lemma row_is_mean_spec r :
  SmallAxes.row_is_mean r = true ->
  Forall (fun w => 0 <= w) (intk r) /\
  Z.abs (sum_intk (intk r) - 2^22) <= 8224.
Proof.
  unfold SmallAxes.row_is_mean. intros H.
  apply andb_prop in H. destruct H as [H1 H2]. split.
  - rewrite forallb_forall in H1. apply Forall_forall.
    intros w Hw. apply Z.leb_le. now apply H1.
  - now apply Z.leb_le.
Qed.

Lemma row_is_one_hot_spec t r :
  SmallAxes.row_is_one_hot t r = true ->
  xmin r <= t < xmax r /\ intk r = one_hot t (xmin r) (xmax r).
Proof.
  unfold SmallAxes.row_is_one_hot. intros H.
  apply andb_prop in H. destruct H as [H H3].
  apply andb_prop in H. destruct H as [H1 H2].
  apply Z.leb_le in H1. apply Z.ltb_lt in H2.
  split; [lia|]. now apply list_eqb_eq.
Qed.

Lemma means_checked_spec n filterp s d i :
  SmallAxes.means_checked n = true ->
  In filterp [@NEAREST IEEE.arith_no_sin; BILINEAR; BICUBIC] ->
  1 <= s <= n -> 1 <= d <= n -> 0 <= i < d ->
  Forall (fun w => 0 <= w) (intk (row_coefficients filterp s d i)) /\
  Z.abs (sum_intk (intk (row_coefficients filterp s d i)) - 2^22) <= 8224.
Proof.
  intros G Hin Hs Hd Hi. unfold SmallAxes.means_checked in G.
  rewrite forallb_forall in G. specialize (G _ Hin).
  pose proof (all_rows_spec _ _ s d i G Hs Hd Hi) as R.
  cbv beta in R. now apply row_is_mean_spec.
Qed.

Lemma copies_checked_spec n filterp s i :
  SmallAxes.copies_checked n = true ->
  In filterp [@NEAREST IEEE.arith_no_sin; BILINEAR] ->
  1 <= s <= n -> 0 <= i < s ->
  xmin (row_coefficients filterp s s i) <= i
    < xmax (row_coefficients filterp s s i) /\
  intk (row_coefficients filterp s s i) =
  one_hot i (xmin (row_coefficients filterp s s i))
    (xmax (row_coefficients filterp s s i)).
Proof.
  intros G Hin Hs Hi. unfold SmallAxes.copies_checked in G.
  rewrite forallb_forall in G. specialize (G _ Hin).
  rewrite forallb_forall in G.
  specialize (G s (proj2 (In_Zrange 1 (n + 1) s) ltac:(lia))).
  rewrite forallb_forall in G.
  specialize (G i (proj2 (In_Zrange 0 s i) ltac:(lia))).
  now apply row_is_one_hot_spec.
Qed.

Lemma enlarging_checked_spec n s d i :
  SmallAxes.enlarging_checked n = true ->
  1 <= s <= d -> d <= n -> 0 <= i < d ->
  xmin (row_coefficients (@NEAREST IEEE.arith_no_sin) s d i)
    <= central_index s d i
    < xmax (row_coefficients (@NEAREST IEEE.arith_no_sin) s d i) /\
  intk (row_coefficients (@NEAREST IEEE.arith_no_sin) s d i) =
  one_hot (central_index s d i)
    (xmin (row_coefficients (@NEAREST IEEE.arith_no_sin) s d i))
    (xmax (row_coefficients (@NEAREST IEEE.arith_no_sin) s d i)).
Proof.
  intros G Hs Hd Hi. unfold SmallAxes.enlarging_checked in G.
  pose proof (all_rows_spec _ _ s d i G ltac:(lia) ltac:(lia) Hi) as R.
  cbv beta in R. destruct (Z.leb_spec s d); [|lia].
  now apply row_is_one_hot_spec.
Qed.

Lemma central_index_same n i :
  1 <= n -> 0 <= i < n -> central_index n n i = i.
Proof.
  intros Hn Hi. unfold central_index.
  symmetry. apply (Z.div_unique _ _ i (n - 1)); lia.
Qed.

Lemma boxes_checked_spec n m d i :
  SmallAxes.boxes_checked n = true ->
  1 <= m -> 1 <= d -> m * d <= n -> 0 <= i < d ->
  let r := row_coefficients (@NEAREST IEEE.arith_no_sin) (m * d) d i in
  xmin r = i * m /\ xmax r = (i + 1) * m /\
  intk r = repeat (2^22 / m) (Z.to_nat m).
Proof.
  intros G Hm Hd Hmd Hi r. unfold SmallAxes.boxes_checked in G.
  rewrite forallb_forall in G.
  specialize (G m (proj2 (In_Zrange 1 (n + 1) m) ltac:(nia))).
  rewrite forallb_forall in G.
  specialize (G d (proj2 (In_Zrange 1 (n + 1) d) ltac:(nia))).
  cbv beta in G. destruct (Z.leb_spec (m * d) n); [|lia].
  rewrite forallb_forall in G.
  specialize (G i (proj2 (In_Zrange 0 d i) ltac:(lia))).
  unfold SmallAxes.row_is_box in G. fold r in G.
  apply andb_prop in G. destruct G as [G G3].
  apply andb_prop in G. destruct G as [G1 G2].
  apply Z.eqb_eq in G1. apply Z.eqb_eq in G2.
  split; [exact G1|]. split; [exact G2|]. now apply list_eqb_eq.
Qed.

Section SmallWindowsBinary32.
Variable libm_sin : Floats.SpecFloat.spec_float -> Floats.SpecFloat.spec_float.
Let libm_arith : Arith := IEEE.arith libm_sin.
#[local] Existing Instance libm_arith.

Lemma windows_fit_spec {A : Arith} n filterp s d i :
  SmallWindows.windows_fit n = true ->
  In filterp [NEAREST; ANTIALIAS; BILINEAR; BICUBIC] ->
  1 <= s <= n -> 1 <= d <= n -> 0 <= i < d ->
  let r := row_coefficients filterp s d i in
  xmin r < xmax r /\
  xmax r - xmin r <=
  kmax_of (fmul (support filterp)
             (filterscale_of (fdiv (f_of_int s) (f_of_int d)))).
Proof.
  intros G Hin Hs Hd Hi r. unfold SmallWindows.windows_fit in G.
  rewrite forallb_forall in G. specialize (G _ Hin).
  pose proof (all_rows_spec _ _ s d i G Hs Hd Hi) as R.
  unfold SmallWindows.window_fits in R. cbv zeta in R.
  apply andb_prop in R. destruct R as [R1 R2].
  apply Z.ltb_lt in R1. apply Z.leb_le in R2.
  split; [exact R1|exact R2].
Qed.

Lemma windows_fit_12 : SmallWindows.windows_fit 12 = true.
Proof. vm_compute. reflexivity. Qed.

Lemma windows_whole_spec {A : Arith} n filterp s d i j :
  SmallWindows.windows_whole n = true ->
  In filterp [NEAREST; ANTIALIAS; BILINEAR; BICUBIC] ->
  1 <= s <= n -> 1 <= d <= n -> 0 <= i < d -> 0 <= j < s ->
  let scale := fdiv (f_of_int s) (f_of_int d) in
  let filterscale := filterscale_of scale in
  let r := row_coefficients filterp s d i in
  j < xmin r \/ xmax r <= j ->
  deq (f2d (weight filterp (center_of scale i)
              (d2f (ddiv (d_of_int 1) (f2d filterscale))) j))
      (d_of_int 0) = true.
Proof.
  intros G Hin Hs Hd Hi Hj scale filterscale r Hout.
  unfold SmallWindows.windows_whole in G.
  rewrite forallb_forall in G. specialize (G _ Hin).
  pose proof (all_rows_spec _ _ s d i G Hs Hd Hi) as R.
  unfold SmallWindows.window_is_whole in R. cbv zeta in R.
  rewrite forallb_forall in R.
  specialize (R j (proj2 (In_Zrange 0 s j) Hj)).
  unfold r, row_coefficients, compute_coefficients in Hout.
  cbn [xmin xmax] in Hout.
  match type of R with
  | (if ?c then _ else _) = _ => destruct c eqn:E
  end; [|exact R].
  apply andb_prop in E. destruct E as [E1 E2].
  apply Z.leb_le in E1. apply Z.ltb_lt in E2. lia.
Qed.

Lemma windows_whole_12 : SmallWindows.windows_whole 12 = true.
Proof. vm_compute. reflexivity. Qed.

Lemma selected_kernel {A : Arith} filter_id filterp :
  select_filter filter_id = Some filterp ->
  In filterp [NEAREST; ANTIALIAS; BILINEAR; BICUBIC].
Proof.
  unfold select_filter. intros H.
  destruct (filter_id =? IMAGING_TRANSFORM_NEAREST);
    [inversion H; now left|].
  destruct (filter_id =? IMAGING_TRANSFORM_ANTIALIAS);
    [inversion H; right; now left|].
  destruct (filter_id =? IMAGING_TRANSFORM_BILINEAR);
    [inversion H; right; right; now left|].
  destruct (filter_id =? IMAGING_TRANSFORM_BICUBIC);
    [inversion H; right; right; right; now left|discriminate].
Qed.

(** X26.  As the code runs in binary32, whatever [sin] libm provides: for
    axes of at most 12 samples and each of the four kernels, the window
    of every destination index has at least one tap and at most [kmax]
    taps, the room allocated for one row of coefficients. *)
Theorem binary32_small_buffer_suffices filter_id filterp srcLen dstLen i :
  select_filter filter_id = Some filterp ->
  1 <= srcLen <= 12 ->
  1 <= dstLen <= 12 ->
  0 <= i < dstLen ->
  let scale := fdiv (f_of_int srcLen) (f_of_int dstLen) in
  let support := fmul (support filterp) (filterscale_of scale) in
  let r := row_coefficients filterp srcLen dstLen i in
  Z.of_nat (length (intk r)) = xmax r - xmin r /\
  0 < xmax r - xmin r <= kmax_of support.
Proof.
  intros Hfilter Hsrc Hdst Hi scale support r.
  pose proof (selected_kernel _ _ Hfilter) as Hin.
  destruct (windows_fit_spec 12 filterp srcLen dstLen i windows_fit_12
              Hin Hsrc Hdst Hi) as [Hne Hfit].
  fold r in Hne, Hfit.
  pose proof (coefficients_shape filterp scale (filterscale_of scale)
                support srcLen i) as (_ & _ & _ & _ & L).
  change (compute_coefficients filterp scale (filterscale_of scale)
            support srcLen i) with r in L.
  split; [lia|]. split; [lia|exact Hfit].
Qed.

(** X22.  As the code runs in binary32, whatever [sin] libm provides:
    for axes of at most 12 samples and each of the four kernels, the
    window leaves out no sample that counts: a sample of the source
    outside the window of a destination index has a raw weight that
    compares equal to zero. *)
Theorem binary32_small_window_holds_weights filter_id filterp srcLen
    dstLen i j :
  select_filter filter_id = Some filterp ->
  1 <= srcLen <= 12 ->
  1 <= dstLen <= 12 ->
  0 <= i < dstLen ->
  0 <= j < srcLen ->
  let scale := fdiv (f_of_int srcLen) (f_of_int dstLen) in
  let filterscale := filterscale_of scale in
  let r := row_coefficients filterp srcLen dstLen i in
  j < xmin r \/ xmax r <= j ->
  deq (f2d (weight filterp (center_of scale i)
              (d2f (ddiv (d_of_int 1) (f2d filterscale))) j))
      (d_of_int 0) = true.
Proof.
  intros Hfilter Hsrc Hdst Hi Hj scale filterscale r Hout.
  pose proof (selected_kernel _ _ Hfilter) as Hin.
  exact (windows_whole_spec 12 filterp srcLen dstLen i j windows_whole_12
           Hin Hsrc Hdst Hi Hj Hout).
Qed.

End SmallWindowsBinary32.

Section SmallBinary32.
#[local] Existing Instance IEEE.arith_no_sin.
Variable malloc : nat -> Z -> bool.

Lemma small_unit_scale n :
  1 <= n <= 12 -> fdiv (f_of_int n) (f_of_int n) = f_of_int 1.
Proof.
  intros H.
  assert (Hin : In n (Zrange 1 13)) by (apply In_Zrange; lia).
  vm_compute in Hin.
  repeat (destruct Hin as [<-|Hin]; [vm_compute; reflexivity|]).
  destruct Hin.
Qed.

(** In binary32, for sources and destinations of at most 12 by 12
    pixels, the window of every destination index has at most [kmax]
    taps, and the coefficients of a destination pixel are those of its
    index along the stretched axis. *)
Lemma ImagingStretch_small_rows imOut imIn filter_id filterp :
  valid_request malloc imOut imIn filter_id ->
  select_filter filter_id = Some filterp ->
  type imIn = IMAGING_TYPE_UINT8 -> bands imIn = 3 ->
  rows_fit (image imOut) (xsize imOut) (ysize imOut) ->
  1 <= xsize imIn <= 12 -> 1 <= ysize imIn <= 12 ->
  xsize imOut <= 12 ->
  forall yy xx ch,
    0 <= yy < ysize imOut -> 0 <= xx < xsize imOut -> 0 <= ch < 3 ->
    image_get
      (pixels (final (ImagingStretch malloc (Some imOut) (Some imIn)
                        filter_id)))
      yy (xx * 4 + ch) =
    clip8 (chan ch
      (if xsize imIn =? xsize imOut then
         accumulate (fun y c => image_get (image imIn) y (xx * 4 + c))
           (row_coefficients filterp (ysize imIn) (ysize imOut) yy)
       else
         accumulate (fun x c => image_get (image imIn) yy (x * 4 + c))
           (row_coefficients filterp (xsize imIn) (xsize imOut) xx))).
Proof.
  intros Hvalid Hfilter Ht Hb Hfit Hx Hy Ox yy xx ch Hyy Hxx Hch.
  assert (Hk : xsize imIn = xsize imOut \/
               xmax (row_coefficients filterp (xsize imIn) (xsize imOut) xx)
               - xmin (row_coefficients filterp (xsize imIn) (xsize imOut) xx)
               <= Z.max 0 (row_kmax filterp (xsize imIn) (xsize imOut))).
  { right.
    destruct (windows_fit_spec 12 filterp (xsize imIn) (xsize imOut) xx
                (windows_fit_12 (fun _ => Floats.SpecFloat.S754_nan))
                (selected_kernel _ _ Hfilter) Hx ltac:(lia) Hxx)
      as [_ Hw].
    unfold row_kmax. lia. }
  destruct (Z.eqb_spec (xsize imIn) (xsize imOut)) as [Ex|Ex];
    [|destruct (Z.eqb_spec (ysize imIn) (ysize imOut)) as [Ey|Ey]].
  - pose proof (ImagingStretch_bytes malloc imOut imIn filter_id filterp
                  Hvalid Hfilter Ht Hb Hfit yy xx ch Hyy Hxx Hch
                  (or_introl Ex)) as B.
    cbv zeta in B. rewrite B. clear B.
    destruct (Z.eqb_spec (xsize imIn) (xsize imOut)); [|contradiction].
    destruct (Z.eqb_spec (ysize imIn) (ysize imOut)) as [Ey|Ey];
      [|reflexivity].
    rewrite <- Ex, <- Ey.
    unfold row_coefficients.
    now rewrite (small_unit_scale (xsize imIn)),
      (small_unit_scale (ysize imIn)).
  - pose proof (ImagingStretch_bytes malloc imOut imIn filter_id filterp
                  Hvalid Hfilter Ht Hb Hfit yy xx ch Hyy Hxx Hch) as B.
    cbv zeta in B. rewrite Ey, Z.eqb_refl in B. rewrite B; clear B.
    + destruct (Z.eqb_spec (xsize imIn) (xsize imOut)); [contradiction|].
      reflexivity.
    + destruct Hk as [Hk|Hk]; [contradiction|]. right. exact Hk.
  - destruct Hvalid as (_ & _ & [E|E] & _); contradiction.
Qed.

Lemma means_checked_12 : SmallAxes.means_checked 12 = true.
Proof. vm_compute. reflexivity. Qed.

Lemma copies_checked_12 : SmallAxes.copies_checked 12 = true.
Proof. vm_compute. reflexivity. Qed.

Lemma enlarging_checked_12 : SmallAxes.enlarging_checked 12 = true.
Proof. vm_compute. reflexivity. Qed.

Lemma selected_plain filter_id filterp :
  select_filter filter_id = Some filterp ->
  filter_id <> IMAGING_TRANSFORM_ANTIALIAS ->
  In filterp [NEAREST; BILINEAR; BICUBIC].
Proof.
  unfold select_filter. intros H Hne.
  destruct (Z.eqb_spec filter_id IMAGING_TRANSFORM_NEAREST);
    [inversion H; now left|].
  destruct (Z.eqb_spec filter_id IMAGING_TRANSFORM_ANTIALIAS);
    [contradiction|].
  destruct (Z.eqb_spec filter_id IMAGING_TRANSFORM_BILINEAR);
    [inversion H; right; now left|].
  destruct (Z.eqb_spec filter_id IMAGING_TRANSFORM_BICUBIC);
    [inversion H; right; right; now left|discriminate].
Qed.

(** X23.  As the code runs in binary32, for sources and destinations of
    at most 12 by 12 pixels and the nearest, bilinear or bicubic
    filter: every sample of a channel of the destination lies between
    the least and the greatest sample of that channel in the source,
    whatever the contents of the source. *)
Theorem binary32_small_within_range imOut imIn filter_id ch lo hi :
  valid_request malloc imOut imIn filter_id ->
  filter_id <> IMAGING_TRANSFORM_ANTIALIAS ->
  type imIn = IMAGING_TYPE_UINT8 -> bands imIn = 3 ->
  rows_fit (image imOut) (xsize imOut) (ysize imOut) ->
  1 <= xsize imIn <= 12 -> 1 <= ysize imIn <= 12 ->
  xsize imOut <= 12 -> ysize imOut <= 12 ->
  0 <= ch < 3 -> 0 <= lo -> hi <= 255 ->
  (forall y x, 0 <= y < ysize imIn -> 0 <= x < xsize imIn ->
     lo <= UINT8 (image_get (image imIn) y (x * 4 + ch)) <= hi) ->
  forall yy xx,
    0 <= yy < ysize imOut -> 0 <= xx < xsize imOut ->
    lo <= image_get
            (pixels (final (ImagingStretch malloc (Some imOut) (Some imIn)
                              filter_id)))
            yy (xx * 4 + ch) <= hi.
Proof.
  intros Hvalid Hne Ht Hb Hfit Hx Hy Ox Oy Hch Hlo Hhi Hs yy xx Hyy Hxx.
  destruct (select_filter filter_id) as [filterp|] eqn:Hfilter.
  2:{ destruct Hvalid as (_ & Hf & _). congruence. }
  pose proof (selected_plain _ _ Hfilter Hne) as Hin.
  rewrite (ImagingStretch_small_rows imOut imIn filter_id filterp)
    by (try assumption; lia).
  assert (W : forall srcLen dstLen i (sample : Z -> Z -> Z),
            1 <= srcLen <= 12 -> 1 <= dstLen <= 12 -> 0 <= i < dstLen ->
            (forall x, 0 <= x < srcLen -> lo <= UINT8 (sample x ch) <= hi) ->
            lo <= clip8 (chan ch (accumulate sample
                                    (row_coefficients filterp srcLen dstLen i)))
               <= hi).
  { intros srcLen dstLen i sample Hsrc Hdst Hi Hsample.
    destruct (means_checked_spec 12 filterp srcLen dstLen i
                means_checked_12 Hin Hsrc Hdst Hi) as [Hnn Hsum].
    pose proof (coefficients_shape filterp
                  (fdiv (f_of_int srcLen) (f_of_int dstLen))
                  (filterscale_of (fdiv (f_of_int srcLen) (f_of_int dstLen)))
                  (fmul (support filterp)
                     (filterscale_of
                        (fdiv (f_of_int srcLen) (f_of_int dstLen))))
                  srcLen i) as (W1 & W2 & _ & _ & L).
    change (compute_coefficients _ _ _ _ srcLen i)
      with (row_coefficients filterp srcLen dstLen i) in W1, W2, L.
    apply (accumulate_between sample _ ch lo hi); try assumption.
    intros x Hxw. apply Hsample. lia. }
  destruct (Z.eqb_spec (xsize imIn) (xsize imOut)) as [Ex|Ex].
  - apply W; try assumption; try lia.
    intros y Hyr. apply Hs; lia.
  - assert (Ey : ysize imIn = ysize imOut).
    { destruct Hvalid as (_ & _ & [E|E] & _); [exact E|contradiction]. }
    apply W; try assumption; try lia.
    intros x Hxr. apply Hs; lia.
Qed.

Lemma clip8_one_hot_chan ch (v0 v1 v2 : Z) :
  clip8 (chan ch (2^21 + UINT8 v0 * 2^22, 2^21 + UINT8 v1 * 2^22,
                  2^21 + UINT8 v2 * 2^22)) =
  UINT8 (if ch =? 0 then v0 else if ch =? 1 then v1 else v2).
Proof.
  unfold chan.
  destruct (ch =? 0); [|destruct (ch =? 1)]; cbn [fst snd];
    apply clip8_one_hot, UINT8_range.
Qed.

Lemma chan_select ch (f : Z -> Z) :
  0 <= ch < 3 ->
  (if ch =? 0 then f 0 else if ch =? 1 then f 1 else f 2) = f ch.
Proof.
  intros H. assert (D : ch = 0 \/ ch = 1 \/ ch = 2) by lia.
  destruct D as [->|[->| ->]]; reflexivity.
Qed.

(** X24.  As the code runs in binary32, for images of at most 12 by 12
    pixels: a valid request with the nearest or the bilinear filter
    whose destination has the size of the source copies every sample of
    the three channels. *)
Theorem binary32_small_same_size_copies imOut imIn filter_id :
  valid_request malloc imOut imIn filter_id ->
  filter_id = IMAGING_TRANSFORM_NEAREST \/
  filter_id = IMAGING_TRANSFORM_BILINEAR ->
  type imIn = IMAGING_TYPE_UINT8 -> bands imIn = 3 ->
  rows_fit (image imOut) (xsize imOut) (ysize imOut) ->
  xsize imIn = xsize imOut -> ysize imIn = ysize imOut ->
  1 <= xsize imIn <= 12 -> 1 <= ysize imIn <= 12 ->
  forall yy xx ch,
    0 <= yy < ysize imOut -> 0 <= xx < xsize imOut -> 0 <= ch < 3 ->
    image_get
      (pixels (final (ImagingStretch malloc (Some imOut) (Some imIn)
                        filter_id)))
      yy (xx * 4 + ch) =
    UINT8 (image_get (image imIn) yy (xx * 4 + ch)).
Proof.
  intros Hvalid Hf Ht Hb Hfit Ex Ey Hx Hy yy xx ch Hyy Hxx Hch.
  assert (F : exists filterp,
            select_filter filter_id = Some filterp /\
            In filterp [NEAREST; BILINEAR]).
  { destruct Hf as [->| ->]; eexists; (split; [reflexivity|]);
      [now left|right; now left]. }
  destruct F as (filterp & Hfilter & Hin).
  rewrite (ImagingStretch_small_rows imOut imIn filter_id filterp)
    by (try assumption; lia).
  rewrite <- Ex, Z.eqb_refl, <- Ey.
  destruct (copies_checked_spec 12 filterp (ysize imIn) yy
              copies_checked_12 Hin Hy ltac:(lia)) as [Hw Hone].
  rewrite (accumulate_one_hot _ _ _ Hw Hone), clip8_one_hot_chan.
  now rewrite (chan_select ch
                 (fun c => image_get (image imIn) yy (xx * 4 + c))).
Qed.

(** X25.  As the code runs in binary32, for images of at most 12 by 12
    pixels: enlarging with the nearest filter copies samples; each
    destination pixel holds the three channel samples of the source
    pixel whose unit interval contains the center of the destination
    index. *)
Theorem binary32_small_nearest_enlarging imOut imIn :
  valid_request malloc imOut imIn IMAGING_TRANSFORM_NEAREST ->
  type imIn = IMAGING_TYPE_UINT8 -> bands imIn = 3 ->
  rows_fit (image imOut) (xsize imOut) (ysize imOut) ->
  1 <= xsize imIn <= xsize imOut -> 1 <= ysize imIn <= ysize imOut ->
  xsize imOut <= 12 -> ysize imOut <= 12 ->
  forall yy xx ch,
    0 <= yy < ysize imOut -> 0 <= xx < xsize imOut -> 0 <= ch < 3 ->
    image_get
      (pixels (final (ImagingStretch malloc (Some imOut) (Some imIn)
                        IMAGING_TRANSFORM_NEAREST)))
      yy (xx * 4 + ch) =
    UINT8 (image_get (image imIn)
             (central_index (ysize imIn) (ysize imOut) yy)
             (central_index (xsize imIn) (xsize imOut) xx * 4 + ch)).
Proof.
  intros Hvalid Ht Hb Hfit Hx Hy Ox Oy yy xx ch Hyy Hxx Hch.
  rewrite (ImagingStretch_small_rows imOut imIn IMAGING_TRANSFORM_NEAREST
             NEAREST) by (try assumption; try reflexivity; lia).
  assert (R : forall s d i, 1 <= s <= d -> d <= 12 -> 0 <= i < d ->
            xmin (row_coefficients NEAREST s d i) <= central_index s d i
              < xmax (row_coefficients NEAREST s d i) /\
            intk (row_coefficients NEAREST s d i) =
            one_hot (central_index s d i)
              (xmin (row_coefficients NEAREST s d i))
              (xmax (row_coefficients NEAREST s d i))).
  { intros s d i Hs Hd Hi.
    exact (enlarging_checked_spec 12 s d i enlarging_checked_12 Hs Hd Hi). }
  destruct (Z.eqb_spec (xsize imIn) (xsize imOut)) as [Ex|Ex].
  - destruct (R (ysize imIn) (ysize imOut) yy) as [Hin Hone]; try lia.
    rewrite (accumulate_one_hot _ _ _ Hin Hone), clip8_one_hot_chan.
    rewrite <- Ex, central_index_same by lia.
    now rewrite (chan_select ch
                   (fun c => image_get (image imIn) _ (xx * 4 + c))).
  - assert (Ey : ysize imIn = ysize imOut).
    { destruct Hvalid as (_ & _ & [E|E] & _); [exact E|contradiction]. }
    destruct (R (xsize imIn) (xsize imOut) xx) as [Hin Hone]; try lia.
    rewrite (accumulate_one_hot _ _ _ Hin Hone), clip8_one_hot_chan.
    rewrite <- Ey, central_index_same by lia.
    now rewrite (chan_select ch
                   (fun c => image_get (image imIn) yy (_ * 4 + c))).
Qed.

Lemma boxes_checked_12 : SmallAxes.boxes_checked 12 = true.
Proof. vm_compute. reflexivity. Qed.

(** X17.  As the code runs in binary32, for a source axis of at most 12
    samples: shrinking the axis by a whole factor [m] with the nearest
    filter averages blocks; the window of destination index [i] is the
    block of the [m] source samples from [i * m] on, and each of them
    has the fixed-point weight [2^22 / m] (rounded down). *)
Theorem binary32_small_nearest_shrinking dstLen m i :
  1 <= m -> 1 <= dstLen ->
  m * dstLen <= 12 ->
  0 <= i < dstLen ->
  let r := row_coefficients NEAREST (m * dstLen) dstLen i in
  xmin r = i * m /\ xmax r = (i + 1) * m /\
  intk r = repeat (2^22 / m) (Z.to_nat m).
Proof.
  intros Hm Hd Hmd Hi.
  exact (boxes_checked_spec 12 m dstLen i boxes_checked_12 Hm Hd Hmd Hi).
Qed.

(** X27.  As the code runs in binary32, for axes of at most 12 samples
    and the nearest, bilinear or bicubic filter: the window of every
    destination index has at least one tap, the total of its raw
    weights is positive, so that the normalization divides by a nonzero
    total, and the fixed-point weights sum to [2^22] with an absolute
    error smaller than the number of taps. *)
Theorem binary32_small_rows_normalised filter_id filterp srcLen dstLen i :
  select_filter filter_id = Some filterp ->
  filter_id <> IMAGING_TRANSFORM_ANTIALIAS ->
  1 <= srcLen <= 12 ->
  1 <= dstLen <= 12 ->
  0 <= i < dstLen ->
  let r := row_coefficients filterp srcLen dstLen i in
  xmin r < xmax r /\
  Floats.SpecFloat.SFltb (Floats.SpecFloat.S754_zero false) (ww r) = true /\
  Z.abs (sum_intk (intk r) - 2^22) < Z.of_nat (length (intk r)).
Proof.
  intros Hfilter Hne Hsrc Hdst Hi r.
  pose proof (binary32_rows_small filterp srcLen dstLen i
                (selected_plain _ _ Hfilter Hne) Hsrc Hdst Hi) as R.
  fold r in R. unfold Binary32.row_ok in R.
  apply andb_prop in R. destruct R as [R R3].
  apply andb_prop in R. destruct R as [R1 R2].
  apply Z.ltb_lt in R1. apply Z.ltb_lt in R3.
  split; [exact R1|]. split; [exact R2|exact R3].
Qed.

End SmallBinary32.

(* ------------------------------------------------------------------ *)
(** * Further properties: long axes in binary32 *)

(** X28.  As the code runs in binary32, a window can be empty once the
    coordinates exceed [2^23]: nearest filter, a source axis of 8388612
    samples stretched to twice that length, destination index 16777220.
    [center = 8388610.25] rounds to the [float] 8388610, and both
    [center - 0.5] and [center + 0.5] round back to 8388610 (floats are
    one apart above [2^23], ties go to the even one): the window
    [8388610, 8388610) has no tap and the total weight is zero. *)
Theorem window_empty_above_2_23 :
  let r := row_coefficients (A := IEEE.arith_no_sin) NEAREST
             8388612 16777224 16777220 in
  xmin r = 8388610 /\ xmax r = 8388610 /\
  ww r = Floats.SpecFloat.S754_zero false /\
  intk r = [].
Proof.
  cbv zeta. repeat split; vm_compute; reflexivity.
Qed.

(* ------------------------------------------------------------------ *)
(** * The further properties at sample inputs *)

Ltac one_of_four x :=
  let C := fresh in
  assert (C : x = 0 \/ x = 1 \/ x = 2 \/ x = 3) by lia;
  destruct C as [->|[->|[->| ->]]].

Ltac one_of_three x :=
  let C := fresh in
  assert (C : x = 0 \/ x = 1 \/ x = 2) by lia;
  destruct C as [->|[->| ->]].

Lemma valid_sample_request {A : Arith} imOut imIn filter_id :
  mode imIn = mode imOut ->
  0 <= filter_id <= 3 ->
  ysize imIn = ysize imOut \/ xsize imIn = xsize imOut ->
  valid_request Examples.malloc_ok imOut imIn filter_id.
Proof.
  intros Hm Hf Hs. split; [exact Hm|]. split; [|split; [exact Hs|reflexivity]].
  unfold select_filter, IMAGING_TRANSFORM_NEAREST,
    IMAGING_TRANSFORM_ANTIALIAS, IMAGING_TRANSFORM_BILINEAR,
    IMAGING_TRANSFORM_BICUBIC.
  destruct (Z.eqb_spec filter_id 0); [discriminate|].
  destruct (Z.eqb_spec filter_id 1); [discriminate|].
  destruct (Z.eqb_spec filter_id 2); [discriminate|].
  destruct (Z.eqb_spec filter_id 3); [discriminate|lia].
Qed.

Lemma fit_one_row row W :
  4 * W <= Z.of_nat (length row) -> rows_fit [row] W 1.
Proof.
  intros H. split; [simpl; lia|]. intros y Hy.
  assert (y = 0) by lia. subst. exact H.
Qed.

Lemma fit_two_rows row0 row1 W :
  4 * W <= Z.of_nat (length row0) -> 4 * W <= Z.of_nat (length row1) ->
  rows_fit [row0; row1] W 2.
Proof.
  intros H0 H1. split; [simpl; lia|]. intros y Hy.
  assert (C : y = 0 \/ y = 1) by lia. destruct C as [->| ->]; assumption.
Qed.

Lemma same_samples_padded :
  same_samples Examples.rgb_row Samples.rgb_row_padded.
Proof.
  repeat (split; [reflexivity|]).
  intros y x ch Hy Hx Hch. simpl in Hy, Hx.
  assert (y = 0) by lia. subst y.
  one_of_four x; one_of_three ch; reflexivity.
Qed.

Lemma transposed_row_column :
  transposed Examples.rgb_row Samples.rgb_column.
Proof.
  repeat (split; [reflexivity|]).
  intros y x ch Hy Hx Hch. simpl in Hy, Hx.
  assert (y = 0) by lia. subst y.
  one_of_four x; one_of_three ch; reflexivity.
Qed.

Section SampleCalls.
Import Examples Samples.
#[local] Existing Instance IEEE.arith_no_sin.

(** A 4 by 1 source and a 2 by 3 destination: refused, untouched. *)
Lemma stretch_failure_is_clean_witness :
  let o := ImagingStretch malloc_ok (Some dst_2x3) (Some rgb_row)
             IMAGING_TRANSFORM_BILINEAR in
  ret o <> ReturnImOut /\
  stores (final o) = [] /\ pixels (final o) = image dst_2x3.
Proof.
  cbv zeta.
  assert (H : ret (ImagingStretch malloc_ok (Some dst_2x3) (Some rgb_row)
                     IMAGING_TRANSFORM_BILINEAR) <> ReturnImOut)
    by (vm_compute; discriminate).
  split; [exact H|].
  exact (stretch_failure_is_clean malloc_ok dst_2x3 rgb_row
           IMAGING_TRANSFORM_BILINEAR H).
Defined.

(** Filter identifier 7. *)
Lemma stretch_unsupported_filter_witness :
  mode rgb_row = mode dst_2x3 /\ (7 < 0 \/ 3 < 7) /\
  ImagingStretch malloc_ok (Some dst_2x3) (Some rgb_row) 7 =
  {| ret := ReturnError ValueError; final := initial dst_2x3 |}.
Proof.
  assert (H1 : mode rgb_row = mode dst_2x3) by reflexivity.
  assert (H2 : 7 < 0 \/ 3 < 7) by (right; lia).
  split; [exact H1|]. split; [exact H2|].
  exact (stretch_unsupported_filter malloc_ok dst_2x3 rgb_row 7 H1 H2).
Defined.

(** The second allocation fails. *)
Lemma stretch_out_of_memory_witness :
  mode rgb_row = mode dst_2x1 /\
  select_filter IMAGING_TRANSFORM_BILINEAR <> None /\
  (ysize rgb_row = ysize dst_2x1 \/ xsize rgb_row = xsize dst_2x1) /\
  ((forall size, malloc_one 0 size = false) \/
   (forall size, malloc_one 1 size = false)) /\
  ImagingStretch malloc_one (Some dst_2x1) (Some rgb_row)
    IMAGING_TRANSFORM_BILINEAR =
  {| ret := ReturnError MemoryError; final := initial dst_2x1 |}.
Proof.
  assert (H1 : mode rgb_row = mode dst_2x1) by reflexivity.
  assert (H2 : select_filter IMAGING_TRANSFORM_BILINEAR <> None)
    by discriminate.
  assert (H3 : ysize rgb_row = ysize dst_2x1 \/
               xsize rgb_row = xsize dst_2x1) by (left; reflexivity).
  assert (H4 : (forall size, malloc_one 0 size = false) \/
               (forall size, malloc_one 1 size = false))
    by (right; reflexivity).
  split; [exact H1|]. split; [exact H2|]. split; [exact H3|].
  split; [exact H4|].
  exact (stretch_out_of_memory malloc_one dst_2x1 rgb_row
           IMAGING_TRANSFORM_BILINEAR H1 H2 H3 H4).
Defined.

(** The third allocation of a horizontal stretch fails. *)
Lemma stretch_bounds_table_not_allocated_witness :
  mode rgb_row = mode dst_2x1 /\
  select_filter IMAGING_TRANSFORM_BILINEAR <> None /\
  ysize rgb_row = ysize dst_2x1 /\
  xsize rgb_row <> xsize dst_2x1 /\
  (forall size, malloc_two 0 size = true) /\
  (forall size, malloc_two 1 size = true) /\
  (forall size, malloc_two 2 size = false) /\
  let o := ImagingStretch malloc_two (Some dst_2x1) (Some rgb_row)
             IMAGING_TRANSFORM_BILINEAR in
  o = {| ret := ReturnNull; final := initial dst_2x1 |} /\ ~ rejected o.
Proof.
  assert (H1 : mode rgb_row = mode dst_2x1) by reflexivity.
  assert (H2 : select_filter IMAGING_TRANSFORM_BILINEAR <> None)
    by discriminate.
  assert (H3 : ysize rgb_row = ysize dst_2x1) by reflexivity.
  assert (H4 : xsize rgb_row <> xsize dst_2x1) by (simpl; lia).
  assert (H5 : forall size, malloc_two 0 size = true) by reflexivity.
  assert (H6 : forall size, malloc_two 1 size = true) by reflexivity.
  assert (H7 : forall size, malloc_two 2 size = false) by reflexivity.
  repeat (split; [assumption|]).
  exact (stretch_bounds_table_not_allocated malloc_two dst_2x1 rgb_row
           IMAGING_TRANSFORM_BILINEAR H1 H2 H3 H4 H5 H6 H7).
Defined.

(** Tap 1 of the first column of the bilinear stretch from 4 samples
    to 2. *)
Lemma window_within_source_witness :
  let scale := fdiv (f_of_int 4) (f_of_int 2) in
  let filterscale := filterscale_of scale in
  let support := fmul (support BILINEAR) filterscale in
  let c := compute_coefficients BILINEAR scale filterscale support 4 0 in
  let t := coefficient_tables BILINEAR scale filterscale support 4 5 2 in
  0 <= 0 < 2 /\
  (xmin c <= 1 < xmax c \/
   xbounds t (0 * 2 + 0) <= 1 < xbounds t (0 * 2 + 1)) /\
  0 <= 1 < 4.
Proof.
  cbv zeta.
  assert (H1 : 0 <= 0 < 2) by lia.
  assert (H2 : xmin (compute_coefficients BILINEAR
                       (fdiv (f_of_int 4) (f_of_int 2))
                       (filterscale_of (fdiv (f_of_int 4) (f_of_int 2)))
                       (fmul (support BILINEAR)
                          (filterscale_of (fdiv (f_of_int 4) (f_of_int 2))))
                       4 0) <= 1
               < xmax (compute_coefficients BILINEAR
                         (fdiv (f_of_int 4) (f_of_int 2))
                         (filterscale_of (fdiv (f_of_int 4) (f_of_int 2)))
                         (fmul (support BILINEAR)
                            (filterscale_of
                               (fdiv (f_of_int 4) (f_of_int 2))))
                         4 0))
    by (vm_compute; split; [discriminate|reflexivity]).
  split; [exact H1|]. split; [left; exact H2|].
  exact (window_within_source BILINEAR
           (fdiv (f_of_int 4) (f_of_int 2))
           (filterscale_of (fdiv (f_of_int 4) (f_of_int 2)))
           (fmul (support BILINEAR)
              (filterscale_of (fdiv (f_of_int 4) (f_of_int 2))))
           4 5 2 0 1 H1 (or_introl H2)).
Defined.

(** Two sources that differ in the fourth byte of every pixel. *)
Lemma stretch_reads_channel_samples_witness :
  same_samples rgb_row rgb_row_padded /\
  ImagingStretch malloc_ok (Some dst_2x1) (Some rgb_row)
    IMAGING_TRANSFORM_BILINEAR =
  ImagingStretch malloc_ok (Some dst_2x1) (Some rgb_row_padded)
    IMAGING_TRANSFORM_BILINEAR.
Proof.
  split; [exact same_samples_padded|].
  exact (stretch_reads_channel_samples malloc_ok dst_2x1 rgb_row
           rgb_row_padded IMAGING_TRANSFORM_BILINEAR same_samples_padded).
Defined.

Lemma valid_row_to_pair :
  valid_request malloc_ok dst_2x1 rgb_row IMAGING_TRANSFORM_BILINEAR.
Proof.
  apply valid_sample_request;
    [reflexivity|unfold IMAGING_TRANSFORM_BILINEAR; lia|left; reflexivity].
Qed.

Lemma valid_column_to_pair :
  valid_request malloc_ok dst_1x2 rgb_column IMAGING_TRANSFORM_BILINEAR.
Proof.
  apply valid_sample_request;
    [reflexivity|unfold IMAGING_TRANSFORM_BILINEAR; lia|right; reflexivity].
Qed.

Lemma valid_no_row :
  valid_request malloc_ok dst_2x2 rgb_no_row IMAGING_TRANSFORM_BILINEAR.
Proof.
  apply valid_sample_request;
    [reflexivity|unfold IMAGING_TRANSFORM_BILINEAR; lia|right; reflexivity].
Qed.

Lemma fit_2x1 : rows_fit (image dst_2x1) (xsize dst_2x1) (ysize dst_2x1).
Proof. apply fit_one_row. simpl. lia. Qed.

Lemma fit_2x1_other :
  rows_fit (image dst_2x1_other) (xsize dst_2x1_other) (ysize dst_2x1_other).
Proof. apply fit_one_row. simpl. lia. Qed.

Lemma fit_1x2 : rows_fit (image dst_1x2) (xsize dst_1x2) (ysize dst_1x2).
Proof. apply fit_two_rows; simpl; lia. Qed.

Lemma fit_2x2 : rows_fit (image dst_2x2) (xsize dst_2x2) (ysize dst_2x2).
Proof. apply fit_two_rows; simpl; lia. Qed.

Lemma fit_4x1 : rows_fit (image dst_4x1) (xsize dst_4x1) (ysize dst_4x1).
Proof. apply fit_one_row. simpl. lia. Qed.

(** Two destinations with different contents. *)
Lemma stretch_ignores_destination_witness :
  valid_request malloc_ok dst_2x1 rgb_row IMAGING_TRANSFORM_BILINEAR /\
  mode dst_2x1_other = mode dst_2x1 /\
  xsize dst_2x1_other = xsize dst_2x1 /\
  ysize dst_2x1_other = ysize dst_2x1 /\
  type rgb_row = IMAGING_TYPE_UINT8 /\ bands rgb_row = 3 /\
  rows_fit (image dst_2x1) (xsize dst_2x1) (ysize dst_2x1) /\
  rows_fit (image dst_2x1_other) (xsize dst_2x1_other)
    (ysize dst_2x1_other) /\
  forall yy xx ch,
    0 <= yy < ysize dst_2x1 -> 0 <= xx < xsize dst_2x1 -> 0 <= ch < 3 ->
    image_get
      (pixels (final (ImagingStretch malloc_ok (Some dst_2x1_other)
                        (Some rgb_row) IMAGING_TRANSFORM_BILINEAR)))
      yy (xx * 4 + ch) =
    image_get
      (pixels (final (ImagingStretch malloc_ok (Some dst_2x1) (Some rgb_row)
                        IMAGING_TRANSFORM_BILINEAR)))
      yy (xx * 4 + ch).
Proof.
  split; [exact valid_row_to_pair|].
  repeat (split; [reflexivity|]).
  split; [exact fit_2x1|]. split; [exact fit_2x1_other|].
  exact (stretch_ignores_destination malloc_ok dst_2x1 dst_2x1_other rgb_row
           IMAGING_TRANSFORM_BILINEAR valid_row_to_pair eq_refl eq_refl
           eq_refl eq_refl eq_refl fit_2x1 fit_2x1_other).
Defined.

(** The 3-band row stretched from width 4 to width 2: six stores. *)
Lemma stretch_writes_each_byte_once_witness :
  valid_request malloc_ok dst_2x1 rgb_row IMAGING_TRANSFORM_BILINEAR /\
  type rgb_row = IMAGING_TYPE_UINT8 /\ bands rgb_row = 3 /\
  0 <= xsize dst_2x1 /\ 0 <= ysize dst_2x1 /\
  let o := ImagingStretch malloc_ok (Some dst_2x1) (Some rgb_row)
             IMAGING_TRANSFORM_BILINEAR in
  NoDup (map fst (stores (final o))) /\
  Z.of_nat (length (stores (final o))) = 3 * xsize dst_2x1 * ysize dst_2x1 /\
  forall y xx ch,
    0 <= y < ysize dst_2x1 -> 0 <= xx < xsize dst_2x1 -> 0 <= ch < 3 ->
    stored (final o) y (xx * 4 + ch).
Proof.
  assert (H1 : 0 <= xsize dst_2x1) by (simpl; lia).
  assert (H2 : 0 <= ysize dst_2x1) by (simpl; lia).
  split; [exact valid_row_to_pair|]. split; [reflexivity|].
  split; [reflexivity|]. split; [exact H1|]. split; [exact H2|].
  exact (stretch_writes_each_byte_once malloc_ok dst_2x1 rgb_row
           IMAGING_TRANSFORM_BILINEAR valid_row_to_pair eq_refl eq_refl
           H1 H2).
Defined.

(** The second pixel of the bilinear stretch of [rgb_row] to 2
    columns. *)
Lemma stretch_sample_value_witness :
  valid_request malloc_ok dst_2x1 rgb_row IMAGING_TRANSFORM_BILINEAR /\
  select_filter IMAGING_TRANSFORM_BILINEAR = Some BILINEAR /\
  type rgb_row = IMAGING_TYPE_UINT8 /\ bands rgb_row = 3 /\
  rows_fit (image dst_2x1) (xsize dst_2x1) (ysize dst_2x1) /\
  (xsize rgb_row <> xsize dst_2x1 \/ ysize rgb_row <> ysize dst_2x1) /\
  0 <= 0 < ysize dst_2x1 /\ 0 <= 1 < xsize dst_2x1 /\ 0 <= 0 < 3 /\
  let c := pixel_coefficients dst_2x1 rgb_row BILINEAR 0 1 in
  xmax c - xmin c <= pixel_kmax dst_2x1 rgb_row BILINEAR /\
  image_get
    (pixels (final (ImagingStretch malloc_ok (Some dst_2x1) (Some rgb_row)
                      IMAGING_TRANSFORM_BILINEAR)))
    0 (1 * 4 + 0) =
  clip8 (wrap_int
    (2^21 + weighted_sum (fun t => pixel_sample dst_2x1 rgb_row 0 1 t 0) c)).
Proof.
  assert (H : xsize rgb_row <> xsize dst_2x1 \/
              ysize rgb_row <> ysize dst_2x1) by (left; simpl; lia).
  assert (Hy : 0 <= 0 < ysize dst_2x1) by (simpl; lia).
  assert (Hx : 0 <= 1 < xsize dst_2x1) by (simpl; lia).
  assert (Hc : 0 <= 0 < 3) by lia.
  assert (Hk : xmax (pixel_coefficients dst_2x1 rgb_row BILINEAR 0 1)
               - xmin (pixel_coefficients dst_2x1 rgb_row BILINEAR 0 1)
               <= pixel_kmax dst_2x1 rgb_row BILINEAR)
    by (vm_compute; discriminate).
  split; [exact valid_row_to_pair|]. split; [reflexivity|].
  split; [reflexivity|]. split; [reflexivity|]. split; [exact fit_2x1|].
  split; [exact H|]. split; [exact Hy|]. split; [exact Hx|].
  split; [exact Hc|]. cbv zeta. split; [exact Hk|].
  exact (stretch_sample_value malloc_ok dst_2x1 rgb_row
           IMAGING_TRANSFORM_BILINEAR BILINEAR valid_row_to_pair eq_refl
           eq_refl eq_refl fit_2x1 H 0 1 0 Hy Hx Hc Hk).
Defined.

(** [rgb_row] stretched to 2 columns and [rgb_column] stretched to 2
    rows, at the second destination pixel. *)
Lemma stretch_paths_agree_witness :
  valid_request malloc_ok dst_2x1 rgb_row IMAGING_TRANSFORM_BILINEAR /\
  valid_request malloc_ok dst_1x2 rgb_column IMAGING_TRANSFORM_BILINEAR /\
  select_filter IMAGING_TRANSFORM_BILINEAR = Some BILINEAR /\
  type rgb_row = IMAGING_TYPE_UINT8 /\ bands rgb_row = 3 /\
  transposed rgb_row rgb_column /\
  xsize dst_1x2 = ysize dst_2x1 /\ ysize dst_1x2 = xsize dst_2x1 /\
  rows_fit (image dst_2x1) (xsize dst_2x1) (ysize dst_2x1) /\
  rows_fit (image dst_1x2) (xsize dst_1x2) (ysize dst_1x2) /\
  ysize rgb_row = ysize dst_2x1 /\ xsize rgb_row <> xsize dst_2x1 /\
  0 <= 0 < ysize dst_2x1 /\ 0 <= 1 < xsize dst_2x1 /\ 0 <= 0 < 3 /\
  let c := row_coefficients BILINEAR (xsize rgb_row) (xsize dst_2x1) 1 in
  xmax c - xmin c <= row_kmax BILINEAR (xsize rgb_row) (xsize dst_2x1) /\
  image_get
    (pixels (final (ImagingStretch malloc_ok (Some dst_1x2)
                      (Some rgb_column) IMAGING_TRANSFORM_BILINEAR)))
    1 (0 * 4 + 0) =
  image_get
    (pixels (final (ImagingStretch malloc_ok (Some dst_2x1) (Some rgb_row)
                      IMAGING_TRANSFORM_BILINEAR)))
    0 (1 * 4 + 0).
Proof.
  assert (H : xsize rgb_row <> xsize dst_2x1) by (simpl; lia).
  assert (Hy : 0 <= 0 < ysize dst_2x1) by (simpl; lia).
  assert (Hx : 0 <= 1 < xsize dst_2x1) by (simpl; lia).
  assert (Hc : 0 <= 0 < 3) by lia.
  assert (Hk : xmax (row_coefficients BILINEAR (xsize rgb_row)
                       (xsize dst_2x1) 1)
               - xmin (row_coefficients BILINEAR (xsize rgb_row)
                         (xsize dst_2x1) 1)
               <= row_kmax BILINEAR (xsize rgb_row) (xsize dst_2x1))
    by (vm_compute; discriminate).
  split; [exact valid_row_to_pair|]. split; [exact valid_column_to_pair|].
  split; [reflexivity|]. split; [reflexivity|]. split; [reflexivity|].
  split; [exact transposed_row_column|].
  split; [reflexivity|]. split; [reflexivity|].
  split; [exact fit_2x1|]. split; [exact fit_1x2|].
  split; [reflexivity|]. split; [exact H|].
  split; [exact Hy|]. split; [exact Hx|]. split; [exact Hc|].
  cbv zeta. split; [exact Hk|].
  exact (stretch_paths_agree malloc_ok dst_2x1 rgb_row dst_1x2 rgb_column
           IMAGING_TRANSFORM_BILINEAR BILINEAR valid_row_to_pair
           valid_column_to_pair eq_refl eq_refl eq_refl
           transposed_row_column eq_refl eq_refl
           fit_2x1 fit_1x2 eq_refl H 0 1 0 Hy Hx Hc Hk).
Defined.

(** A source with no row stretched to two rows. *)
Lemma stretch_empty_source_witness :
  valid_request malloc_ok dst_2x2 rgb_no_row IMAGING_TRANSFORM_BILINEAR /\
  type rgb_no_row = IMAGING_TYPE_UINT8 /\ bands rgb_no_row = 3 /\
  rows_fit (image dst_2x2) (xsize dst_2x2) (ysize dst_2x2) /\
  ((xsize rgb_no_row = xsize dst_2x2 /\ ysize rgb_no_row <= 0) \/
   (xsize rgb_no_row <> xsize dst_2x2 /\ xsize rgb_no_row <= 0)) /\
  forall yy xx ch,
    0 <= yy < ysize dst_2x2 -> 0 <= xx < xsize dst_2x2 -> 0 <= ch < 3 ->
    image_get
      (pixels (final (ImagingStretch malloc_ok (Some dst_2x2)
                        (Some rgb_no_row) IMAGING_TRANSFORM_BILINEAR)))
      yy (xx * 4 + ch) = 0.
Proof.
  assert (H : (xsize rgb_no_row = xsize dst_2x2 /\ ysize rgb_no_row <= 0) \/
              (xsize rgb_no_row <> xsize dst_2x2 /\ xsize rgb_no_row <= 0))
    by (left; split; [reflexivity|simpl; lia]).
  split; [exact valid_no_row|]. split; [reflexivity|].
  split; [reflexivity|]. split; [exact fit_2x2|]. split; [exact H|].
  exact (stretch_empty_source malloc_ok dst_2x2 rgb_no_row
           IMAGING_TRANSFORM_BILINEAR valid_no_row eq_refl eq_refl
           fit_2x2 H).
Defined.


(** The 3-band row stretched from width 4 to width 2 in binary32,
    first channel, with the whole range of a byte. *)
Lemma binary32_small_within_range_witness :
  valid_request malloc_ok dst_2x1 rgb_row IMAGING_TRANSFORM_BILINEAR /\
  IMAGING_TRANSFORM_BILINEAR <> IMAGING_TRANSFORM_ANTIALIAS /\
  type rgb_row = IMAGING_TYPE_UINT8 /\ bands rgb_row = 3 /\
  rows_fit (image dst_2x1) (xsize dst_2x1) (ysize dst_2x1) /\
  1 <= xsize rgb_row <= 12 /\ 1 <= ysize rgb_row <= 12 /\
  xsize dst_2x1 <= 12 /\ ysize dst_2x1 <= 12 /\
  0 <= 0 < 3 /\ 0 <= 0 /\ 255 <= 255 /\
  (forall y x, 0 <= y < ysize rgb_row -> 0 <= x < xsize rgb_row ->
     0 <= UINT8 (image_get (image rgb_row) y (x * 4 + 0)) <= 255) /\
  forall yy xx,
    0 <= yy < ysize dst_2x1 -> 0 <= xx < xsize dst_2x1 ->
    0 <= image_get
           (pixels (final (ImagingStretch malloc_ok (Some dst_2x1)
                             (Some rgb_row) IMAGING_TRANSFORM_BILINEAR)))
           yy (xx * 4 + 0) <= 255.
Proof.
  assert (H2 : IMAGING_TRANSFORM_BILINEAR <> IMAGING_TRANSFORM_ANTIALIAS)
    by discriminate.
  assert (H6 : 1 <= xsize rgb_row <= 12) by (simpl; lia).
  assert (H7 : 1 <= ysize rgb_row <= 12) by (simpl; lia).
  assert (H8 : xsize dst_2x1 <= 12) by (simpl; lia).
  assert (H9 : ysize dst_2x1 <= 12) by (simpl; lia).
  assert (H10 : 0 <= 0 < 3) by lia.
  assert (H11 : 0 <= 0) by lia.
  assert (H12 : 255 <= 255) by lia.
  assert (H13 : forall y x, 0 <= y < ysize rgb_row -> 0 <= x < xsize rgb_row ->
                  0 <= UINT8 (image_get (image rgb_row) y (x * 4 + 0)) <= 255)
    by (intros; apply UINT8_range).
  split; [exact valid_row_to_pair|]. split; [exact H2|].
  split; [reflexivity|]. split; [reflexivity|]. split; [exact fit_2x1|].
  repeat (split; [assumption|]).
  exact (binary32_small_within_range malloc_ok dst_2x1 rgb_row
           IMAGING_TRANSFORM_BILINEAR 0 0 255 valid_row_to_pair H2 eq_refl
           eq_refl fit_2x1 H6 H7 H8 H9 H10 H11 H12 H13).
Defined.

Lemma valid_row_to_row :
  valid_request malloc_ok dst_4x1 rgb_row IMAGING_TRANSFORM_BILINEAR.
Proof.
  apply valid_sample_request;
    [reflexivity|unfold IMAGING_TRANSFORM_BILINEAR; lia|left; reflexivity].
Qed.

Lemma valid_pair_to_row :
  valid_request malloc_ok dst_4x1 rgb_pair IMAGING_TRANSFORM_NEAREST.
Proof.
  apply valid_sample_request;
    [reflexivity|unfold IMAGING_TRANSFORM_NEAREST; lia|left; reflexivity].
Qed.

(** The 3-band row and a destination of its size in binary32, bilinear
    filter. *)
Lemma binary32_small_same_size_copies_witness :
  valid_request malloc_ok dst_4x1 rgb_row IMAGING_TRANSFORM_BILINEAR /\
  (IMAGING_TRANSFORM_BILINEAR = IMAGING_TRANSFORM_NEAREST \/
   IMAGING_TRANSFORM_BILINEAR = IMAGING_TRANSFORM_BILINEAR) /\
  type rgb_row = IMAGING_TYPE_UINT8 /\ bands rgb_row = 3 /\
  rows_fit (image dst_4x1) (xsize dst_4x1) (ysize dst_4x1) /\
  xsize rgb_row = xsize dst_4x1 /\ ysize rgb_row = ysize dst_4x1 /\
  1 <= xsize rgb_row <= 12 /\ 1 <= ysize rgb_row <= 12 /\
  forall yy xx ch,
    0 <= yy < ysize dst_4x1 -> 0 <= xx < xsize dst_4x1 -> 0 <= ch < 3 ->
    image_get
      (pixels (final (ImagingStretch malloc_ok (Some dst_4x1) (Some rgb_row)
                        IMAGING_TRANSFORM_BILINEAR)))
      yy (xx * 4 + ch) =
    UINT8 (image_get (image rgb_row) yy (xx * 4 + ch)).
Proof.
  assert (H2 : IMAGING_TRANSFORM_BILINEAR = IMAGING_TRANSFORM_NEAREST \/
               IMAGING_TRANSFORM_BILINEAR = IMAGING_TRANSFORM_BILINEAR)
    by (right; reflexivity).
  assert (H8 : 1 <= xsize rgb_row <= 12) by (simpl; lia).
  assert (H9 : 1 <= ysize rgb_row <= 12) by (simpl; lia).
  split; [exact valid_row_to_row|]. split; [exact H2|].
  split; [reflexivity|]. split; [reflexivity|]. split; [exact fit_4x1|].
  split; [reflexivity|]. split; [reflexivity|].
  split; [exact H8|]. split; [exact H9|].
  exact (binary32_small_same_size_copies malloc_ok dst_4x1 rgb_row
           IMAGING_TRANSFORM_BILINEAR valid_row_to_row H2 eq_refl eq_refl
           fit_4x1 eq_refl eq_refl H8 H9).
Defined.

(** A row of two pixels enlarged to four in binary32. *)
Lemma binary32_small_nearest_enlarging_witness :
  valid_request malloc_ok dst_4x1 rgb_pair IMAGING_TRANSFORM_NEAREST /\
  type rgb_pair = IMAGING_TYPE_UINT8 /\ bands rgb_pair = 3 /\
  rows_fit (image dst_4x1) (xsize dst_4x1) (ysize dst_4x1) /\
  1 <= xsize rgb_pair <= xsize dst_4x1 /\
  1 <= ysize rgb_pair <= ysize dst_4x1 /\
  xsize dst_4x1 <= 12 /\ ysize dst_4x1 <= 12 /\
  forall yy xx ch,
    0 <= yy < ysize dst_4x1 -> 0 <= xx < xsize dst_4x1 -> 0 <= ch < 3 ->
    image_get
      (pixels (final (ImagingStretch malloc_ok (Some dst_4x1) (Some rgb_pair)
                        IMAGING_TRANSFORM_NEAREST)))
      yy (xx * 4 + ch) =
    UINT8 (image_get (image rgb_pair)
             (central_index (ysize rgb_pair) (ysize dst_4x1) yy)
             (central_index (xsize rgb_pair) (xsize dst_4x1) xx * 4 + ch)).
Proof.
  assert (H5 : 1 <= xsize rgb_pair <= xsize dst_4x1) by (simpl; lia).
  assert (H6 : 1 <= ysize rgb_pair <= ysize dst_4x1) by (simpl; lia).
  assert (H7 : xsize dst_4x1 <= 12) by (simpl; lia).
  assert (H8 : ysize dst_4x1 <= 12) by (simpl; lia).
  split; [exact valid_pair_to_row|]. split; [reflexivity|].
  split; [reflexivity|]. split; [exact fit_4x1|].
  split; [exact H5|]. split; [exact H6|]. split; [exact H7|].
  split; [exact H8|].
  exact (binary32_small_nearest_enlarging malloc_ok dst_4x1 rgb_pair
           valid_pair_to_row eq_refl eq_refl fit_4x1 H5 H6 H7 H8).
Defined.

(** The first row of the antialias stretch from 4 samples to 2, with a
    [sin] that answers NaN. *)
Lemma binary32_small_buffer_suffices_witness :
  select_filter IMAGING_TRANSFORM_ANTIALIAS = Some ANTIALIAS /\
  1 <= 4 <= 12 /\ 1 <= 2 <= 12 /\ 0 <= 0 < 2 /\
  let scale := fdiv (f_of_int 4) (f_of_int 2) in
  let support := fmul (support ANTIALIAS) (filterscale_of scale) in
  let r := row_coefficients ANTIALIAS 4 2 0 in
  Z.of_nat (length (intk r)) = xmax r - xmin r /\
  0 < xmax r - xmin r <= kmax_of support.
Proof.
  assert (H2 : 1 <= 4 <= 12) by lia.
  assert (H3 : 1 <= 2 <= 12) by lia.
  assert (H4 : 0 <= 0 < 2) by lia.
  split; [reflexivity|]. split; [exact H2|]. split; [exact H3|].
  split; [exact H4|].
  exact (binary32_small_buffer_suffices (fun _ => Floats.SpecFloat.S754_nan)
           IMAGING_TRANSFORM_ANTIALIAS ANTIALIAS 4 2 0 eq_refl H2 H3 H4).
Defined.

(** The second box of the nearest stretch from 4 samples to 2. *)
Lemma binary32_small_nearest_shrinking_witness :
  1 <= 2 /\ 1 <= 2 /\ 2 * 2 <= 12 /\ 0 <= 1 < 2 /\
  let r := row_coefficients NEAREST (2 * 2) 2 1 in
  xmin r = 1 * 2 /\ xmax r = (1 + 1) * 2 /\
  intk r = repeat (2^22 / 2) (Z.to_nat 2).
Proof.
  assert (H1 : 1 <= 2) by lia.
  assert (H3 : 2 * 2 <= 12) by lia.
  assert (H4 : 0 <= 1 < 2) by lia.
  split; [exact H1|]. split; [exact H1|]. split; [exact H3|].
  split; [exact H4|].
  exact (binary32_small_nearest_shrinking 2 2 1 H1 H1 H3 H4).
Defined.

(** The last of 4 samples lies outside the first window, [0, 3), of
    the bilinear stretch from 4 samples to 2. *)
Lemma binary32_small_window_holds_weights_witness :
  select_filter IMAGING_TRANSFORM_BILINEAR = Some BILINEAR /\
  1 <= 4 <= 12 /\ 1 <= 2 <= 12 /\ 0 <= 0 < 2 /\ 0 <= 3 < 4 /\
  let scale := fdiv (f_of_int 4) (f_of_int 2) in
  let filterscale := filterscale_of scale in
  let r := row_coefficients BILINEAR 4 2 0 in
  (3 < xmin r \/ xmax r <= 3) /\
  deq (f2d (weight BILINEAR (center_of scale 0)
              (d2f (ddiv (d_of_int 1) (f2d filterscale))) 3))
      (d_of_int 0) = true.
Proof.
  assert (H2 : 1 <= 4 <= 12) by lia.
  assert (H3 : 1 <= 2 <= 12) by lia.
  assert (H4 : 0 <= 0 < 2) by lia.
  assert (H5 : 0 <= 3 < 4) by lia.
  assert (H6 : 3 < xmin (row_coefficients BILINEAR 4 2 0) \/
               xmax (row_coefficients BILINEAR 4 2 0) <= 3)
    by (right; vm_compute; discriminate).
  split; [reflexivity|]. split; [exact H2|]. split; [exact H3|].
  split; [exact H4|]. split; [exact H5|]. cbv zeta. split; [exact H6|].
  exact (binary32_small_window_holds_weights
           (fun _ => Floats.SpecFloat.S754_nan)
           IMAGING_TRANSFORM_BILINEAR BILINEAR 4 2 0 3 eq_refl H2 H3 H4 H5
           H6).
Defined.

(** The first row of the bilinear stretch from 4 samples to 2. *)
Lemma binary32_small_rows_normalised_witness :
  select_filter IMAGING_TRANSFORM_BILINEAR = Some BILINEAR /\
  IMAGING_TRANSFORM_BILINEAR <> IMAGING_TRANSFORM_ANTIALIAS /\
  1 <= 4 <= 12 /\ 1 <= 2 <= 12 /\ 0 <= 0 < 2 /\
  let r := row_coefficients BILINEAR 4 2 0 in
  xmin r < xmax r /\
  Floats.SpecFloat.SFltb (Floats.SpecFloat.S754_zero false) (ww r) = true /\
  Z.abs (sum_intk (intk r) - 2^22) < Z.of_nat (length (intk r)).
Proof.
  assert (H1 : IMAGING_TRANSFORM_BILINEAR <> IMAGING_TRANSFORM_ANTIALIAS)
    by discriminate.
  assert (H2 : 1 <= 4 <= 12) by lia.
  assert (H3 : 1 <= 2 <= 12) by lia.
  assert (H4 : 0 <= 0 < 2) by lia.
  split; [reflexivity|]. split; [exact H1|]. split; [exact H2|].
  split; [exact H3|]. split; [exact H4|].
  exact (binary32_small_rows_normalised IMAGING_TRANSFORM_BILINEAR BILINEAR
           4 2 0 eq_refl H1 H2 H3 H4).
Defined.

(** In binary32, the bilinear stretch of 25165836 columns to 8388612:
    [kmax] is 7, the window of column 5592406 has 8 taps, and for the
    eighth the loop over the pixels reads 1048576, the first weight of
    column 5592407, where the weight computed for the tap is 0.  On a
    row whose samples are all 200 the pixel is stored as 250; with the
    weights computed for the column it would be 200. *)
Lemma coefficient_slots_overrun_witness :
  let scale := fdiv (f_of_int 25165836) (f_of_int 8388612) in
  let filterscale := filterscale_of scale in
  let support := fmul (support BILINEAR) filterscale in
  let kmax := kmax_of support in
  let c := compute_coefficients BILINEAR scale filterscale support
             25165836 5592406 in
  let next := compute_coefficients BILINEAR scale filterscale support
                25165836 (5592406 + 1) in
  let t := coefficient_tables BILINEAR scale filterscale support 25165836
             kmax 8388612 in
  let sample := fun _ _ : Z => 200 in
  (0 <= 5592406 /\ 5592406 + 1 < 8388612 /\
   0 < kmax /\ xmax c - xmin c = kmax + 1 /\ xmin next < xmax next) /\
  (kmax = 7 /\ xmin c = 16777216 /\ xmax c = 16777224 /\
   nth 7 (intk c) 0 = 0 /\ nth 0 (intk next) 0 = 1048576) /\
  intkk t (5592406 * kmax + kmax) = nth 0 (intk next) 0 /\
  clip8 (chan 0 (accumulate_column sample t kmax 5592406)) = 250 /\
  clip8 (chan 0 (accumulate sample c)) = 200.
Proof.
  intros scale filterscale support kmax c next t sample.
  assert (K : kmax = 7) by (vm_compute; reflexivity).
  assert (E1 : xmin c = 16777216) by (vm_compute; reflexivity).
  assert (E2 : xmax c = 16777224) by (vm_compute; reflexivity).
  assert (E3 : nth 7 (intk c) 0 = 0) by (vm_compute; reflexivity).
  assert (E4 : nth 0 (intk next) 0 = 1048576) by (vm_compute; reflexivity).
  assert (N : xmin next < xmax next) by (vm_compute; reflexivity).
  assert (H1 : 0 <= 5592406) by lia.
  assert (H2 : 5592406 + 1 < 8388612) by lia.
  assert (H3 : 0 < kmax) by (rewrite K; lia).
  assert (H4 : xmax c - xmin c = kmax + 1) by (rewrite K, E1, E2; lia).
  pose proof (coefficient_slots_overrun BILINEAR scale filterscale support
                25165836 kmax 8388612 5592406 sample H1 H2 H3 H4 N)
    as [S1 S2].
  split; [repeat split; assumption|].
  split; [repeat split; assumption|].
  split; [exact S1|]. split.
  - fold c in S2. fold next in S2. fold t in S2. rewrite S2.
    vm_compute. reflexivity.
  - vm_compute. reflexivity.
Defined.

End SampleCalls.
